(** * Weave import tooling: a shallow embedding and its properties

    The development follows three scripts of the repository:

    - [analyze_report.py]  buckets the [no-restricted-imports] messages of a
      lint report into same-module, cross-module and other violations;
    - [refactor_imports.py] rewrites relative import specifiers into alias
      form ([@/db/...]) with a regular-expression substitution;
    - [audit_script.py] walks the tree and records, among other findings,
      deep imports into another module.

    Python [str] values are modelled as lists of characters.  Characters are
    [ascii], that is code points below 256.  The scripts run on a POSIX host:
    [os.sep] is ["/"] and [os.path] is [posixpath]. *)

From Stdlib Require Import Ascii String Bool Arith Lia List.
From Stdlib Require DecimalString.
Import ListNotations.

Set Implicit Arguments.

(** ** Python strings *)

Definition str := list ascii.

Definition py (s : string) : str := list_ascii_of_string s.
Arguments py s%_string.

Module PyStr.

(** [a == b] *)
Fixpoint eqb (a b : str) : bool :=
  match a, b with
  | [], [] => true
  | x :: a', y :: b' => Ascii.eqb x y && eqb a' b'
  | _, _ => false
  end.

(** [s.startswith(p)] *)
Fixpoint startswith (p s : str) : bool :=
  match p, s with
  | [], _ => true
  | x :: p', y :: s' => Ascii.eqb x y && startswith p' s'
  | _ :: _, [] => false
  end.

(** [s.endswith(p)] *)
Definition endswith (p s : str) : bool := startswith (rev p) (rev s).

(** [sub in s] *)
Fixpoint contains (sub s : str) : bool :=
  startswith sub s ||
  match s with
  | [] => false
  | _ :: s' => contains sub s'
  end.

(** [c in s] for a one-character [c] *)
Definition has (c : ascii) (s : str) : bool := existsb (Ascii.eqb c) s.

Definition cons_head (c : ascii) (l : list str) : list str :=
  match l with
  | h :: t => (c :: h) :: t
  | [] => [[c]]
  end.

(** [s.split(sep)] for a one-character separator: never the empty list. *)
Fixpoint split (sep : ascii) (s : str) : list str :=
  match s with
  | [] => [[]]
  | c :: s' =>
      if Ascii.eqb c sep then [] :: split sep s'
      else cons_head c (split sep s')
  end.

(** [s.split(sep)] for a separator of any positive length, scanning left to
    right; [skip] counts the characters of a separator still to be passed
    and [cur] holds the current piece, reversed. *)
Fixpoint split_str_aux (sep s : str) (skip : nat) (cur : str) : list str :=
  match s with
  | [] => [rev cur]
  | c :: s' =>
      match skip with
      | S n => split_str_aux sep s' n cur
      | O =>
          if startswith sep s
          then rev cur :: split_str_aux sep s' (length sep - 1) []
          else split_str_aux sep s' 0 (c :: cur)
      end
  end.

Definition split_str (sep s : str) : list str := split_str_aux sep s 0 [].

(** [sep.join(l)] *)
Fixpoint join (sep : str) (l : list str) : str :=
  match l with
  | [] => []
  | [x] => x
  | x :: t => x ++ sep ++ join sep t
  end.

(** [s.replace(old, new, 1)]: the first occurrence only. *)
Fixpoint replace_first (old new s : str) : str :=
  if startswith old s then new ++ skipn (length old) s
  else
    match s with
    | [] => []
    | c :: s' => c :: replace_first old new s'
    end.

(** [s.replace(old, new)] for a one-character [old]. *)
Definition replace_char (old : ascii) (new s : str) : str :=
  flat_map (fun c => if Ascii.eqb c old then new else [c]) s.

(** [s.rstrip(c)] for a one-character [c] *)
Fixpoint lstrip (c : ascii) (s : str) : str :=
  match s with
  | x :: s' => if Ascii.eqb x c then lstrip c s' else s
  | [] => []
  end.

Definition rstrip (c : ascii) (s : str) : str := rev (lstrip c (rev s)).

(** Truth value of a string: the empty string is false. *)
Definition truthy (s : str) : bool :=
  match s with
  | [] => false
  | _ :: _ => true
  end.

(** Truth value of a value that may be [None]. *)
Definition truthy_opt (o : option str) : bool :=
  match o with
  | Some s => truthy s
  | None => false
  end.

(** [a == b] where either side may be [None]. *)
Definition opt_eqb (a b : option str) : bool :=
  match a, b with
  | Some x, Some y => eqb x y
  | None, None => true
  | _, _ => false
  end.

End PyStr.

Arguments PyStr.split sep%_char s.
Arguments PyStr.has c%_char s.
Arguments PyStr.lstrip c%_char s.
Arguments PyStr.rstrip c%_char s.
Arguments PyStr.replace_char old%_char new s.

(** ** Exceptions *)

Inductive exn : Type :=
| IndexError
| ValueError
| AttributeError
| OSError.

Inductive result (A : Type) : Type :=
| Ok (a : A)
| Raise (e : exn).

Arguments Ok {A} a.
Arguments Raise {A} e.

Definition bind {A B : Type} (r : result A) (k : A -> result B) : result B :=
  match r with
  | Ok a => k a
  | Raise e => Raise e
  end.

Notation "x <- r ;; k" := (bind r (fun x => k))
  (at level 61, r at next level, right associativity).

(** ** Regular expressions, as [re] runs them

    A backtracking matcher in continuation-passing style: alternatives are
    tried left to right, a greedy repetition tries the longest run first and
    a lazy one the shortest, and the first way that lets the rest of the
    pattern match is the match. *)

Module Re.
Import PyStr.

Inductive regex : Type :=
| Lit (s : str)                                (* literal text *)
| Cls (p : ascii -> bool)                      (* one character of a class *)
| Rep (greedy : bool) (min : nat) (p : ascii -> bool)
                                               (* [p*], [p+], [p*?] *)
| Grp (n : nat) (r : regex)                    (* capturing group [n] *)
| Cat (r1 r2 : regex)
| Alt (r1 r2 : regex).

Fixpoint seq (l : list regex) : regex :=
  match l with
  | [] => Lit []
  | [r] => r
  | r :: l' => Cat r (seq l')
  end.

(** The groups that took part in the match, most recent first. *)
Definition captures := list (nat * str).

Record match_obj : Type := {
  m_whole : str;
  m_groups : captures
}.

Fixpoint lookup (n : nat) (caps : captures) : option str :=
  match caps with
  | [] => None
  | (k, v) :: rest => if k =? n then Some v else lookup n rest
  end.

(** [m.group(n)]: [None] for a group that did not take part. *)
Definition group (m : match_obj) (n : nat) : option str :=
  match n with
  | 0 => Some (m_whole m)
  | _ => lookup n (m_groups m)
  end.

(** What was read between input [s] and its suffix [s']. *)
Definition consumed (s s' : str) : str := firstn (length s - length s') s.

Section Exec.
Variable R : Type.

Definition cont := str -> captures -> option R.

Fixpoint rep_greedy (p : ascii -> bool) (min : nat) (s : str)
         (caps : captures) (k : cont) {struct s} : option R :=
  let stop := if min =? 0 then k s caps else None in
  match s with
  | c :: s' =>
      if p c then
        match rep_greedy p (pred min) s' caps k with
        | Some x => Some x
        | None => stop
        end
      else stop
  | [] => stop
  end.

Fixpoint rep_lazy (p : ascii -> bool) (min : nat) (s : str)
         (caps : captures) (k : cont) {struct s} : option R :=
  match (if min =? 0 then k s caps else None) with
  | Some x => Some x
  | None =>
      match s with
      | c :: s' => if p c then rep_lazy p (pred min) s' caps k else None
      | [] => None
      end
  end.

Fixpoint exec (r : regex) (s : str) (caps : captures) (k : cont) : option R :=
  match r with
  | Lit l => if startswith l s then k (skipn (length l) s) caps else None
  | Cls p =>
      match s with
      | c :: s' => if p c then k s' caps else None
      | [] => None
      end
  | Rep greedy min p =>
      if greedy then rep_greedy p min s caps k else rep_lazy p min s caps k
  | Grp n r' =>
      exec r' s caps (fun s' caps' => k s' ((n, consumed s s') :: caps'))
  | Cat r1 r2 => exec r1 s caps (fun s' caps' => exec r2 s' caps' k)
  | Alt r1 r2 =>
      match exec r1 s caps k with
      | Some x => Some x
      | None => exec r2 s caps k
      end
  end.
End Exec.

(** [pattern.match(s)]: a match that starts at the head of [s]. *)
Definition match_at (r : regex) (s : str) : option match_obj :=
  exec r s [] (fun s' caps => Some {| m_whole := consumed s s'; m_groups := caps |}).

(** [pattern.search(s)]: the leftmost match. *)
Fixpoint search (r : regex) (s : str) : option match_obj :=
  match match_at r s with
  | Some m => Some m
  | None =>
      match s with
      | [] => None
      | _ :: s' => search r s'
      end
  end.

(** [pattern.sub(repl, s)] for a replacement function that may raise:
    matches are found left to right and do not overlap; [skip] counts the
    characters of the last match still to be passed. *)
Fixpoint sub_aux (r : regex) (repl : match_obj -> result str) (s : str)
         (skip : nat) : result str :=
  match s with
  | [] => Ok []
  | c :: s' =>
      match skip with
      | S n => sub_aux r repl s' n
      | O =>
          match match_at r s with
          | Some m =>
              new <- repl m ;;
              match length (m_whole m) with
              | 0 => rest <- sub_aux r repl s' 0 ;; Ok (new ++ c :: rest)
              | S n => rest <- sub_aux r repl s' n ;; Ok (new ++ rest)
              end
          | None => rest <- sub_aux r repl s' 0 ;; Ok (c :: rest)
          end
      end
  end.

Definition sub (r : regex) (repl : match_obj -> result str) (s : str) : result str :=
  sub_aux r repl s 0.

(** The matches [sub] finds, in order. *)
Fixpoint scan_aux (r : regex) (s : str) (skip : nat) : list match_obj :=
  match s with
  | [] => []
  | _ :: s' =>
      match skip with
      | S n => scan_aux r s' n
      | O =>
          match match_at r s with
          | Some m => m :: scan_aux r s' (pred (length (m_whole m)))
          | None => scan_aux r s' 0
          end
      end
  end.

(** [pattern.finditer(s)] *)
Definition scan (r : regex) (s : str) : list match_obj := scan_aux r s 0.

(** Character classes.  [\s] on [str] patterns is Unicode white space. *)
Definition is_space (c : ascii) : bool :=
  let n := nat_of_ascii c in
  ((9 <=? n) && (n <=? 13)) || ((28 <=? n) && (n <=? 32))
  || (n =? 133) || (n =? 160).

Definition newline : ascii := ascii_of_nat 10.

(** [.] without [DOTALL] *)
Definition not_newline (c : ascii) : bool := negb (Ascii.eqb c newline).

(** The class of the two quote characters. *)
Definition is_quote (c : ascii) : bool :=
  Ascii.eqb c "'"%char || Ascii.eqb c (ascii_of_nat 34).

(** [[^/]] *)
Definition not_slash (c : ascii) : bool := negb (Ascii.eqb c "/"%char).

End Re.

(** ** Files and standard output

    A script runs in a world of files and printed lines.  An exception
    leaves the world as it was when it was raised.

    What a path names is told apart by what [open] does with it.  A path
    may be a second name of a file: a symbolic link, which the host follows
    to its end, or a hard link.  Reading and writing then reach the file
    itself, so two paths can show the same content. *)

Module World.

Inductive file : Type :=
| Text (content : str)        (* readable as UTF-8 text, and writable *)
| Unreadable (e : exn)        (* [open] or [read] raises [e]; writable *)
| Locked (read : result str) (e : exn)
                              (* read as [read]; [open(path, 'w')] raises [e] *)
| Link (target : str).        (* another name of the file at [target] *)

Record world : Type := {
  files : list (str * file);
  stdout : list str
}.

Definition M (A : Type) : Type := world -> result A * world.

Definition ret {A : Type} (a : A) : M A := fun w => (Ok a, w).

Definition raise {A : Type} (e : exn) : M A := fun w => (Raise e, w).

Definition mbind {A B : Type} (m : M A) (k : A -> M B) : M B :=
  fun w =>
    match m w with
    | (Ok a, w') => k a w'
    | (Raise e, w') => (Raise e, w')
    end.

(** [try: m  except Exception as e: handler(e)] *)
Definition try_except {A : Type} (m : M A) (handler : exn -> M A) : M A :=
  fun w =>
    match m w with
    | (Ok a, w') => (Ok a, w')
    | (Raise e, w') => handler e w'
    end.

Definition lift {A : Type} (r : result A) : M A := fun w => (r, w).

Fixpoint find_file (path : str) (fs : list (str * file)) : option file :=
  match fs with
  | [] => None
  | (p, f) :: rest => if PyStr.eqb p path then Some f else find_file path rest
  end.

Fixpoint store_file (path : str) (f : file) (fs : list (str * file))
  : list (str * file) :=
  match fs with
  | [] => [(path, f)]
  | (p, g) :: rest =>
      if PyStr.eqb p path then (p, f) :: rest
      else (p, g) :: store_file path f rest
  end.

(** The path under which the file that [path] names is stored: the target
    of a link, the path itself otherwise. *)
Definition locate (fs : list (str * file)) (path : str) : str :=
  match find_file path fs with
  | Some (Link target) => target
  | _ => path
  end.

(** What [open(path, 'r', encoding='utf-8')] and [read] give.  A path that
    names nothing raises, and so does a link that leads to no file: one
    whose target is missing, or is a link again (a loop of links). *)
Definition read_file (fs : list (str * file)) (path : str) : result str :=
  match find_file (locate fs path) fs with
  | Some (Text content) => Ok content
  | Some (Unreadable e) => Raise e
  | Some (Locked read _) => read
  | Some (Link _) => Raise OSError
  | None => Raise OSError
  end.

(** [with open(path, 'r', encoding='utf-8') as f: f.read()] *)
Definition read_text (path : str) : M str :=
  fun w => (read_file (files w) path, w).

(** [with open(path, 'w', encoding='utf-8') as f: f.write(content)]: the
    file that [path] names is replaced by the text, through a link too; a
    path that names no file yet is created.  A file that cannot be opened
    for writing raises and stays as it is. *)
Definition write_text (path content : str) : M unit :=
  fun w =>
    let target := locate (files w) path in
    match find_file target (files w) with
    | Some (Locked _ e) => (Raise e, w)
    | Some (Link _) => (Raise OSError, w)
    | _ =>
        (Ok tt, {| files := store_file target (Text content) (files w);
                   stdout := stdout w |})
    end.

(** [print(line)] *)
Definition print (line : str) : M unit :=
  fun w => (Ok tt, {| files := files w; stdout := stdout w ++ [line] |}).

(** [for x in l: body(x)] *)
Fixpoint for_each {A : Type} (l : list A) (body : A -> M unit) : M unit :=
  match l with
  | [] => ret tt
  | x :: rest => mbind (body x) (fun _ => for_each rest body)
  end.

End World.

Notation "x <~ m ;; k" := (World.mbind m (fun x => k))
  (at level 61, m at next level, right associativity).
Notation "m ;;; k" := (World.mbind m (fun _ => k))
  (at level 61, right associativity).

(** ** [analyze_report.py] *)

Module AnalyzeReport.
Import PyStr.

Inductive Classification : Type :=
| SameModule
| CrossModule
| Other.

(** One entry of [violations]. *)
Record violation : Type := {
  v_file : str;
  v_line : nat;
  v_message : str
}.

(** One entry of a bucket: the [info] dictionary. *)
Record info : Type := {
  i_file : str;
  i_import : str;
  i_line : nat
}.

(** Lines 26-30: [parts[2]] of the file when it starts with
    [src/modules/]. *)
Definition source_module (file : str) : option str :=
  if startswith (py "src/modules/") file then
    let parts := split "/" file in
    if 2 <? length parts then Some (nth 2 parts []) else None
  else None.

(** Line 34: [v['message'].split("'")[1]]. *)
Definition import_path (message : str) : result str :=
  match nth_error (split "'" message) 1 with
  | Some s => Ok s
  | None => Raise IndexError
  end.

(** Lines 36-40. *)
Definition target_module (import_path : str) : option str :=
  if startswith (py "@/modules/") import_path then
    let parts := split "/" import_path in
    if 2 <? length parts then Some (nth 2 parts []) else None
  else None.

(** Lines 44-50: the bucket an (file, import path) pair goes to. *)
Definition classify (file import_path : str) : Classification :=
  let source_module := source_module file in
  let target_module := target_module import_path in
  if truthy_opt source_module && truthy_opt target_module then
    if opt_eqb source_module target_module then SameModule else CrossModule
  else Other.

(** Lines 24-50 for one violation. *)
Definition classify_violation (file message : str) : result Classification :=
  import_path <- import_path message ;;
  Ok (classify file import_path).

(** The three buckets, in the order [cross_module], [same_module],
    [other_to_module]. *)
Record buckets : Type := {
  cross_module : list info;
  same_module : list info;
  other_to_module : list info
}.

Definition empty_buckets : buckets :=
  {| cross_module := []; same_module := []; other_to_module := [] |}.

Definition append_info (b : buckets) (c : Classification) (i : info) : buckets :=
  match c with
  | CrossModule =>
      {| cross_module := cross_module b ++ [i];
         same_module := same_module b;
         other_to_module := other_to_module b |}
  | SameModule =>
      {| cross_module := cross_module b;
         same_module := same_module b ++ [i];
         other_to_module := other_to_module b |}
  | Other =>
      {| cross_module := cross_module b;
         same_module := same_module b;
         other_to_module := other_to_module b ++ [i] |}
  end.

(** Lines 24-50: the loop over [violations]. *)
Fixpoint classify_all (violations : list violation) (b : buckets) : result buckets :=
  match violations with
  | [] => Ok b
  | v :: rest =>
      import_path <- import_path (v_message v) ;;
      let i := {| i_file := v_file v; i_import := import_path; i_line := v_line v |} in
      classify_all rest (append_info b (classify (v_file v) import_path) i)
  end.

End AnalyzeReport.

(** ** [os.path] on a POSIX host *)

Module PosixPath.
Import PyStr.

Definition sep : str := py "/".
Definition curdir : str := py ".".
Definition pardir : str := py "..".

(** [s.rfind(c) + 1]: one past the last [c], or [0]. *)
Fixpoint rfind_end (c : ascii) (s : str) : nat :=
  match s with
  | [] => 0
  | x :: s' =>
      match rfind_end c s' with
      | S n => S (S n)
      | O => if Ascii.eqb x c then 1 else 0
      end
  end.

(** [posixpath.dirname] *)
Definition dirname (p : str) : str :=
  let i := rfind_end "/" p in
  let head := firstn i p in
  if truthy head && negb (eqb head (repeat "/"%char (length head)))
  then rstrip "/" head
  else head.

(** [posixpath.isabs] *)
Definition isabs (p : str) : bool := startswith sep p.

(** One round of the loop of [posixpath.join]. *)
Definition join_step (path b : str) : str :=
  if startswith sep b then b
  else if negb (truthy path) || endswith sep path then path ++ b
  else path ++ sep ++ b.

(** [posixpath.join(a, *p)] *)
Definition join (a : str) (p : list str) : str := fold_left join_step p a.

(** One round of the loop of [posixpath.normpath].  [new_comps] is kept as
    a stack: its head is the last element of the Python list. *)
Definition norm_step (initial_slashes : nat) (new_comps : list str) (comp : str)
  : list str :=
  if eqb comp [] || eqb comp curdir then new_comps
  else if negb (eqb comp pardir)
          || ((initial_slashes =? 0) && negb (0 <? length new_comps))
          || match new_comps with
             | last :: _ => eqb last pardir
             | [] => false
             end
  then comp :: new_comps
  else tl new_comps.

(** [posixpath.normpath] *)
Definition normpath (path : str) : str :=
  if eqb path [] then curdir
  else
    let initial_slashes :=
      if startswith sep path then
        if startswith (py "//") path && negb (startswith (py "///") path)
        then 2 else 1
      else 0 in
    let comps := split "/" path in
    let new_comps := fold_left (norm_step initial_slashes) comps [] in
    let path := PyStr.join sep (rev new_comps) in
    let path := repeat "/"%char initial_slashes ++ path in
    if truthy path then path else curdir.

(** [posixpath.abspath], with the working directory as an argument. *)
Definition abspath (cwd path : str) : str :=
  normpath (if isabs path then path else join cwd [path]).

(** [len(commonprefix([a, b]))] for two lists of components. *)
Fixpoint common_len (a b : list str) : nat :=
  match a, b with
  | x :: a', y :: b' => if eqb x y then S (common_len a' b') else 0
  | _, _ => 0
  end.

(** [posixpath.relpath(path, start)], with the working directory as an
    argument; an empty [path] raises [ValueError]. *)
Definition relpath (cwd path start : str) : result str :=
  if negb (truthy path) then Raise ValueError
  else
    let start_list := filter truthy (split "/" (abspath cwd start)) in
    let path_list := filter truthy (split "/" (abspath cwd path)) in
    let i := common_len start_list path_list in
    let rel_list := repeat pardir (length start_list - i) ++ skipn i path_list in
    match rel_list with
    | [] => Ok curdir
    | a :: p => Ok (join a p)
    end.

End PosixPath.

(** ** [refactor_imports.py] *)

Module RefactorImports.
Import PyStr.

(** [os.sep] *)
Definition os_sep : ascii := "/"%char.

(** Lines 10-23. *)
Definition ALIASES : list (str * str) :=
  [ (py "src/modules", py "@/modules");
    (py "src/shared", py "@/shared");
    (py "src/db", py "@/db");
    (py "app", py "@/app");
    (py "src/components", py "@/components");
    (py "src/types", py "@/types");
    (py "src/lib", py "@/lib");
    (py "src/hooks", py "@/hooks");
    (py "src/stores", py "@/stores");
    (py "src/context", py "@/context");
    (py "src/guidelines", py "@/guidelines");
    (py "assets", py "@/assets") ].

(** Lines 30-39.  [ROOT_DIR] is [os.getcwd()], read once when the script
    starts; the script never changes directory, so it is also the working
    directory [abspath] and [relpath] see. *)
Definition resolve_path (ROOT_DIR current_file_path import_path : str) : result str :=
  if startswith (py ".") import_path then
    let current_dir := PosixPath.dirname current_file_path in
    let abs_path :=
      PosixPath.abspath ROOT_DIR (PosixPath.join current_dir [import_path]) in
    rel_path <- PosixPath.relpath ROOT_DIR abs_path ROOT_DIR ;;
    Ok rel_path
  else Ok import_path.

(** The test of line 47 for one rule. *)
Definition rule_matches (source path : str) : bool :=
  eqb path source
  || startswith (source ++ [os_sep]) path
  || startswith (source ++ py "/") path.

(** Lines 41-51, over any alias table. *)
Fixpoint alias_in (table : list (str * str)) (path : str) : option str :=
  match table with
  | [] => None
  | (source, alias) :: rest =>
      if rule_matches source path
      then Some (replace_first source alias path)
      else alias_in rest path
  end.

(** Lines 41-51. *)
Definition get_alias_for_path (path : str) : option str := alias_in ALIASES path.

(** Line 28. *)
Definition IMPORT_REGEX : Re.regex :=
  let from_clause (keyword : str) :=
    Re.seq [ Re.Lit keyword; Re.Rep true 1 Re.is_space;
             Re.Rep false 0 Re.not_newline;
             Re.Lit (py "from"); Re.Rep true 1 Re.is_space;
             Re.Cls Re.is_quote ] in
  let path := Re.Rep false 0 Re.not_newline in
  Re.Alt
    (Re.seq [ Re.Grp 1 (from_clause (py "import")); Re.Grp 2 path;
              Re.Grp 3 (Re.Cls Re.is_quote) ])
    (Re.Alt
       (Re.seq [ Re.Grp 4 (from_clause (py "export")); Re.Grp 5 path;
                 Re.Grp 6 (Re.Cls Re.is_quote) ])
       (Re.seq [ Re.Grp 7 (Re.seq [ Re.Lit (py "require("); Re.Cls Re.is_quote ]);
                 Re.Grp 8 path;
                 Re.Grp 9 (Re.Cls Re.is_quote) ])).

(** How a value that may be [None] prints inside an f-string. *)
Definition fmt (o : option str) : str :=
  match o with
  | Some s => s
  | None => py "None"
  end.

(** Lines 64-77: the (prefix, path, suffix) groups of the alternative that
    matched. *)
Definition matched_groups (m : Re.match_obj)
  : option (option str * option str * option str) :=
  if truthy_opt (Re.group m 1) then Some (Re.group m 1, Re.group m 2, Re.group m 3)
  else if truthy_opt (Re.group m 4) then Some (Re.group m 4, Re.group m 5, Re.group m 6)
  else if truthy_opt (Re.group m 7) then Some (Re.group m 7, Re.group m 8, Re.group m 9)
  else None.

(** Lines 100-129: with an alias at hand, is the specifier replaced? *)
Definition rewrite_wanted (path aliased : str) : bool :=
  if negb (eqb path aliased) then
    if contains (py "../../") path then true
    else if startswith (py "../../") path then true
    else if contains (py "/src/") path then true
    else false
  else false.

(** Lines 62-129. *)
Definition replacer (ROOT_DIR filepath : str) (m : Re.match_obj) : result str :=
  match matched_groups m with
  | None => Ok (Re.m_whole m)
  | Some (prefix, None, suffix) => Raise AttributeError
  | Some (prefix, Some path, suffix) =>
      if negb (startswith (py ".") path) then Ok (Re.m_whole m)
      else
        resolved <- resolve_path ROOT_DIR filepath path ;;
        if startswith (py "..") resolved then Ok (Re.m_whole m)
        else
          match get_alias_for_path resolved with
          | Some aliased =>
              if truthy aliased then
                let aliased := replace_char os_sep (py "/") aliased in
                if rewrite_wanted path aliased
                then Ok (fmt prefix ++ aliased ++ fmt suffix)
                else Ok (Re.m_whole m)
              else Ok (Re.m_whole m)
          | None => Ok (Re.m_whole m)
          end
  end.

(** Line 131: the new content of a file. *)
Definition rewrite_content (ROOT_DIR filepath content : str) : result str :=
  Re.sub IMPORT_REGEX (replacer ROOT_DIR filepath) content.

(** Lines 53-136. *)
Definition process_file (ROOT_DIR filepath : str) : World.M unit :=
  content <~ World.read_text filepath ;;
  new_content <~ World.lift (rewrite_content ROOT_DIR filepath content) ;;
  if negb (eqb new_content content) then
    World.print (py "Updating " ++ filepath) ;;;
    World.write_text filepath new_content
  else World.ret tt.

Definition extensions : list str := [py ".ts"; py ".tsx"; py ".js"; py ".jsx"].

(** [file.endswith(extensions)] for a tuple of suffixes *)
Definition endswith_any (suffixes : list str) (file : str) : bool :=
  existsb (fun suffix => endswith suffix file) suffixes.

(** Lines 138-144.  [walk root_dir] lists what [os.walk(root_dir)] yields:
    each directory with its files. *)
Definition main (ROOT_DIR : str) (walk : str -> list (str * list str))
  : World.M unit :=
  let SRC_DIR := PosixPath.join ROOT_DIR [py "src"] in
  let APP_DIR := PosixPath.join ROOT_DIR [py "app"] in
  World.for_each [SRC_DIR; APP_DIR] (fun root_dir =>
    World.for_each (walk root_dir) (fun '(root, files) =>
      World.for_each files (fun file =>
        if endswith_any extensions file
        then process_file ROOT_DIR (PosixPath.join root [file])
        else World.ret tt))).

End RefactorImports.

(** ** [audit_script.py] *)

Module AuditScript.
Import PyStr.

(** Line 32. *)
Definition deep_import_pattern : Re.regex :=
  Re.seq [ Re.Lit (py "from "); Re.Cls Re.is_quote; Re.Lit (py "@/modules/");
           Re.Grp 1 (Re.Rep true 1 Re.not_slash); Re.Lit (py "/");
           Re.Grp 2 (Re.Rep true 0 Re.not_newline); Re.Cls Re.is_quote ].

(** Line boundaries of [str.splitlines]. *)
Definition is_linebreak (c : ascii) : bool :=
  let n := nat_of_ascii c in
  ((10 <=? n) && (n <=? 13)) || ((28 <=? n) && (n <=? 30)) || (n =? 133).

(** [content.splitlines()]; [cur] holds the current line, reversed. *)
Fixpoint splitlines_aux (s cur : str) : list str :=
  match s with
  | [] =>
      match cur with
      | [] => []
      | _ :: _ => [rev cur]
      end
  | c :: s' =>
      if is_linebreak c then
        rev cur ::
        match s' with
        | d :: s'' =>
            if (nat_of_ascii c =? 13) && (nat_of_ascii d =? 10)
            then splitlines_aux s'' []
            else splitlines_aux s' []
        | [] => splitlines_aux s' []
        end
      else splitlines_aux s' (c :: cur)
  end.

Definition splitlines (content : str) : list str := splitlines_aux content [].

Fixpoint lstrip_space (s : str) : str :=
  match s with
  | c :: s' => if Re.is_space c then lstrip_space s' else s
  | [] => []
  end.

(** [line.strip()] *)
Definition strip (s : str) : str := rev (lstrip_space (rev (lstrip_space s))).

(** Lines 77-81. *)
Definition current_module (filepath : str) : option str :=
  if contains (py "src/modules/") filepath then
    let parts := split_str (py "src/modules/") filepath in
    if 1 <? length parts
    then Some (nth 0 (split "/" (nth 1 parts [])) [])
    else None
  else None.

(** Lines 83-91: is the line recorded under [module_violations]?  Both
    groups of the pattern take part in every match. *)
Definition module_violation (filepath line : str) : bool :=
  match Re.search deep_import_pattern line with
  | Some m =>
      match Re.group m 1, Re.group m 2 with
      | Some target_module, Some target_internal =>
          negb (opt_eqb (Some target_module) (current_module filepath))
          && contains (py "/") target_internal
      | _, _ => false
      end
  | None => false
  end.

(** One entry of [findings["architecture"]["module_violations"]]. *)
Record finding : Type := {
  f_file : str;
  f_line : nat;
  f_content : str
}.

(** Lines 69-96 for the [module_violations] bucket.  The other buckets are
    filled by separate tests of the same file or line, none of which can
    raise, and do not take part in this one. *)
Fixpoint audit_lines (filepath : str) (lines : list str) (i : nat) : list finding :=
  match lines with
  | [] => []
  | line :: rest =>
      let line_num := i + 1 in
      (if module_violation filepath line
       then [{| f_file := filepath; f_line := line_num; f_content := strip line |}]
       else [])
      ++ audit_lines filepath rest (S i)
  end.

(** Lines 52-122 for one file: what is appended to the bucket.  The line
    printed by the handler ends with the text of the exception, which the
    host supplies; that text is left out. *)
Definition audit_file (filepath : str) : World.M (list finding) :=
  World.try_except
    (content <~ World.read_text filepath ;;
     let lines := splitlines content in
     World.ret (audit_lines filepath lines 0))
    (fun e =>
       World.print (py "Error reading " ++ filepath) ;;;
       World.ret []).

Fixpoint audit_files (subdir : str) (files : list str) : World.M (list finding) :=
  match files with
  | [] => World.ret []
  | file :: rest =>
      found <~ (if RefactorImports.endswith_any RefactorImports.extensions file
                then audit_file (PosixPath.join subdir [file])
                else World.ret []) ;;
      more <~ audit_files subdir rest ;;
      World.ret (found ++ more)
  end.

Fixpoint audit_walk (entries : list (str * list str)) : World.M (list finding) :=
  match entries with
  | [] => World.ret []
  | (subdir, files) :: rest =>
      found <~ (if contains (py "node_modules") subdir || contains (py ".git") subdir
                then World.ret []
                else audit_files subdir files) ;;
      more <~ audit_walk rest ;;
      World.ret (found ++ more)
  end.

(** Lines 43-122: the [module_violations] bucket after the walk of every
    root directory. *)
Fixpoint audit_codebase (walk : str -> list (str * list str)) (root_dirs : list str)
  : World.M (list finding) :=
  match root_dirs with
  | [] => World.ret []
  | root_dir :: rest =>
      found <~ audit_walk (walk root_dir) ;;
      more <~ audit_codebase walk rest ;;
      World.ret (found ++ more)
  end.

End AuditScript.

(** ** The components, in the words of the specification *)

Module Spec.
Import PyStr.

(** The rest of [s] after the prefix [p], when [s] begins with [p]. *)
Definition strip_prefix (p s : str) : option str :=
  if startswith p s then Some (skipn (length p) s) else None.

(** The text up to the first separator. *)
Fixpoint first_segment (s : str) : str :=
  match s with
  | [] => []
  | c :: s' => if Ascii.eqb c "/" then [] else c :: first_segment s'
  end.

(** Module Membership Resolver: none unless [path] begins with
    [modulesRoot + "/"] and has at least one further segment; the module
    name is that next segment. *)
Definition moduleOf (modulesRoot path : str) : option str :=
  match strip_prefix (modulesRoot ++ py "/") path with
  | Some rest =>
      match first_segment rest with
      | [] => None
      | seg => Some seg
      end
  | None => None
  end.

(** Violation Classifier, alias-qualified specifier: the alias prefix is
    stripped and the remainder, rooted at the modules root, is the target
    path. *)
Definition alias_target_path (modulesAlias modulesRoot specifier : str) : option str :=
  match strip_prefix modulesAlias specifier with
  | Some remainder => Some (modulesRoot ++ remainder)
  | None => None
  end.

(** A name: a path segment that is not empty, holds no separator and is
    neither of the two relative segments. *)
Definition is_name (s : str) : bool :=
  truthy s && negb (has "/" s) && negb (eqb s (py ".")) && negb (eqb s (py "..")).

(** The text of an absolute path, from the segments below the file-system
    root. *)
Definition abs_of (segs : list str) : str := "/"%char :: join (py "/") segs.

(** Path Resolver: lexical normalisation, one segment at a time, over the
    stack of the segments read so far (its head is the last one); nothing
    lies above the file-system root. *)
Definition lex_step (stack : list str) (seg : str) : list str :=
  if eqb seg [] || eqb seg (py ".") then stack
  else if eqb seg (py "..") then tl stack
  else seg :: stack.

Definition lexical_normalize (segs : list str) : list str :=
  rev (fold_left lex_step segs []).

(** Path Resolver: a normalised absolute path expressed relative to the
    root, one [..] for every segment of the root that it leaves. *)
Fixpoint relative_to (root target : list str) : list str :=
  match root, target with
  | r :: root', t :: target' =>
      if eqb r t then relative_to root' target'
      else repeat (py "..") (length root) ++ target
  | _, _ => repeat (py "..") (length root) ++ target
  end.

(** The text of a relative path; the empty path is the current directory. *)
Definition render (segs : list str) : str :=
  match segs with
  | [] => py "."
  | _ :: _ => join (py "/") segs
  end.

(** Does the path [target] lie at or below [root]? *)
Fixpoint below (root target : list str) : bool :=
  match root, target with
  | [], _ => true
  | r :: root', t :: target' => eqb r t && below root' target'
  | _ :: _, [] => false
  end.

(** Path Resolver on canonical paths: the directory of [containingFile]
    joined with [specifier], normalised. *)
Definition resolve (containingFile specifier : str) : str :=
  render (lexical_normalize
            (removelast (split "/" containingFile) ++ split "/" specifier)).

(** Violation Classifier, target path: that of an alias-qualified
    specifier; a relative specifier is first resolved. *)
Definition target_path (modulesAlias modulesRoot containingFile specifier : str)
  : option str :=
  match alias_target_path modulesAlias modulesRoot specifier with
  | Some target => Some target
  | None =>
      if startswith (py ".") specifier
      then Some (resolve containingFile specifier)
      else None
  end.

(** Violation Classifier: the decision table over the module of the source
    file and the module of the target path. *)
Definition classify (modulesAlias modulesRoot sourceFile importSpecifier : str)
  : AnalyzeReport.Classification :=
  match moduleOf modulesRoot sourceFile,
        match target_path modulesAlias modulesRoot sourceFile importSpecifier with
        | Some target => moduleOf modulesRoot target
        | None => None
        end
  with
  | Some source, Some target =>
      if eqb source target then AnalyzeReport.SameModule
      else AnalyzeReport.CrossModule
  | _, _ => AnalyzeReport.Other
  end.

(** Alias Mapper: a rule matches when the path equals the rule's prefix or
    begins with the prefix followed by a separator. *)
Definition prefix_match (prefix path : str) : Prop :=
  path = prefix \/ exists rest, path = prefix ++ py "/" ++ rest.

(** Rewrite Decision Engine: the text [marker] occurs in [s]. *)
Definition occurs (marker s : str) : Prop :=
  exists before after, s = before ++ marker ++ after.

End Spec.

(** ** Derived notions and sample inputs *)

Section Notions.
Import PyStr.

(** What lines 26-30 and 36-40 compute, for either marker. *)
Definition third_part (marker s : str) : option str :=
  if startswith marker s then
    let parts := split "/" s in
    if 2 <? length parts then Some (nth 2 parts []) else None
  else None.

(** A path component that [posixpath.join] sets after a separator: not
    empty and without a separator of its own. *)
Definition clean (s : str) : Prop := truthy s = true /\ has "/" s = false.

(** A stack of components none of which is [..]. *)
Definition no_pardir (st : list str) : Prop :=
  Forall (fun x => eqb x PosixPath.pardir = false) st.

(** Segments that are all names. *)
Definition names (l : list str) : Prop := forallb Spec.is_name l = true.

(** The deep specifier of the specification. *)
Definition friend_specifier : str := py "../../../../src/db/models/Friend".

(** The occurrence [import s from './sibling'], as the scanner reports it. *)
Definition sibling_match : Re.match_obj :=
  {| Re.m_whole := py "import s from './sibling'";
     Re.m_groups := [(3, py "'"); (2, py "./sibling"); (1, py "import s from '")] |}.

(** The occurrence [import { Friend } from '../../../../src/db/models/Friend']. *)
Definition friend_match : Re.match_obj :=
  {| Re.m_whole := py "import { Friend } from '../../../../src/db/models/Friend'";
     Re.m_groups := [(3, py "'"); (2, friend_specifier);
                     (1, py "import { Friend } from '")] |}.

(** The occurrence in [require('./local/zzz')]: the match ends with the
    closing quote. *)
Definition local_match : Re.match_obj :=
  {| Re.m_whole := py "require('./local/zzz'";
     Re.m_groups := [(9, py "'"); (8, py "./local/zzz"); (7, py "require('")] |}.

(** The occurrence [import { Friend } from '@/db/models/Friend']. *)
Definition alias_match : Re.match_obj :=
  {| Re.m_whole := py "import { Friend } from '@/db/models/Friend'";
     Re.m_groups := [(3, py "'"); (2, py "@/db/models/Friend");
                     (1, py "import { Friend } from '")] |}.

(** A content on which a second pass finds an occurrence the first pass
    did not: the first pass rewrites the [require] and, with it, completes
    an [import ... from '] clause in front of the text that follows. *)
Definition unstable_content : str :=
  py "import y require('../../src/db/from /x/..'./../../src/db/z'".

(** A tree with two source files under [src]. *)
Definition two_files (src_dir : str) (root_dir : str) : list (str * list str) :=
  if eqb root_dir src_dir then [(src_dir, [py "a.ts"; py "b.ts"])] else [].

(** The content of [b.ts]: a deep relative import, then a deep import into
    another module. *)
Definition b_content : str :=
  py "import { Friend } from '../src/db/models/Friend'"
  ++ [Re.newline]
  ++ py "import { X } from '@/modules/interactions/services/foo'".

(** The content of [b.ts] after the rewrite pass. *)
Definition b_rewritten : str :=
  py "import { Friend } from '@/db/models/Friend'"
  ++ [Re.newline]
  ++ py "import { X } from '@/modules/interactions/services/foo'".

(** The tree on disk: [a.ts] cannot be read, [b.ts] can. *)
Definition broken_tree (src_dir : str) : World.world :=
  {| World.files :=
       [ (PosixPath.join src_dir [py "a.ts"], World.Unreadable OSError);
         (PosixPath.join src_dir [py "b.ts"], World.Text b_content) ];
     World.stdout := [] |}.

(** The same tree with an empty, readable [a.ts]. *)
Definition sound_tree (src_dir : str) : World.world :=
  {| World.files :=
       [ (PosixPath.join src_dir [py "a.ts"], World.Text []);
         (PosixPath.join src_dir [py "b.ts"], World.Text b_content) ];
     World.stdout := [] |}.

End Notions.

(** ** Further notions for the rewrite script *)

Section RewriteNotions.
Import PyStr.

(** A pattern without capturing groups. *)
Fixpoint groupless (r : Re.regex) : bool :=
  match r with
  | Re.Grp _ _ => false
  | Re.Cat r1 r2 | Re.Alt r1 r2 => groupless r1 && groupless r2
  | _ => true
  end.

(** The alias table read from alias to path prefix. *)
Definition ALIASES_back : list (str * str) :=
  map (fun rule => (snd rule, fst rule)) RefactorImports.ALIASES.

(** Does the path name a file that can be read as text and written? *)
Definition rewritable (w : World.world) (path : str) : bool :=
  match World.find_file (World.locate (World.files w) path) (World.files w) with
  | Some (World.Text _) => true
  | _ => false
  end.

(** Every source file that [main] meets on its walk can be read and
    written. *)
Definition all_rewritable (ROOT_DIR : str) (walk : str -> list (str * list str))
           (w : World.world) : bool :=
  forallb
    (fun root_dir =>
       forallb
         (fun entry =>
            forallb
              (fun file =>
                 negb (RefactorImports.endswith_any RefactorImports.extensions file)
                 || rewritable w (PosixPath.join (fst entry) [file]))
              (snd entry))
         (walk root_dir))
    [PosixPath.join ROOT_DIR [py "src"]; PosixPath.join ROOT_DIR [py "app"]].

(** No link of the tree leads to [path]. *)
Definition no_link_to (fs : list (str * World.file)) (path : str) : bool :=
  forallb
    (fun entry =>
       match snd entry with
       | World.Link target => negb (eqb target path)
       | _ => true
       end)
    fs.

(** A tree with a source file that is a link to a file of notes, and a
    source file that can be read but not written. *)
Definition linked_tree : World.world :=
  {| World.files :=
       [ (py "/repo/src/x.ts", World.Link (py "/repo/notes.md"));
         (py "/repo/notes.md", World.Text b_content);
         (py "/repo/src/ro.ts", World.Locked (Ok b_content) OSError) ];
     World.stdout := [] |}.

End RewriteNotions.

Section WorldNotions.
Import PyStr.

(** What a run of the rewrite script keeps of the world it started in: the
    paths on disk, what every link leads to, every file that no source
    path names, the files that could be rewritten, and the lines printed
    so far. *)
Definition keeps (w w' : World.world) : Prop :=
  map fst (World.files w') = map fst (World.files w)
  /\ (forall p, World.locate (World.files w') p = World.locate (World.files w) p)
  /\ (forall p,
        (forall q, RefactorImports.endswith_any RefactorImports.extensions q = true ->
                   eqb (World.locate (World.files w) q) p = false) ->
        World.find_file p (World.files w') = World.find_file p (World.files w))
  /\ (forall p, rewritable w p = true -> rewritable w' p = true)
  /\ (exists printed, World.stdout w' = World.stdout w ++ printed).

End WorldNotions.

(** ** [analyze_report.py]: reading the report and printing the buckets *)

Module AnalyzeReportMain.
Import PyStr AnalyzeReport.

(** [s.replace(old, new)] for a non-empty [old]: the occurrences are found
    left to right and do not overlap; [skip] counts the characters of an
    occurrence still to be passed. *)
Fixpoint replace_all_aux (old new s : str) (skip : nat) : str :=
  match s with
  | [] => []
  | c :: s' =>
      match skip with
      | S n => replace_all_aux old new s' n
      | O =>
          if startswith old s
          then new ++ replace_all_aux old new s' (length old - 1)
          else c :: replace_all_aux old new s' 0
      end
  end.

(** [s.replace(old, new)]; an empty [old] matches before every character
    and at the end. *)
Definition replace_all (old new s : str) : str :=
  match old with
  | [] => new ++ flat_map (fun c => c :: new) s
  | _ :: _ => replace_all_aux old new s 0
  end.

(** One entry of [messages].  [ruleId] is read with [.get] and may be
    absent or null; [line] and [message] are read with a subscript. *)
Record message : Type := {
  ruleId : option str;
  line : nat;
  message_text : str
}.

(** One entry of the report.  [messages] is read with [.get] and a default;
    [filePath] is read with a subscript. *)
Record file_result : Type := {
  filePath : str;
  messages : option (list message)
}.

(** Lines 10-16 for one file of the report; [cwd] is [os.getcwd()]. *)
Definition violations_of (cwd : str) (file_result : file_result) : list violation :=
  flat_map
    (fun message =>
       if opt_eqb (ruleId message) (Some (py "no-restricted-imports"))
       then [ {| v_file := replace_all (cwd ++ py "/") [] (filePath file_result);
                 v_line := line message;
                 v_message := message_text message |} ]
       else [])
    (match messages file_result with
     | Some l => l
     | None => []
     end).

(** Lines 8-16. *)
Definition collect_violations (cwd : str) (data : list file_result) : list violation :=
  flat_map (violations_of cwd) data.

(** How an integer prints inside an f-string. *)
Definition str_of_int (n : nat) : str :=
  list_ascii_of_string (DecimalString.NilEmpty.string_of_uint (Nat.to_uint n)).

(** Lines 54, 58 and 62: one printed entry of a bucket. *)
Definition listing (v : info) : str :=
  i_file v ++ py ":" ++ str_of_int (i_line v) ++ py " -> " ++ i_import v.

(** The header printed before a bucket; its text begins with a newline. *)
Definition header (title : str) (bucket : list info) : str :=
  Re.newline :: py "--- " ++ title ++ py " (" ++ str_of_int (length bucket) ++ py ") ---".

(** Lines 4-65.  The report is [None] when [eslint_report.json] is not
    there; otherwise it is the parsed list.  The answer is what the script
    ends with and the arguments of its [print] calls, in order. *)
Definition run (cwd : str) (report : option (list file_result))
  : result unit * list str :=
  match report with
  | None => (Ok tt, [py "eslint_report.json not found"])
  | Some data =>
      let violations := collect_violations cwd data in
      let total :=
        py "Total 'no-restricted-imports' violations: "
        ++ str_of_int (length violations) in
      match classify_all violations empty_buckets with
      | Raise e => (Raise e, [total])
      | Ok b =>
          (Ok tt,
           [total]
           ++ header (py "Cross-Module Violations") (cross_module b)
              :: map listing (cross_module b)
           ++ header (py "Same-Module Violations") (same_module b)
              :: map listing (same_module b)
           ++ header (py "Other (e.g. root->module) Violations") (other_to_module b)
              :: map listing (other_to_module b))
      end
  end.

End AnalyzeReportMain.

Section ReportNotions.
Import PyStr AnalyzeReport.

(** Does the message hold a single quote? *)
Definition quoted (v : violation) : bool := has "'" (v_message v).

(** The [info] entry of a violation whose message holds a quote. *)
Definition info_of (v : violation) : info :=
  {| i_file := v_file v;
     i_import := nth 1 (split "'" (v_message v)) [];
     i_line := v_line v |}.

Definition same_class (a b : Classification) : bool :=
  match a, b with
  | SameModule, SameModule | CrossModule, CrossModule | Other, Other => true
  | _, _ => false
  end.

(** The entries of the violations that the classifier puts in class [c],
    in the order of the report. *)
Definition select (c : Classification) (violations : list violation) : list info :=
  map info_of
      (filter (fun v => same_class (classify (v_file v) (i_import (info_of v))) c)
              violations).

End ReportNotions.

(** ** [audit_script.py]: every bucket of the findings *)

Module AuditFull.
Import PyStr.

Definition in_range (lo hi n : nat) : bool := (lo <=? n) && (n <=? hi).

(** [\w] on [str] patterns: letters, digits and the underscore. *)
Definition is_word (c : ascii) : bool :=
  let n := nat_of_ascii c in
  in_range 48 57 n || in_range 65 90 n || (n =? 95) || in_range 97 122 n
  || (n =? 170) || in_range 178 179 n || (n =? 181) || in_range 185 186 n
  || in_range 188 190 n || in_range 192 214 n || in_range 216 246 n
  || in_range 248 255 n.

(** The class of the hexadecimal digits, in either case. *)
Definition is_hex (c : ascii) : bool :=
  let n := nat_of_ascii c in
  in_range 48 57 n || in_range 97 102 n || in_range 65 70 n.

(** Line 33. *)
Definition zustand_pattern : Re.regex :=
  Re.seq [ Re.Lit (py "import"); Re.Rep true 0 Re.not_newline; Re.Lit (py "from ");
           Re.Cls Re.is_quote; Re.Lit (py "zustand"); Re.Cls Re.is_quote ].

(** Line 34. *)
Definition stylesheet_pattern : Re.regex := Re.Lit (py "StyleSheet.create").

(** Line 35: a quote, a hash sign, six hexadecimal digits, a quote. *)
Definition hex_color_pattern : Re.regex :=
  Re.seq [ Re.Cls Re.is_quote; Re.Lit (py "#");
           Re.Cls is_hex; Re.Cls is_hex; Re.Cls is_hex;
           Re.Cls is_hex; Re.Cls is_hex; Re.Cls is_hex;
           Re.Cls Re.is_quote ].

(** Line 36 without its closing [\b]. *)
Definition any_pattern : Re.regex :=
  Re.seq [ Re.Lit (py ":"); Re.Rep true 0 Re.is_space; Re.Lit (py "any") ].

(** [\b] behind a word character: what follows does not begin with a word
    character. *)
Definition at_word_end (rest : str) : bool :=
  match rest with
  | [] => true
  | c :: _ => negb (is_word c)
  end.

(** Line 37. *)
Definition console_log_pattern : Re.regex := Re.Lit (py "console.log(").

(** Line 39. *)
Definition flashlist_pattern : Re.regex := Re.Lit (py "<FlashList").

(** Line 40. *)
Definition estimated_size_pattern : Re.regex := Re.Lit (py "estimatedItemSize={").

(** [pattern.search(s)] as a truth value, for a pattern that ends with a
    test [ok] of the text behind the match. *)
Fixpoint found_then (r : Re.regex) (ok : str -> bool) (s : str) : bool :=
  match Re.exec r s [] (fun s' _ => if ok s' then Some tt else None) with
  | Some _ => true
  | None =>
      match s with
      | [] => false
      | _ :: s' => found_then r ok s'
      end
  end.

(** [pattern.search(s)] as a truth value. *)
Definition found (r : Re.regex) (s : str) : bool := found_then r (fun _ => true) s.

(** Lines 6-28.  The buckets that hold files hold their paths; the others
    hold entries with file, line and content. *)
Record findings : Type := {
  module_violations : list AuditScript.finding;
  zustand_usage : list str;
  deep_imports : list AuditScript.finding;
  stylesheet_create : list str;
  hardcoded_colors : list AuditScript.finding;
  any_usage : list AuditScript.finding;
  console_log : list AuditScript.finding;
  todo_comments : list AuditScript.finding;
  flashlist_missing_size : list str;
  potential_n_plus_one : list AuditScript.finding;
  database_write : list AuditScript.finding
}.

Definition empty_findings : findings :=
  {| module_violations := []; zustand_usage := []; deep_imports := [];
     stylesheet_create := []; hardcoded_colors := []; any_usage := [];
     console_log := []; todo_comments := []; flashlist_missing_size := [];
     potential_n_plus_one := []; database_write := [] |}.

(** The four [append] calls of the line loop and the three of the file
    checks, each on its bucket. *)
Definition append_lines (mv hc au cl : list AuditScript.finding) (f : findings)
  : findings :=
  {| module_violations := module_violations f ++ mv;
     zustand_usage := zustand_usage f;
     deep_imports := deep_imports f;
     stylesheet_create := stylesheet_create f;
     hardcoded_colors := hardcoded_colors f ++ hc;
     any_usage := any_usage f ++ au;
     console_log := console_log f ++ cl;
     todo_comments := todo_comments f;
     flashlist_missing_size := flashlist_missing_size f;
     potential_n_plus_one := potential_n_plus_one f;
     database_write := database_write f |}.

Definition append_files (zu sc fl : list str) (f : findings) : findings :=
  {| module_violations := module_violations f;
     zustand_usage := zustand_usage f ++ zu;
     deep_imports := deep_imports f;
     stylesheet_create := stylesheet_create f ++ sc;
     hardcoded_colors := hardcoded_colors f;
     any_usage := any_usage f;
     console_log := console_log f;
     todo_comments := todo_comments f;
     flashlist_missing_size := flashlist_missing_size f ++ fl;
     potential_n_plus_one := potential_n_plus_one f;
     database_write := database_write f |}.

(** What is appended when the test holds. *)
Definition when {A : Type} (test : bool) (x : A) : list A := if test then [x] else [].

(** Lines 70-119 for one line. *)
Definition check_line (filepath : str) (line_num : nat) (line : str) (f : findings)
  : findings :=
  let entry := {| AuditScript.f_file := filepath;
                  AuditScript.f_line := line_num;
                  AuditScript.f_content := AuditScript.strip line |} in
  append_lines
    (when (AuditScript.module_violation filepath line) entry)
    (when (found hex_color_pattern line) entry)
    (when (found_then any_pattern at_word_end line) entry)
    (when (found console_log_pattern line) entry)
    f.

(** Lines 69-119. *)
Fixpoint check_lines (filepath : str) (lines : list str) (i : nat) (f : findings)
  : findings :=
  match lines with
  | [] => f
  | line :: rest => check_lines filepath rest (S i) (check_line filepath (i + 1) line f)
  end.

(** Lines 56-119 for the content of one file. *)
Definition check_file (filepath content : str) (f : findings) : findings :=
  let lines := AuditScript.splitlines content in
  let f :=
    append_files
      (when (found zustand_pattern content) filepath)
      (when (found stylesheet_pattern content) filepath)
      (when (found flashlist_pattern content
             && negb (found estimated_size_pattern content)) filepath)
      f in
  check_lines filepath lines 0 f.

(** Lines 52-122 for one file.  The text of the exception is left out of
    the printed line. *)
Definition audit_file (filepath : str) (f : findings) : World.M findings :=
  World.try_except
    (content <~ World.read_text filepath ;;
     World.ret (check_file filepath content f))
    (fun e =>
       World.print (py "Error reading " ++ filepath) ;;;
       World.ret f).

(** Lines 48-122. *)
Fixpoint audit_files (subdir : str) (files : list str) (f : findings)
  : World.M findings :=
  match files with
  | [] => World.ret f
  | file :: rest =>
      f' <~ (if RefactorImports.endswith_any RefactorImports.extensions file
             then audit_file (PosixPath.join subdir [file]) f
             else World.ret f) ;;
      audit_files subdir rest f'
  end.

(** Lines 44-122. *)
Fixpoint audit_walk (entries : list (str * list str)) (f : findings)
  : World.M findings :=
  match entries with
  | [] => World.ret f
  | (subdir, files) :: rest =>
      f' <~ (if contains (py "node_modules") subdir || contains (py ".git") subdir
             then World.ret f
             else audit_files subdir files f) ;;
      audit_walk rest f'
  end.

(** Lines 43-122. *)
Fixpoint audit_roots (walk : str -> list (str * list str)) (root_dirs : list str)
         (f : findings) : World.M findings :=
  match root_dirs with
  | [] => World.ret f
  | root_dir :: rest =>
      f' <~ audit_walk (walk root_dir) f ;;
      audit_roots walk rest f'
  end.

(** Lines 5-122: the findings that line 124 prints. *)
Definition audit_codebase (walk : str -> list (str * list str)) (root_dirs : list str)
  : World.M findings :=
  audit_roots walk root_dirs empty_findings.

End AuditFull.

Section AuditNotions.
Import PyStr.

(** The entries of the lines that pass [test], numbered from [i + 1]. *)
Fixpoint hits (test : str -> bool) (filepath : str) (lines : list str) (i : nat)
  : list AuditScript.finding :=
  match lines with
  | [] => []
  | line :: rest =>
      AuditFull.when (test line)
        {| AuditScript.f_file := filepath;
           AuditScript.f_line := i + 1;
           AuditScript.f_content := AuditScript.strip line |}
      ++ hits test filepath rest (S i)
  end.

(** The entry [e] stands for a line of the content that passes [test]: its
    number counts the lines from one and its content is the line without
    the white space around it. *)
Definition recorded (test : str -> bool) (filepath content : str)
           (e : AuditScript.finding) : Prop :=
  exists i line,
    nth_error (AuditScript.splitlines content) i = Some line
    /\ test line = true
    /\ forallb (fun c => negb (AuditScript.is_linebreak c)) line = true
    /\ e = {| AuditScript.f_file := filepath;
              AuditScript.f_line := S i;
              AuditScript.f_content := AuditScript.strip line |}.

(** The source files the audit walk opens, in its order. *)
Definition visited (walk : str -> list (str * list str)) (root_dirs : list str)
  : list str :=
  flat_map
    (fun root_dir =>
       flat_map
         (fun entry =>
            if contains (py "node_modules") (fst entry) || contains (py ".git") (fst entry)
            then []
            else
              map (fun file => PosixPath.join (fst entry) [file])
                  (filter (RefactorImports.endswith_any RefactorImports.extensions)
                          (snd entry)))
         (walk root_dir))
    root_dirs.

(** The checks on the file at [p], when it can be read. *)
Definition check_path (fs : list (str * World.file)) (f : AuditFull.findings) (p : str)
  : AuditFull.findings :=
  match World.read_file fs p with
  | Ok content => AuditFull.check_file p content f
  | Raise _ => f
  end.

(** One line for each of the paths that cannot be read. *)
Definition error_lines (fs : list (str * World.file)) (paths : list str) : list str :=
  flat_map
    (fun p =>
       match World.read_file fs p with
       | Ok _ => []
       | Raise _ => [py "Error reading " ++ p]
       end)
    paths.

(** What the readable files among [paths] add to a bucket, when [part]
    is what the content of one file adds. *)
Definition gathered {A : Type} (fs : list (str * World.file))
           (part : str -> str -> list A) (paths : list str) : list A :=
  flat_map
    (fun p =>
       match World.read_file fs p with
       | Ok content => part p content
       | Raise _ => []
       end)
    paths.

(** The four buckets no line of the script appends to. *)
Definition idle_buckets (f : AuditFull.findings) : Prop :=
  AuditFull.deep_imports f = [] /\ AuditFull.todo_comments f = []
  /\ AuditFull.potential_n_plus_one f = [] /\ AuditFull.database_write f = [].

End AuditNotions.

(** ** Notions for the scanner *)

Section ScannerNotions.
Import PyStr.

(** A text with no quote and no newline in it. *)
Definition plain (s : str) : bool :=
  forallb (fun c => Re.not_newline c && negb (Re.is_quote c)) s.

(** A text with no quote and no white space in it. *)
Definition tidy (s : str) : bool :=
  forallb (fun c => negb (Re.is_space c) && negb (Re.is_quote c)) s.

(** The longest run of [p] at the head of [s], and what follows it. *)
Fixpoint span (p : ascii -> bool) (s : str) : str * str :=
  match s with
  | c :: s' => if p c then (c :: fst (span p s'), snd (span p s')) else ([], s)
  | [] => ([], [])
  end.

(** The specifier at the head of [v]: the text up to the first quote, the
    quote and the rest, when no newline comes before that quote. *)
Fixpoint find_tail (v : str) : option (str * ascii * str) :=
  match v with
  | [] => None
  | c :: v' =>
      if Re.is_quote c then Some ([], c, v')
      else if Re.not_newline c then
        match find_tail v' with
        | Some (path, q, rest) => Some (c :: path, q, rest)
        | None => None
        end
      else None
  end.

(** The end of a clause at the head of [u]: [from], white space, a quote;
    and what follows it. *)
Definition from_here (u : str) : option (str * str) :=
  if startswith (py "from") u then
    let (W, t) := span Re.is_space (skipn 4 u) in
    match W, t with
    | _ :: _, q1 :: v =>
        if Re.is_quote q1 then Some (py "from" ++ W ++ [q1], v) else None
    | _, _ => None
    end
  else None.

(** The end of a clause followed by a specifier and its closing quote. *)
Definition cand (u : str) : option (str * str * ascii * str) :=
  match from_here u with
  | Some (clause_end, v) =>
      match find_tail v with
      | Some (path, q, rest) => Some (clause_end, path, q, rest)
      | None => None
      end
  | None => None
  end.

(** The first place on the line of [t] where a clause ends before a
    specifier. *)
Fixpoint body_scan (t : str) : option (str * str * ascii * str) :=
  match cand t with
  | Some x => Some x
  | None =>
      match t with
      | c :: t' =>
          if Re.not_newline c then
            match body_scan t' with
            | Some (b, path, q, rest) => Some (c :: b, path, q, rest)
            | None => None
            end
          else None
      | [] => None
      end
  end.

(** An occurrence of [kw ... from '...'] at the head of [s]: its clause,
    its specifier, its closing quote and the rest. *)
Definition from_alt (kw s : str) : option (str * str * ascii * str) :=
  if startswith kw s then
    let (ws, s1) := span Re.is_space (skipn (length kw) s) in
    match ws with
    | _ :: _ =>
        match body_scan s1 with
        | Some (b, path, q, rest) => Some (kw ++ ws ++ b, path, q, rest)
        | None => None
        end
    | [] => None
    end
  else None.

(** An occurrence of [require('...'] at the head of [s]. *)
Definition require_alt (s : str) : option (str * str * ascii * str) :=
  if startswith (py "require(") s then
    match skipn 8 s with
    | q1 :: v =>
        if Re.is_quote q1 then
          match find_tail v with
          | Some (path, q, rest) => Some (py "require(" ++ [q1], path, q, rest)
          | None => None
          end
        else None
    | [] => None
    end
  else None.

(** The occurrence at the head of [s], with the number of its first
    group. *)
Definition parts_at (s : str) : option (nat * (str * str * ascii * str)) :=
  match from_alt (py "import") s with
  | Some x => Some (1, x)
  | None =>
      match from_alt (py "export") s with
      | Some x => Some (4, x)
      | None =>
          match require_alt s with
          | Some x => Some (7, x)
          | None => None
          end
      end
  end.

(** The match object of an occurrence. *)
Definition occurrence (n : nat) (prefix path : str) (q : ascii) : Re.match_obj :=
  {| Re.m_whole := prefix ++ path ++ [q];
     Re.m_groups := [(S (S n), [q]); (S n, path); (n, prefix)] |}.

(** [o] is [s] with some specifiers spelled anew: a text between two
    quotes, free of quotes and newlines, gives way to a text free of quotes
    and white space. *)
Inductive respelled : str -> str -> Prop :=
| respelled_nil : respelled [] []
| respelled_same (c : ascii) (s o : str) :
    respelled s o -> respelled (c :: s) (c :: o)
| respelled_spec (q1 q : ascii) (path new s o : str) :
    Re.is_quote q1 = true -> Re.is_quote q = true ->
    plain path = true -> tidy new = true ->
    respelled s o ->
    respelled (q1 :: path ++ q :: s) (q1 :: new ++ q :: o).

(** No relative specifier that the scanner finds in [content] holds white
    space. *)
Definition specifiers_tidy (content : str) : bool :=
  forallb
    (fun m =>
       match RefactorImports.matched_groups m with
       | Some (_, Some path, _) =>
           negb (startswith (py ".") path)
           || forallb (fun c => negb (Re.is_space c)) path
       | _ => true
       end)
    (Re.scan RefactorImports.IMPORT_REGEX content).

End ScannerNotions.

(** ** Facts about strings *)

Section StringFacts.
Import PyStr.

Lemma eqb_refl (a : str) : eqb a a = true.
Proof.
  induction a as [|x a IH]; simpl; [reflexivity|].
  now rewrite Ascii.eqb_refl.
Qed.

Lemma eqb_eq (a b : str) : eqb a b = true <-> a = b.
Proof.
  split; [|intros ->; apply eqb_refl].
  revert b; induction a as [|x a IH]; intros [|y b]; simpl; try discriminate; auto.
  intros H; apply andb_true_iff in H as [Hxy Hab].
  apply Ascii.eqb_eq in Hxy; subst; f_equal; auto.
Qed.

Lemma eqb_neq (a b : str) : eqb a b = false <-> a <> b.
Proof.
  split.
  - intros H E; apply eqb_eq in E; congruence.
  - intros H; destruct (eqb a b) eqn:E; [apply eqb_eq in E; contradiction|reflexivity].
Qed.

Lemma startswith_app (p r : str) : startswith p (p ++ r) = true.
Proof.
  induction p as [|x p IH]; simpl; [reflexivity|].
  now rewrite Ascii.eqb_refl.
Qed.

Lemma startswith_split (p s : str) :
  startswith p s = true -> s = p ++ skipn (length p) s.
Proof.
  revert s; induction p as [|x p IH]; intros [|y s]; simpl; try discriminate; auto.
  intros H; apply andb_true_iff in H as [Hxy Hps].
  apply Ascii.eqb_eq in Hxy; subst; f_equal; auto.
Qed.

Lemma startswith_iff (p s : str) :
  startswith p s = true <-> exists r, s = p ++ r.
Proof.
  split.
  - intros H; eexists; apply startswith_split, H.
  - intros [r ->]; apply startswith_app.
Qed.

Lemma startswith_app_l (p q s : str) :
  startswith (p ++ q) s = true -> startswith p s = true.
Proof.
  intros H; apply startswith_iff in H as [r ->].
  rewrite <- app_assoc; apply startswith_app.
Qed.

Lemma skipn_app_exact (p r : str) : skipn (length p) (p ++ r) = r.
Proof. induction p; simpl; auto. Qed.

Lemma contains_iff (sub s : str) :
  contains sub s = true <-> exists u v, s = u ++ sub ++ v.
Proof.
  split.
  - induction s as [|c s IH]; simpl; intros H; apply orb_true_iff in H as [H|H].
    + apply startswith_iff in H as [r ->]; now exists [], r.
    + discriminate.
    + apply startswith_iff in H as [r ->]; now exists [], r.
    + destruct (IH H) as (u & v & ->); now exists (c :: u), v.
  - intros (u & v & ->); induction u as [|c u IH]; simpl.
    + destruct (sub ++ v) eqn:E; simpl; rewrite <- ?E, startswith_app; reflexivity.
    + rewrite IH; apply orb_true_r.
Qed.

Lemma has_iff (c : ascii) (s : str) : has c s = true <-> In c s.
Proof.
  unfold has; rewrite existsb_exists; split.
  - intros (x & Hin & E); apply Ascii.eqb_eq in E; now subst.
  - intros H; exists c; split; [assumption|apply Ascii.eqb_refl].
Qed.

Lemma has_false_iff (c : ascii) (s : str) : has c s = false <-> ~ In c s.
Proof.
  rewrite <- has_iff; destruct (has c s); split; congruence.
Qed.

Lemma split_not_nil (c : ascii) (s : str) : split c s <> [].
Proof.
  induction s as [|x s IH]; simpl; [discriminate|].
  destruct (Ascii.eqb x c); [discriminate|].
  destruct (split c s); [contradiction|discriminate].
Qed.

Lemma split_hd (s : str) :
  exists t, split "/" s = Spec.first_segment s :: t.
Proof.
  induction s as [|x s [t IH]]; simpl; [now exists []|].
  destruct (Ascii.eqb x "/"); [now eexists|].
  rewrite IH; simpl; now eexists.
Qed.

Lemma cons_head_app (c : ascii) (l1 l2 : list str) :
  l1 <> [] -> cons_head c (l1 ++ l2) = cons_head c l1 ++ l2.
Proof. destruct l1; [contradiction|reflexivity]. Qed.

Lemma split_app (c : ascii) (a b : str) :
  split c (a ++ c :: b) = split c a ++ split c b.
Proof.
  induction a as [|x a IH]; simpl.
  - now rewrite Ascii.eqb_refl.
  - destruct (Ascii.eqb x c); rewrite IH; [reflexivity|].
    apply cons_head_app, split_not_nil.
Qed.

Lemma split_clean (c : ascii) (s : str) : has c s = false -> split c s = [s].
Proof.
  induction s as [|x s IH]; simpl; [reflexivity|].
  rewrite Ascii.eqb_sym.
  destruct (Ascii.eqb x c); simpl; [discriminate|].
  intros H; now rewrite (IH H).
Qed.

Lemma split_length (c : ascii) (s : str) :
  (1 <? length (split c s)) = has c s.
Proof.
  induction s as [|x s IH]; simpl; [reflexivity|].
  rewrite (Ascii.eqb_sym c x).
  destruct (Ascii.eqb x c); simpl.
  - pose proof (split_not_nil c s); destruct (split c s); [contradiction|reflexivity].
  - rewrite <- IH.
    pose proof (split_not_nil c s); destruct (split c s); [contradiction|reflexivity].
Qed.

End StringFacts.

(** ** The violation classifier *)

Section ClassifierFacts.
Import PyStr AnalyzeReport.

Lemma third_part_src (file : str) :
  source_module file = third_part (py "src/modules/") file.
Proof. reflexivity. Qed.

Lemma third_part_alias (spec : str) :
  target_module spec = third_part (py "@/modules/") spec.
Proof. reflexivity. Qed.

(** A part counts in the test of line 44 exactly when the module of the
    specification is defined, and then it is that module. *)
Lemma third_part_moduleOf (root : str) (s : str) :
  has "/" root = false ->
  forall pre, has "/" pre = false ->
  let marker := pre ++ "/"%char :: root ++ py "/" in
  (if truthy_opt (third_part marker s) then third_part marker s else None)
  = Spec.moduleOf (pre ++ "/"%char :: root) s.
Proof.
  intros Hroot pre Hpre marker.
  unfold third_part, Spec.moduleOf, Spec.strip_prefix.
  replace ((pre ++ "/"%char :: root) ++ py "/") with marker
    by (unfold marker; now rewrite <- app_assoc).
  destruct (startswith marker s) eqn:Hs; [|reflexivity].
  apply startswith_split in Hs.
  remember (skipn (length marker) s) as rest eqn:Hrest; clear Hrest; subst s.
  unfold marker; change (py "/") with ["/"%char].
  rewrite <- app_assoc; simpl; rewrite <- app_assoc; simpl.
  rewrite !split_app, (@split_clean _ _ Hpre), (@split_clean _ _ Hroot); simpl.
  destruct (split_hd rest) as [t ->]; simpl.
  now destruct (Spec.first_segment rest).
Qed.

Lemma source_module_moduleOf (file : str) :
  (if truthy_opt (source_module file) then source_module file else None)
  = Spec.moduleOf (py "src/modules") file.
Proof.
  rewrite third_part_src.
  exact (@third_part_moduleOf (py "modules") file eq_refl (py "src") eq_refl).
Qed.

Lemma target_module_moduleOf (spec : str) :
  (if truthy_opt (target_module spec) then target_module spec else None)
  = Spec.moduleOf (py "@/modules") spec.
Proof.
  rewrite third_part_alias.
  exact (@third_part_moduleOf (py "modules") spec eq_refl (py "@") eq_refl).
Qed.

Lemma startswith_same (a b c : str) : startswith (a ++ b) (a ++ c) = startswith b c.
Proof.
  induction a as [|x a IH]; [reflexivity|].
  cbn -[Ascii.eqb]; now rewrite Ascii.eqb_refl.
Qed.

Lemma moduleOf_rooted (root rest : str) :
  Spec.moduleOf root (root ++ rest)
  = match Spec.strip_prefix (py "/") rest with
    | Some tail =>
        match Spec.first_segment tail with
        | [] => None
        | seg => Some seg
        end
    | None => None
    end.
Proof.
  unfold Spec.moduleOf, Spec.strip_prefix.
  rewrite startswith_same, length_app, Nat.add_comm, <- skipn_skipn, skipn_app_exact.
  reflexivity.
Qed.

(** The module of the target path of an alias-qualified specifier is the
    segment that follows [@/modules/]. *)
Lemma alias_target_module (spec : str) :
  match Spec.alias_target_path (py "@/modules") (py "src/modules") spec with
  | Some target => Spec.moduleOf (py "src/modules") target
  | None => None
  end
  = Spec.moduleOf (py "@/modules") spec.
Proof.
  unfold Spec.alias_target_path, Spec.strip_prefix.
  destruct (startswith (py "@/modules") spec) eqn:E.
  - apply startswith_split in E; rewrite E at 2.
    now rewrite !moduleOf_rooted.
  - unfold Spec.moduleOf, Spec.strip_prefix.
    destruct (startswith (py "@/modules" ++ py "/") spec) eqn:F; [|reflexivity].
    apply startswith_app_l in F; congruence.
Qed.

(** A relative specifier is not alias-qualified. *)
Lemma alias_target_relative (spec : str) :
  startswith (py ".") spec = true ->
  Spec.alias_target_path (py "@/modules") (py "src/modules") spec = None.
Proof.
  intros H; unfold Spec.alias_target_path, Spec.strip_prefix.
  destruct spec as [|c spec]; [discriminate|].
  cbn -[Ascii.eqb] in H; apply andb_true_iff in H as [H _].
  apply Ascii.eqb_eq in H; subst c; reflexivity.
Qed.

(** C1, as the code has it.  The classifier follows the decision table,
    with the target module read from an alias-qualified specifier alone.
    The source module is the module of the file under [src/modules]; the
    target module is the module of the target path that an alias-qualified
    specifier gives, with the modules root in place of [@/modules], and is
    undefined for every other specifier.  The result is [SameModule] when
    both are defined and equal, [CrossModule] when both are defined and
    differ, and [Other] as soon as one of them is undefined.  On a
    specifier that is not relative this is the table of the specification;
    a relative specifier always goes to [Other]. *)
Theorem classify_decision_table (file spec : str) :
  let source_module := Spec.moduleOf (py "src/modules") file in
  let target_module :=
    match Spec.alias_target_path (py "@/modules") (py "src/modules") spec with
    | Some target => Spec.moduleOf (py "src/modules") target
    | None => None
    end in
  classify file spec =
  match source_module, target_module with
  | Some source, Some target =>
      if eqb source target then SameModule else CrossModule
  | _, _ => Other
  end
  /\ (startswith (py ".") spec = false ->
      classify file spec = Spec.classify (py "@/modules") (py "src/modules") file spec)
  /\ (startswith (py ".") spec = true -> classify file spec = Other).
Proof.
  cbv zeta.
  assert (H : classify file spec =
              match Spec.moduleOf (py "src/modules") file,
                    match Spec.alias_target_path (py "@/modules") (py "src/modules") spec
                    with
                    | Some target => Spec.moduleOf (py "src/modules") target
                    | None => None
                    end
              with
              | Some source, Some target =>
                  if eqb source target then SameModule else CrossModule
              | _, _ => Other
              end).
  { rewrite alias_target_module.
    rewrite <- source_module_moduleOf, <- target_module_moduleOf.
    unfold classify.
    destruct (source_module file) as [[|a s]|]; simpl; try reflexivity.
    destruct (target_module spec) as [[|b t]|]; simpl; reflexivity. }
  split; [exact H|split].
  - intros Hrel; rewrite H; unfold Spec.classify, Spec.target_path.
    rewrite Hrel.
    now destruct (Spec.alias_target_path (py "@/modules") (py "src/modules") spec).
  - intros Hrel; rewrite H, (alias_target_relative _ Hrel).
    now destruct (Spec.moduleOf (py "src/modules") file).
Qed.

Lemma classify_decision_table_witness :
  classify (py "src/modules/billing/Bar.ts") (py "@/modules/interactions/services/foo")
  = Spec.classify (py "@/modules") (py "src/modules")
      (py "src/modules/billing/Bar.ts") (py "@/modules/interactions/services/foo")
  /\ classify (py "src/modules/billing/ui/Invoice.tsx") (py "../services/foo") = Other.
Proof.
  split.
  - apply (proj1 (proj2 (classify_decision_table (py "src/modules/billing/Bar.ts")
                           (py "@/modules/interactions/services/foo")))).
    reflexivity.
  - apply (proj2 (proj2 (classify_decision_table
                           (py "src/modules/billing/ui/Invoice.tsx")
                           (py "../services/foo")))).
    reflexivity.
Defined.

(** C1 fails as stated.  The table of the specification takes the target
    module of a relative specifier from its resolved path: in
    [src/modules/billing/ui/Invoice.tsx] it gives [CrossModule] for
    [../../interactions/services/foo] and [SameModule] for
    [../services/foo].  The classifier puts both in [Other]. *)
Lemma relative_specifier_breaks_table :
  Spec.classify (py "@/modules") (py "src/modules")
    (py "src/modules/billing/ui/Invoice.tsx") (py "../../interactions/services/foo")
  = CrossModule
  /\ classify (py "src/modules/billing/ui/Invoice.tsx")
               (py "../../interactions/services/foo") = Other
  /\ Spec.classify (py "@/modules") (py "src/modules")
       (py "src/modules/billing/ui/Invoice.tsx") (py "../services/foo")
     = SameModule
  /\ classify (py "src/modules/billing/ui/Invoice.tsx") (py "../services/foo") = Other.
Proof. repeat split; vm_compute; reflexivity. Qed.

(** C6, as the code has it.  A relative specifier is never resolved: the
    classifier reads a target module only from a specifier that begins
    with [@/modules/], so every relative specifier goes to [Other]. *)
Theorem relative_specifier_is_other (file spec : str) :
  startswith (py ".") spec = true -> classify file spec = Other.
Proof.
  intros H; unfold classify.
  replace (target_module spec) with (@None str).
  - now rewrite andb_false_r.
  - unfold target_module.
    destruct spec as [|c spec]; [discriminate|].
    cbn -[Ascii.eqb] in H; apply andb_true_iff in H as [H _].
    apply Ascii.eqb_eq in H; subst c; reflexivity.
Qed.

Lemma relative_specifier_is_other_witness :
  classify (py "src/modules/billing/ui/Invoice.tsx")
           (py "../../interactions/services/foo") = Other.
Proof.
  apply (@relative_specifier_is_other
           (py "src/modules/billing/ui/Invoice.tsx")
           (py "../../interactions/services/foo")).
  reflexivity.
Defined.

(** C6 fails as stated: the specifier [../../interactions/services/foo] in
    [src/modules/billing/ui/Invoice.tsx] resolves to a path under the
    modules root, in module [interactions], and is classified [Other]. *)
Lemma relative_target_not_resolved :
  RefactorImports.resolve_path (py "/repo")
    (py "/repo/src/modules/billing/ui/Invoice.tsx")
    (py "../../interactions/services/foo")
  = Ok (py "src/modules/interactions/services/foo")
  /\ Spec.moduleOf (py "src/modules") (py "src/modules/interactions/services/foo")
     = Some (py "interactions")
  /\ Spec.moduleOf (py "src/modules") (py "src/modules/billing/ui/Invoice.tsx")
     = Some (py "billing")
  /\ classify (py "src/modules/billing/ui/Invoice.tsx")
              (py "../../interactions/services/foo") = Other.
Proof. repeat split; vm_compute; reflexivity. Qed.

Lemma import_path_quoted (message : str) :
  import_path message =
  if has "'" message then Ok (nth 1 (split "'" message) []) else Raise IndexError.
Proof.
  unfold import_path.
  rewrite <- split_length.
  destruct (split "'" message) as [|a [|b l]]; reflexivity.
Qed.

(** C7, as the code has it.  On a message that holds a single quote the
    classifier returns one of the three classifications, for the text
    between the first quote and the next, and a specifier that does not
    begin with [@/modules/] (a bare package name, say) lands in [Other].
    On a message with no single quote line 34 raises [IndexError]. *)
Theorem classify_violation_quoted (file message : str) :
  (has "'" message = true ->
   exists spec,
     import_path message = Ok spec
     /\ classify_violation file message = Ok (classify file spec)
     /\ (startswith (py "@/modules/") spec = false -> classify file spec = Other))
  /\ (has "'" message = false ->
      classify_violation file message = Raise IndexError).
Proof.
  unfold classify_violation; rewrite import_path_quoted; split; intros ->.
  - eexists; repeat split.
    intros H; unfold classify, target_module; rewrite H.
    now rewrite andb_false_r.
  - reflexivity.
Qed.

Lemma classify_violation_quoted_witness :
  (exists spec,
     import_path (py "'lodash' import is restricted") = Ok spec
     /\ classify_violation (py "src/modules/billing/Bar.ts")
          (py "'lodash' import is restricted") = Ok (classify (py "src/modules/billing/Bar.ts") spec)
     /\ (startswith (py "@/modules/") spec = false ->
         classify (py "src/modules/billing/Bar.ts") spec = Other))
  /\ classify_violation (py "src/modules/billing/Bar.ts")
       (py "import is restricted") = Raise IndexError.
Proof.
  split.
  - apply (proj1 (@classify_violation_quoted (py "src/modules/billing/Bar.ts")
                    (py "'lodash' import is restricted"))).
    reflexivity.
  - apply (proj2 (@classify_violation_quoted (py "src/modules/billing/Bar.ts")
                    (py "import is restricted"))).
    reflexivity.
Defined.

(** C7 fails as stated: a message with no single-quoted substring makes
    the classifier raise. *)
Lemma classify_violation_raises :
  classify_violation (py "src/modules/billing/Bar.ts")
    (py "import is restricted from being used by a pattern.")
  = Raise IndexError.
Proof. reflexivity. Qed.

End ClassifierFacts.

(** ** The path resolver *)

Section PathFacts.
Import PyStr PosixPath.

Lemma is_name_clean (s : str) : Spec.is_name s = true -> clean s.
Proof.
  unfold Spec.is_name, clean; intros H.
  repeat (apply andb_true_iff in H as [H ?]).
  split; [assumption|]. now apply negb_true_iff.
Qed.

Lemma pardir_clean : clean pardir.
Proof. split; reflexivity. Qed.

Lemma names_clean (l : list str) :
  forallb Spec.is_name l = true -> Forall clean l.
Proof.
  intros H; apply Forall_forall; intros x Hx.
  apply is_name_clean; revert x Hx; now apply forallb_forall.
Qed.

Lemma clean_not_abs (s r : str) : clean s -> startswith sep (s ++ r) = false.
Proof.
  intros [Ht Hs]; destruct s as [|c s]; [discriminate|].
  cbn -[Ascii.eqb] in *.
  apply orb_false_iff in Hs as [Hc _]; now rewrite Hc.
Qed.

Lemma clean_not_abs0 (s : str) : clean s -> startswith sep s = false.
Proof. intros H; rewrite <- (app_nil_r s); now apply clean_not_abs. Qed.

Lemma clean_last (x b : str) : clean b -> endswith sep (x ++ b) = false.
Proof.
  intros [Ht Hs]; unfold endswith.
  rewrite rev_app_distr.
  destruct (rev b) as [|c t] eqn:E.
  - apply (f_equal (@rev ascii)) in E; rewrite rev_involutive in E; subst; discriminate.
  - assert (Hin : In c b) by (apply in_rev; rewrite E; now left).
    cbn -[Ascii.eqb].
    destruct (Ascii.eqb "/" c) eqn:Ec; [|reflexivity].
    apply Ascii.eqb_eq in Ec; subst c.
    apply has_iff in Hin; congruence.
Qed.

Lemma truthy_app_r (x b : str) : truthy b = true -> truthy (x ++ b) = true.
Proof. destruct x, b; simpl; congruence. Qed.

(** [posixpath.join] of clean components puts one separator between them. *)
Lemma join_clean (p : list str) :
  Forall clean p ->
  forall x a, clean a -> fold_left join_step p (x ++ a) = x ++ PyStr.join sep (a :: p).
Proof.
  induction 1 as [|b p Hb Hp IH]; intros x a Ha.
  - reflexivity.
  - change (fold_left join_step (b :: p) (x ++ a))
      with (fold_left join_step p (join_step (x ++ a) b)).
    change (PyStr.join sep (a :: b :: p)) with (a ++ sep ++ PyStr.join sep (b :: p)).
    unfold join_step at 2.
    rewrite (clean_not_abs0 Hb), (clean_last x Ha), (@truthy_app_r x a (proj1 Ha)).
    cbn [negb orb].
    replace ((x ++ a) ++ sep ++ b) with ((x ++ a ++ sep) ++ b)
      by (now rewrite <- !app_assoc).
    rewrite (IH _ _ Hb), <- !app_assoc.
    reflexivity.
Qed.

Lemma split_no_sep (c : ascii) (s : str) :
  Forall (fun x => has c x = false) (split c s).
Proof.
  induction s as [|x s IH]; simpl.
  - now constructor.
  - destruct (Ascii.eqb x c) eqn:E.
    + now constructor.
    + inversion IH as [|h t Hh Ht Heq]; simpl.
      * constructor; [|constructor]. cbn -[Ascii.eqb].
        now rewrite Ascii.eqb_sym, E.
      * constructor; [|assumption]. cbn -[Ascii.eqb].
        rewrite Ascii.eqb_sym, E. exact Hh.
Qed.

Lemma split_join (l : list str) :
  Forall clean l -> l <> [] -> split "/" (PyStr.join sep l) = l.
Proof.
  induction 1 as [|a l Ha Hl IH]; intros Hne; [contradiction|].
  destruct l as [|b l].
  - simpl. apply split_clean, Ha.
  - change (PyStr.join sep (a :: b :: l)) with (a ++ "/"%char :: PyStr.join sep (b :: l)).
    rewrite split_app, (@split_clean _ _ (proj2 Ha)), IH by discriminate.
    reflexivity.
Qed.

Lemma filter_clean (l : list str) : Forall clean l -> filter truthy l = l.
Proof.
  induction 1 as [|a l [Ha _] Hl IH]; simpl; [reflexivity|].
  now rewrite Ha, IH.
Qed.

Lemma parts_of_abs (l : list str) :
  Forall clean l -> filter truthy (split "/" (Spec.abs_of l)) = l.
Proof.
  intros H; unfold Spec.abs_of; simpl.
  destruct l as [|a l]; [reflexivity|].
  change (py "/") with sep.
  rewrite split_join by (assumption || discriminate).
  now apply filter_clean.
Qed.

End PathFacts.

Section NormpathFacts.
Import PyStr PosixPath.

Lemma names_cons (a : str) (l : list str) :
  names (a :: l) <-> Spec.is_name a = true /\ names l.
Proof. unfold names; simpl; apply andb_true_iff. Qed.

Lemma names_app (l1 l2 : list str) : names (l1 ++ l2) <-> names l1 /\ names l2.
Proof. unfold names; rewrite forallb_app; apply andb_true_iff. Qed.

Lemma names_rev (l : list str) : names l -> names (rev l).
Proof.
  unfold names; rewrite !forallb_forall; intros H x Hx.
  apply H; now apply in_rev.
Qed.

Lemma is_name_parts (s : str) :
  Spec.is_name s = true ->
  eqb s [] = false /\ eqb s curdir = false /\ eqb s pardir = false.
Proof.
  unfold Spec.is_name; intros H.
  repeat (apply andb_true_iff in H as [H ?]).
  repeat split; try now apply negb_true_iff.
  destruct s; [discriminate|reflexivity].
Qed.

Lemma names_no_pardir (l : list str) : names l -> no_pardir l.
Proof.
  unfold names, no_pardir; rewrite forallb_forall, Forall_forall.
  intros H x Hx; now apply is_name_parts, H.
Qed.

Lemma norm_step_abs (st : list str) (comp : str) :
  no_pardir st -> norm_step 1 st comp = Spec.lex_step st comp.
Proof.
  intros H; unfold norm_step, Spec.lex_step.
  change (py ".") with curdir; change (py "..") with pardir.
  destruct (eqb comp [] || eqb comp curdir); [reflexivity|].
  destruct (eqb comp pardir); simpl; [|reflexivity].
  destruct H as [|h t Hh Ht]; [reflexivity|].
  now rewrite Hh.
Qed.

Lemma lex_step_no_pardir (st : list str) (comp : str) :
  no_pardir st -> no_pardir (Spec.lex_step st comp).
Proof.
  intros H; unfold Spec.lex_step.
  destruct (eqb comp [] || eqb comp (py ".")); [assumption|].
  destruct (eqb comp (py "..")) eqn:E.
  - destruct H; simpl; [constructor|assumption].
  - now constructor.
Qed.

Lemma fold_norm_abs (comps st : list str) :
  no_pardir st ->
  fold_left (norm_step 1) comps st = fold_left Spec.lex_step comps st.
Proof.
  revert st; induction comps as [|c comps IH]; intros st H; simpl; [reflexivity|].
  rewrite norm_step_abs by assumption.
  apply IH, lex_step_no_pardir, H.
Qed.

(** An absolute path with a single leading separator is normalised segment
    by segment. *)
Lemma normpath_abs (body : str) :
  startswith sep body = false ->
  normpath ("/"%char :: body)
  = Spec.abs_of (rev (fold_left Spec.lex_step (split "/" body) [])).
Proof.
  intros Hb; unfold normpath.
  change (eqb ("/"%char :: body) []) with false.
  change (startswith sep ("/"%char :: body)) with true.
  change (startswith (py "//") ("/"%char :: body)) with (startswith sep body).
  rewrite Hb; cbn [andb].
  change (split "/" ("/"%char :: body)) with ([] :: split "/" body).
  cbn [fold_left].
  change (norm_step 1 [] []) with (@nil str).
  rewrite fold_norm_abs by constructor.
  reflexivity.
Qed.

Lemma lex_step_name (st : list str) (comp : str) :
  Spec.is_name comp = true -> Spec.lex_step st comp = comp :: st.
Proof.
  intros H; apply is_name_parts in H as (H1 & H2 & H3).
  unfold Spec.lex_step.
  change (py ".") with curdir; change (py "..") with pardir.
  now rewrite H1, H2, H3.
Qed.

Lemma fold_lex_names (l st : list str) :
  names l -> fold_left Spec.lex_step l st = rev l ++ st.
Proof.
  revert st; induction l as [|a l IH]; intros st H; simpl; [reflexivity|].
  apply names_cons in H as [Ha Hl].
  rewrite lex_step_name, IH, <- app_assoc by assumption.
  reflexivity.
Qed.

Lemma lex_step_names (st : list str) (comp : str) :
  names st -> has "/" comp = false -> names (Spec.lex_step st comp).
Proof.
  intros Hst Hc; unfold Spec.lex_step.
  destruct (eqb comp []) eqn:E1; [assumption|].
  destruct (eqb comp (py ".")) eqn:E2; [assumption|].
  destruct (eqb comp (py "..")) eqn:E3; simpl.
  - destruct st; [assumption|]. now apply names_cons in Hst.
  - apply names_cons; split; [|assumption].
    unfold Spec.is_name; rewrite Hc, E2, E3.
    destruct comp; [discriminate|reflexivity].
Qed.

Lemma fold_lex_keeps_names (comps st : list str) :
  Forall (fun x => has "/" x = false) comps ->
  names st -> names (fold_left Spec.lex_step comps st).
Proof.
  intros H; revert st; induction H as [|c comps Hc Hcs IH]; intros st Hst; simpl.
  - assumption.
  - apply IH, lex_step_names; assumption.
Qed.

Lemma lexical_normalize_names (l comps : list str) :
  names l ->
  Spec.lexical_normalize (l ++ comps) = rev (fold_left Spec.lex_step comps (rev l)).
Proof.
  intros H; unfold Spec.lexical_normalize.
  rewrite fold_left_app, (@fold_lex_names l [] H).
  now rewrite app_nil_r.
Qed.

Lemma abs_of_body (l : list str) :
  names l -> startswith sep (PyStr.join sep l) = false.
Proof.
  intros H; destruct l as [|a l]; [reflexivity|].
  apply names_cons in H as [Ha _]; apply is_name_clean in Ha.
  destruct l as [|b l].
  - now apply clean_not_abs0.
  - change (PyStr.join sep (a :: b :: l)) with (a ++ sep ++ PyStr.join sep (b :: l)).
    now apply clean_not_abs.
Qed.

Lemma split_join_names (l : list str) :
  names l ->
  fold_left Spec.lex_step (split "/" (PyStr.join sep l)) [] = rev l.
Proof.
  intros H.
  assert (Hl : l = [] \/ l <> []) by (destruct l; [left|right]; congruence).
  destruct Hl as [->|Hne]; [reflexivity|].
  rewrite split_join by (assumption || now apply names_clean).
  rewrite fold_lex_names by assumption.
  apply app_nil_r.
Qed.

(** [normpath] leaves a normalised absolute path as it is. *)
Lemma normpath_names (l : list str) :
  names l -> normpath (Spec.abs_of l) = Spec.abs_of l.
Proof.
  intros H; unfold Spec.abs_of at 1.
  change (py "/") with sep.
  rewrite normpath_abs by (now apply abs_of_body).
  now rewrite split_join_names, rev_involutive.
Qed.

End NormpathFacts.

Section ResolveFacts.
Import PyStr PosixPath RefactorImports.

Lemma rfind_end_none (c : ascii) (s : str) : has c s = false -> rfind_end c s = 0.
Proof.
  induction s as [|x s IH]; [reflexivity|].
  cbn -[Ascii.eqb]; intros H; apply orb_false_iff in H as [Hx Hs].
  rewrite (IH Hs), Ascii.eqb_sym, Hx; reflexivity.
Qed.

Lemma rfind_end_last (c : ascii) (p f : str) :
  has c f = false -> rfind_end c (p ++ c :: f) = S (length p).
Proof.
  intros H; induction p as [|x p IH].
  - cbn -[Ascii.eqb]. now rewrite (@rfind_end_none c f H), Ascii.eqb_refl.
  - cbn -[Ascii.eqb] in *. now rewrite IH.
Qed.

Lemma firstn_snoc (p : str) (c : ascii) (f : str) :
  firstn (S (length p)) (p ++ c :: f) = p ++ [c].
Proof.
  induction p as [|x p IH]; [reflexivity|].
  change (x :: firstn (S (length p)) (p ++ c :: f) = x :: p ++ [c]).
  now rewrite IH.
Qed.

Lemma eqb_repeat_sep (s : str) (c : ascii) (n : nat) :
  In c s -> Ascii.eqb c "/" = false -> eqb s (repeat "/"%char n) = false.
Proof.
  intros Hin Hc; apply eqb_neq; intros E; subst s.
  apply repeat_spec in Hin; subst c; discriminate.
Qed.

Lemma clean_rev_head (x b : str) :
  clean b -> exists c t, rev (x ++ b) = c :: t /\ In c b /\ Ascii.eqb c "/" = false.
Proof.
  intros [Ht Hs]; rewrite rev_app_distr.
  destruct (rev b) as [|c t] eqn:E.
  - apply (f_equal (@rev ascii)) in E; rewrite rev_involutive in E; subst; discriminate.
  - assert (Hin : In c b) by (apply in_rev; rewrite E; now left).
    exists c, (t ++ rev x); repeat split; [assumption|].
    destruct (Ascii.eqb c "/") eqn:Ec; [|reflexivity].
    apply Ascii.eqb_eq in Ec; subst c.
    apply has_iff in Hin; congruence.
Qed.

Lemma rstrip_sep (x b : str) : clean b -> rstrip "/" ((x ++ b) ++ ["/"%char]) = x ++ b.
Proof.
  intros Hb; unfold rstrip.
  rewrite rev_app_distr; cbn -[Ascii.eqb rev].
  destruct (clean_rev_head x Hb) as (c & t & E & _ & Hc).
  rewrite E; cbn -[Ascii.eqb]; rewrite Hc, <- E.
  apply rev_involutive.
Qed.

Lemma join_snoc (d : list str) (f : str) :
  PyStr.join sep (d ++ [f]) =
  match d with
  | [] => f
  | _ :: _ => PyStr.join sep d ++ sep ++ f
  end.
Proof.
  induction d as [|a d IH]; [reflexivity|].
  destruct d as [|b d]; [reflexivity|].
  change (PyStr.join sep ((a :: b :: d) ++ [f]))
    with (a ++ sep ++ PyStr.join sep ((b :: d) ++ [f])).
  rewrite IH.
  change (PyStr.join sep (a :: b :: d)) with (a ++ sep ++ PyStr.join sep (b :: d)).
  now rewrite <- !app_assoc.
Qed.

Lemma join_head (a : str) (l : list str) :
  exists r, PyStr.join sep (a :: l) = a ++ r.
Proof.
  destruct l as [|b l]; [exists []; now rewrite app_nil_r|].
  now exists (sep ++ PyStr.join sep (b :: l)).
Qed.

(** The directory of a file given by its segments. *)
Lemma dirname_abs (d : list str) (f : str) :
  names d -> Spec.is_name f = true ->
  dirname (Spec.abs_of (d ++ [f])) = Spec.abs_of d.
Proof.
  intros Hd Hf; apply is_name_clean in Hf as Hcf.
  unfold Spec.abs_of; change (py "/") with sep.
  rewrite join_snoc.
  destruct d as [|a d0] eqn:Ed.
  - unfold dirname.
    change ("/"%char :: f) with ([] ++ "/"%char :: f).
    now rewrite (@rfind_end_last _ [] f (proj2 Hcf)).
  - rewrite <- Ed in *.
    assert (Hlast : exists d' l, d = d' ++ [l]).
    { subst d; destruct (exists_last (l := a :: d0)) as (d' & l & E); [discriminate|].
      now exists d', l. }
    destruct Hlast as (d' & l & Hdl).
    assert (Hl : clean l).
    { apply is_name_clean. rewrite Hdl in Hd. apply names_app in Hd as [_ Hd].
      now apply names_cons in Hd. }
    assert (Hq : exists q, "/"%char :: PyStr.join sep d = q ++ l).
    { rewrite Hdl, join_snoc.
      destruct d' as [|b d']; [now exists ["/"%char]|].
      exists ("/"%char :: PyStr.join sep (b :: d') ++ sep).
      cbn [app]. now rewrite <- app_assoc. }
    destruct Hq as [q Hq].
    unfold dirname.
    change ("/"%char :: PyStr.join sep d ++ sep ++ f)
      with (("/"%char :: PyStr.join sep d) ++ "/"%char :: f).
    rewrite (@rfind_end_last _ _ f (proj2 Hcf)), firstn_snoc, Hq.
    destruct (clean_rev_head q Hl) as (c & t & E & Hin & Hc).
    rewrite (@eqb_repeat_sep _ c).
    + replace (truthy ((q ++ l) ++ ["/"%char])) with true
        by (now destruct ((q ++ l))).
      cbn [negb andb]. now apply rstrip_sep.
    + apply in_or_app; left; apply in_or_app; now right.
    + assumption.
Qed.

(** The text handed to [abspath]: the directory, a separator, the
    specifier. *)
Lemma join_dir_spec (d : list str) (spec : str) :
  names d -> startswith (py ".") spec = true ->
  exists body,
    join (Spec.abs_of d) [spec] = "/"%char :: body
    /\ startswith sep body = false
    /\ split "/" body = d ++ split "/" spec.
Proof.
  intros Hd Hs.
  assert (Hsep : startswith sep spec = false).
  { destruct spec as [|c spec]; [discriminate|].
    cbn -[Ascii.eqb] in Hs; apply andb_true_iff in Hs as [Hc _].
    apply Ascii.eqb_eq in Hc; now subst c. }
  unfold join; cbn [fold_left]; unfold join_step; rewrite Hsep.
  destruct d as [|a d0] eqn:Ed.
  - exists spec; repeat split; assumption.
  - rewrite <- Ed in *.
    assert (Hne : d <> []) by (subst; discriminate).
    destruct (exists_last Hne) as (d' & l & Hdl).
    assert (Hl : clean l).
    { apply is_name_clean. rewrite Hdl in Hd. apply names_app in Hd as [_ Hd].
      now apply names_cons in Hd. }
    assert (Hend : endswith sep (Spec.abs_of d) = false).
    { unfold Spec.abs_of; change (py "/") with sep. rewrite Hdl, join_snoc.
      destruct d' as [|b d'].
      - now apply (clean_last ["/"%char]).
      - rewrite app_assoc, app_comm_cons. now apply clean_last. }
    rewrite Hend; cbn [negb orb truthy Spec.abs_of].
    exists (PyStr.join sep d ++ "/"%char :: spec); repeat split.
    + destruct (join_head a d0) as [r Hr].
      subst d; rewrite Hr, <- app_assoc.
      apply clean_not_abs, is_name_clean.
      now apply names_cons in Hd.
    + rewrite split_app, split_join by (assumption || now apply names_clean).
      reflexivity.
Qed.

End ResolveFacts.

Section ResolveTheorem.
Import PyStr PosixPath RefactorImports.

Lemma relative_to_common (R T : list str) :
  Spec.relative_to R T
  = repeat pardir (length R - common_len R T) ++ skipn (common_len R T) T.
Proof.
  revert T; induction R as [|r R IH]; intros [|t T]; try reflexivity.
  cbn [Spec.relative_to common_len].
  destruct (eqb r t); [|reflexivity].
  now rewrite IH.
Qed.

Lemma relative_to_clean (R T : list str) :
  names T -> Forall clean (Spec.relative_to R T).
Proof.
  intros HT; rewrite relative_to_common; apply Forall_app; split.
  - apply Forall_forall; intros x Hx.
    apply repeat_spec in Hx; subst x; apply pardir_clean.
  - apply names_clean in HT; rewrite Forall_forall in *.
    intros x Hx; apply HT.
    rewrite <- (firstn_skipn (common_len R T) T); apply in_or_app; now right.
Qed.

Lemma relative_to_app (R X : list str) : Spec.relative_to R (R ++ X) = X.
Proof.
  induction R as [|r R IH]; [now destruct X|].
  cbn [Spec.relative_to app]; now rewrite eqb_refl.
Qed.

Lemma relative_to_above (R T : list str) :
  Spec.below R T = false -> exists rest, Spec.relative_to R T = pardir :: rest.
Proof.
  revert T; induction R as [|r R IH]; intros [|t T] H; try discriminate.
  - now eexists.
  - cbn [Spec.relative_to Spec.below] in *.
    destruct (eqb r t); [apply IH, H|now eexists].
Qed.

Lemma normpath_truthy (p : str) : truthy (normpath p) = true.
Proof.
  unfold normpath.
  destruct (eqb p []); [reflexivity|].
  cbv zeta.
  match goal with
  | |- truthy (if truthy ?x then _ else _) = true => destruct (truthy x) eqn:E
  end; [exact E|reflexivity].
Qed.

(** [relpath] of two normalised absolute paths, the second being the
    working directory. *)
Lemma relpath_abs (R T : list str) :
  names R -> names T ->
  relpath (Spec.abs_of R) (Spec.abs_of T) (Spec.abs_of R)
  = Ok (Spec.render (Spec.relative_to R T)).
Proof.
  intros HR HT; unfold relpath, abspath.
  change (isabs (Spec.abs_of R)) with true; change (isabs (Spec.abs_of T)) with true.
  change (truthy (Spec.abs_of T)) with true; cbn [negb].
  rewrite !normpath_names, !parts_of_abs by (assumption || now apply names_clean).
  rewrite <- relative_to_common.
  pose proof (relative_to_clean R HT) as Hc.
  destruct (Spec.relative_to R T) as [|a p]; [reflexivity|].
  inversion Hc as [|? ? Ha Hp]; subst.
  unfold join; change a with ([] ++ a) at 1.
  rewrite (join_clean Hp [] Ha).
  reflexivity.
Qed.

(** The resolver never raises: [relpath] is given a path that is not
    empty. *)
Lemma resolve_path_ok (ROOT_DIR filepath spec : str) :
  exists resolved, resolve_path ROOT_DIR filepath spec = Ok resolved.
Proof.
  unfold resolve_path.
  destruct (startswith (py ".") spec); [|now eexists].
  unfold relpath, abspath at 1.
  rewrite normpath_truthy; cbn [negb bind].
  match goal with
  | |- context [match ?l with [] => _ | _ :: _ => _ end] => destruct l
  end; now eexists.
Qed.

(** The resolver on a file given by its segments: string operations on
    the left, the walk over segments on the right. *)
Lemma resolve_path_segments (R fdir : list str) (fname spec : str) :
  names R -> names fdir -> Spec.is_name fname = true ->
  startswith (py ".") spec = true ->
  resolve_path (Spec.abs_of R) (Spec.abs_of (R ++ fdir ++ [fname])) spec
  = Ok (Spec.render
          (Spec.relative_to R
             (Spec.lexical_normalize (R ++ fdir ++ split "/" spec)))).
Proof.
  intros HR Hd Hf Hs.
  assert (HD : names (R ++ fdir)) by (now apply names_app).
  unfold resolve_path; rewrite Hs.
  rewrite !app_assoc, dirname_abs by assumption.
  destruct (@join_dir_spec (R ++ fdir) spec HD Hs) as (body & Hj & Hb & Hsplit).
  rewrite Hj; unfold abspath at 1.
  change (isabs ("/"%char :: body)) with true; cbv iota.
  rewrite normpath_abs, Hsplit by assumption.
  fold (Spec.lexical_normalize ((R ++ fdir) ++ split "/" spec)).
  rewrite relpath_abs; [reflexivity|assumption|].
  rewrite lexical_normalize_names by assumption.
  apply names_rev, fold_lex_keeps_names; [apply split_no_sep|now apply names_rev].
Qed.

(** C4, as the code has it.  For a containing file under the repository
    root and a relative specifier, the resolver returns the lexical join of
    the file's directory with the specifier, with the empty, [.] and [..]
    segments normalised, expressed relative to the repository root: when
    the target lies at or below the root the result is the path of the
    target below the root, with no [..] left in front.  No file system is
    read. *)
Theorem resolve_path_lexical (R fdir : list str) (fname spec : str) :
  names R -> names fdir -> Spec.is_name fname = true ->
  startswith (py ".") spec = true ->
  let target := Spec.lexical_normalize (R ++ fdir ++ split "/" spec) in
  resolve_path (Spec.abs_of R) (Spec.abs_of (R ++ fdir ++ [fname])) spec
  = Ok (Spec.render (Spec.relative_to R target))
  /\ (forall below_root,
        target = R ++ below_root ->
        resolve_path (Spec.abs_of R) (Spec.abs_of (R ++ fdir ++ [fname])) spec
        = Ok (Spec.render below_root)).
Proof.
  intros HR Hd Hf Hs target.
  pose proof (@resolve_path_segments R fdir fname spec HR Hd Hf Hs) as H.
  fold target in H; split; [exact H|].
  intros below_root E; rewrite H, E.
  now rewrite relative_to_app.
Qed.

Lemma resolve_path_lexical_witness :
  resolve_path (py "/home/repo") (py "/home/repo/src/modules/billing/ui/Invoice.tsx")
    (py "../../../db/models/Friend")
  = Ok (py "src/db/models/Friend").
Proof.
  apply (proj2 (@resolve_path_lexical [py "home"; py "repo"]
                  [py "src"; py "modules"; py "billing"; py "ui"] (py "Invoice.tsx")
                  (py "../../../db/models/Friend") eq_refl eq_refl eq_refl eq_refl)
           [py "src"; py "db"; py "models"; py "Friend"]).
  reflexivity.
Defined.

(** C4 fails as stated: for the containing file [a/b/c.ts] the specifier
    [../../d/e] resolves to [d/e], not to [a/d/e]; the file may be given
    with the repository root in front or relative to it. *)
Lemma resolve_path_example :
  resolve_path (py "/repo") (py "/repo/a/b/c.ts") (py "../../d/e") = Ok (py "d/e")
  /\ resolve_path (py "/repo") (py "a/b/c.ts") (py "../../d/e") = Ok (py "d/e")
  /\ resolve_path (py "/repo") (py "/repo/a/b/c.ts") (py "../../d/e")
     <> Ok (py "a/d/e").
Proof. repeat split; try (vm_compute; reflexivity). vm_compute; discriminate. Qed.

End ResolveTheorem.

(** ** The alias mapper *)

Section AliasFacts.
Import PyStr RefactorImports.

Lemma rule_matches_iff (source path : str) :
  rule_matches source path = true <-> Spec.prefix_match source path.
Proof.
  unfold rule_matches, Spec.prefix_match.
  change (source ++ [os_sep]) with (source ++ py "/").
  rewrite <- orb_assoc, orb_diag, orb_true_iff, eqb_eq, startswith_iff.
  split; (intros [H|[r H]]; [now left|right; exists r]).
  - now rewrite <- app_assoc in H.
  - now rewrite <- app_assoc.
Qed.

Lemma rule_matches_prefix (source path : str) :
  rule_matches source path = true -> startswith source path = true.
Proof.
  unfold rule_matches; intros H.
  repeat (apply orb_true_iff in H as [H|H]).
  - apply eqb_eq in H; subst.
    rewrite <- (app_nil_r source) at 2; apply startswith_app.
  - now apply startswith_app_l in H.
  - now apply startswith_app_l in H.
Qed.

Lemma replace_first_prefix (old new s : str) :
  startswith old s = true -> replace_first old new s = new ++ skipn (length old) s.
Proof. intros H; destruct s; simpl; now rewrite H. Qed.

Lemma replace_char_sep (s : str) : replace_char os_sep (py "/") s = s.
Proof.
  unfold replace_char; induction s as [|c s IH]; [reflexivity|].
  cbn [flat_map]; rewrite IH.
  destruct (Ascii.eqb c os_sep) eqn:E; [|reflexivity].
  apply Ascii.eqb_eq in E; now subst.
Qed.

(** The mapper returns what the first rule that matches gives. *)
Lemma alias_in_first (table : list (str * str)) (path : str) :
  match alias_in table path with
  | Some result =>
      exists before prefix alias after,
        table = before ++ (prefix, alias) :: after
        /\ (forall rule, In rule before -> ~ Spec.prefix_match (fst rule) path)
        /\ Spec.prefix_match prefix path
        /\ result = alias ++ skipn (length prefix) path
  | None => forall rule, In rule table -> ~ Spec.prefix_match (fst rule) path
  end.
Proof.
  induction table as [|[source alias] table IH]; simpl.
  - intros rule [].
  - destruct (rule_matches source path) eqn:E.
    + exists [], source, alias, table; repeat split.
      * intros rule [].
      * now apply rule_matches_iff.
      * now apply replace_first_prefix, rule_matches_prefix.
    + assert (Hno : ~ Spec.prefix_match source path).
      { intros H; apply rule_matches_iff in H; congruence. }
      destruct (alias_in table path) as [result|].
      * destruct IH as (before & prefix & alias' & after & -> & Hb & Hm & ->).
        exists ((source, alias) :: before), prefix, alias', after; repeat split;
          try assumption.
        intros rule [<-|Hin]; [exact Hno|now apply Hb].
      * intros rule [<-|Hin]; [exact Hno|now apply IH].
Qed.

(** Every alias of the table begins with the sigil, so a mapped path is
    never empty and never relative. *)
Lemma get_alias_sigil (path result : str) :
  get_alias_for_path path = Some result -> startswith (py "@/") result = true.
Proof.
  unfold get_alias_for_path; intros H.
  pose proof (alias_in_first ALIASES path) as Hf; rewrite H in Hf.
  destruct Hf as (before & prefix & alias & after & Ht & _ & _ & ->).
  assert (Hin : In (prefix, alias) ALIASES) by (rewrite Ht; apply in_or_app; right; now left).
  assert (Hs : startswith (py "@/") alias = true).
  { revert Hin; clear; unfold ALIASES; simpl; intros H.
    repeat (destruct H as [H|H]; [inversion H; reflexivity|]); contradiction. }
  apply startswith_iff in Hs as [r ->]; rewrite <- app_assoc.
  apply startswith_app.
Qed.

End AliasFacts.

(** ** The rewrite of one occurrence *)

Section ReplacerFacts.
Import PyStr RefactorImports.

Lemma alias_in_skip (before table : list (str * str)) (path : str) :
  (forall rule, In rule before -> ~ Spec.prefix_match (fst rule) path) ->
  alias_in (before ++ table) path = alias_in table path.
Proof.
  induction before as [|[source alias] before IH]; intros H; [reflexivity|].
  cbn [app alias_in].
  destruct (rule_matches source path) eqn:E.
  - apply rule_matches_iff in E. now apply (H (source, alias)) in E; [|left].
  - apply IH; intros rule Hin; apply H; now right.
Qed.

(** What [replacer] does with a relative specifier that resolves inside the
    repository root. *)
Lemma replacer_relative (ROOT_DIR filepath : str) (m : Re.match_obj)
      (prefix suffix : option str) (path resolved : str) :
  matched_groups m = Some (prefix, Some path, suffix) ->
  startswith (py ".") path = true ->
  resolve_path ROOT_DIR filepath path = Ok resolved ->
  startswith (py "..") resolved = false ->
  replacer ROOT_DIR filepath m =
  match get_alias_for_path resolved with
  | Some aliased =>
      if rewrite_wanted path aliased
      then Ok (fmt prefix ++ aliased ++ fmt suffix)
      else Ok (Re.m_whole m)
  | None => Ok (Re.m_whole m)
  end.
Proof.
  intros Hm Hp Hr Hin; unfold replacer.
  rewrite Hm, Hp, Hr; cbn [negb bind]; rewrite Hin.
  destruct (get_alias_for_path resolved) as [aliased|] eqn:Ea; [|reflexivity].
  apply get_alias_sigil in Ea.
  rewrite replace_char_sep.
  destruct aliased; [discriminate|reflexivity].
Qed.

Lemma replacer_no_alias (ROOT_DIR filepath : str) (m : Re.match_obj)
      (prefix suffix : option str) (path resolved : str) :
  matched_groups m = Some (prefix, Some path, suffix) ->
  resolve_path ROOT_DIR filepath path = Ok resolved ->
  get_alias_for_path resolved = None ->
  replacer ROOT_DIR filepath m = Ok (Re.m_whole m).
Proof.
  intros Hm Hr Ha; unfold replacer.
  rewrite Hm, Hr; cbn [bind]; rewrite Ha.
  destruct (negb (startswith (py ".") path)); [reflexivity|].
  now destruct (startswith (py "..") resolved).
Qed.

Lemma rewrite_wanted_iff (path aliased : str) :
  rewrite_wanted path aliased = true <->
  path <> aliased
  /\ (Spec.occurs (py "../../") path \/ Spec.occurs (py "/src/") path).
Proof.
  unfold rewrite_wanted, Spec.occurs.
  rewrite <- !contains_iff, <- eqb_neq.
  destruct (eqb path aliased); cbn [negb].
  - split; [discriminate|intros [H _]; discriminate].
  - destruct (contains (py "../../") path) eqn:E1.
    + split; auto.
    + destruct (startswith (py "../../") path) eqn:E2.
      * apply startswith_iff in E2 as [r E2].
        assert (contains (py "../../") path = true)
          by (apply contains_iff; exists [], r; exact E2).
        congruence.
      * destruct (contains (py "/src/") path); split; auto.
        intros [_ [H|H]]; discriminate.
Qed.

(** A specifier that holds neither marker is left as it is, whatever the
    file. *)
Lemma replacer_keeps_plain (ROOT_DIR filepath : str) (m : Re.match_obj)
      (prefix suffix : option str) (path : str) :
  matched_groups m = Some (prefix, Some path, suffix) ->
  contains (py "../../") path = false ->
  contains (py "/src/") path = false ->
  replacer ROOT_DIR filepath m = Ok (Re.m_whole m).
Proof.
  intros Hm H1 H2; unfold replacer; rewrite Hm.
  destruct (negb (startswith (py ".") path)); [reflexivity|].
  destruct (resolve_path_ok ROOT_DIR filepath path) as [resolved ->]; cbn [bind].
  destruct (startswith (py "..") resolved); [reflexivity|].
  destruct (get_alias_for_path resolved) as [aliased|]; [|reflexivity].
  destruct (truthy aliased); [|reflexivity].
  assert (Hw : forall a, rewrite_wanted path a = false).
  { intros a; destruct (rewrite_wanted path a) eqn:E; [|reflexivity].
    apply rewrite_wanted_iff in E as [_ [E|E]]; apply contains_iff in E; congruence. }
  now rewrite Hw.
Qed.

(** From a file four directories below the root the specifier reaches the
    root and then [src/db/models/Friend]. *)
Lemma friend_resolves (R fdir : list str) (fname : str) :
  names R -> names fdir -> length fdir = 4 -> Spec.is_name fname = true ->
  resolve_path (Spec.abs_of R) (Spec.abs_of (R ++ fdir ++ [fname])) friend_specifier
  = Ok (py "src/db/models/Friend").
Proof.
  intros HR Hd Hlen Hf.
  rewrite resolve_path_segments by (assumption || reflexivity).
  rewrite app_assoc, lexical_normalize_names by (now apply names_app).
  destruct fdir as [|a [|b [|c [|d [|e fdir]]]]]; try discriminate.
  rewrite rev_app_distr.
  change (split "/" friend_specifier)
    with [py ".."; py ".."; py ".."; py ".."; py "src"; py "db"; py "models"; py "Friend"].
  change (rev [a; b; c; d]) with [d; c; b; a].
  change (fold_left Spec.lex_step
            [py ".."; py ".."; py ".."; py ".."; py "src"; py "db"; py "models"; py "Friend"]
            ([d; c; b; a] ++ rev R))
    with ([py "Friend"; py "models"; py "db"; py "src"] ++ rev R).
  rewrite rev_app_distr, rev_involutive, relative_to_app.
  reflexivity.
Qed.

(** A relative specifier that holds [../../] is rewritten whenever the
    mapper has an alias for its resolved path. *)
Lemma replacer_deep (ROOT_DIR filepath : str) (m : Re.match_obj)
      (prefix suffix : option str) (path resolved : str) :
  matched_groups m = Some (prefix, Some path, suffix) ->
  startswith (py ".") path = true ->
  Spec.occurs (py "../../") path ->
  resolve_path ROOT_DIR filepath path = Ok resolved ->
  replacer ROOT_DIR filepath m =
  if startswith (py "..") resolved then Ok (Re.m_whole m)
  else
    match get_alias_for_path resolved with
    | Some aliased => Ok (fmt prefix ++ aliased ++ fmt suffix)
    | None => Ok (Re.m_whole m)
    end.
Proof.
  intros Hm Hp Hdeep Hr.
  destruct (startswith (py "..") resolved) eqn:Hout.
  - unfold replacer; rewrite Hm, Hp, Hr; cbn [negb bind]; now rewrite Hout.
  - rewrite (replacer_relative _ _ _ Hm Hp Hr Hout).
    destruct (get_alias_for_path resolved) as [aliased|] eqn:Ea; [|reflexivity].
    replace (rewrite_wanted path aliased) with true; [reflexivity|].
    symmetry; apply rewrite_wanted_iff; split; [|now left].
    apply get_alias_sigil in Ea.
    intros <-. destruct path as [|c path]; [discriminate|].
    cbn -[Ascii.eqb] in Hp, Ea.
    apply andb_true_iff in Hp as [Hp _]; apply andb_true_iff in Ea as [Ea _].
    apply Ascii.eqb_eq in Hp, Ea; congruence.
Qed.

(** C2, as the code has it.  A specifier that does not begin with a dot is
    returned as it stands.  For a relative specifier whose resolved path
    does not begin with [..], the occurrence is rewritten exactly when the
    mapper yields an alias, the alias differs from the specifier, and the
    specifier itself holds the text [../../] or the text [/src/]; the
    resolved path plays no part in the decision.  So [./sibling] is never
    rewritten, whatever the containing file.  A relative specifier that
    holds [../../] is rewritten exactly when its resolved path does not
    begin with [..] and the mapper has an alias for it, and then to that
    alias: [../../../../src/db/models/Friend] becomes [@/db/models/Friend]
    from every file that lies four directories below the repository
    root. *)
Theorem rewrite_decision (ROOT_DIR filepath : str) (m : Re.match_obj)
        (prefix suffix : option str) (path resolved aliased : str)
        (R fdir : list str) (fname : str) :
  (matched_groups m = Some (prefix, Some path, suffix) ->
   startswith (py ".") path = false ->
   replacer ROOT_DIR filepath m = Ok (Re.m_whole m))
  /\ (matched_groups m = Some (prefix, Some path, suffix) ->
      startswith (py ".") path = true ->
      resolve_path ROOT_DIR filepath path = Ok resolved ->
      startswith (py "..") resolved = false ->
      replacer ROOT_DIR filepath m =
      match get_alias_for_path resolved with
      | Some aliased =>
          if rewrite_wanted path aliased
          then Ok (fmt prefix ++ aliased ++ fmt suffix)
          else Ok (Re.m_whole m)
      | None => Ok (Re.m_whole m)
      end)
  /\ (rewrite_wanted path aliased = true <->
      path <> aliased
      /\ (Spec.occurs (py "../../") path \/ Spec.occurs (py "/src/") path))
  /\ (matched_groups m = Some (prefix, Some (py "./sibling"), suffix) ->
      replacer ROOT_DIR filepath m = Ok (Re.m_whole m))
  /\ (matched_groups m = Some (prefix, Some path, suffix) ->
      startswith (py ".") path = true ->
      Spec.occurs (py "../../") path ->
      resolve_path ROOT_DIR filepath path = Ok resolved ->
      replacer ROOT_DIR filepath m =
      if startswith (py "..") resolved then Ok (Re.m_whole m)
      else
        match get_alias_for_path resolved with
        | Some aliased => Ok (fmt prefix ++ aliased ++ fmt suffix)
        | None => Ok (Re.m_whole m)
        end)
  /\ (names R -> names fdir -> length fdir = 4 -> Spec.is_name fname = true ->
      matched_groups m = Some (prefix, Some friend_specifier, suffix) ->
      replacer (Spec.abs_of R) (Spec.abs_of (R ++ fdir ++ [fname])) m
      = Ok (fmt prefix ++ py "@/db/models/Friend" ++ fmt suffix)).
Proof.
  split; [intros Hm Hp; unfold replacer; now rewrite Hm, Hp|].
  split; [apply replacer_relative|].
  split; [apply rewrite_wanted_iff|].
  split; [|split; [apply replacer_deep|]].
  - intros Hm.
    now apply (@replacer_keeps_plain ROOT_DIR filepath m prefix suffix (py "./sibling")).
  - intros HR Hd Hlen Hf Hm.
    rewrite (@replacer_relative _ _ m prefix suffix friend_specifier
               (py "src/db/models/Friend") Hm eq_refl);
      [reflexivity|now apply friend_resolves|reflexivity].
Qed.

End ReplacerFacts.

Section OccurrenceTheorems.
Import PyStr RefactorImports.

(** The sample occurrences are what the scanner finds in their text. *)
Lemma sample_occurrences :
  Re.scan IMPORT_REGEX (Re.m_whole sibling_match) = [sibling_match]
  /\ Re.scan IMPORT_REGEX (Re.m_whole friend_match) = [friend_match]
  /\ Re.scan IMPORT_REGEX (Re.m_whole local_match) = [local_match]
  /\ Re.scan IMPORT_REGEX (py "import { Friend } from '@/db/models/Friend'")
     = [ {| Re.m_whole := py "import { Friend } from '@/db/models/Friend'";
            Re.m_groups := [(3, py "'"); (2, py "@/db/models/Friend");
                            (1, py "import { Friend } from '")] |} ].
Proof. repeat split; vm_compute; reflexivity. Qed.

(** The three sample occurrences: a sibling, the deep specifier from four
    directories below the root and from five, and an alias. *)
Lemma rewrite_decision_witness :
  replacer (py "/repo") (py "/repo/src/db/a.ts") sibling_match
  = Ok (Re.m_whole sibling_match)
  /\ replacer (py "/home/repo") (py "/home/repo/src/modules/billing/ui/Invoice.tsx")
       friend_match
     = Ok (py "import { Friend } from '@/db/models/Friend'")
  /\ replacer (py "/repo") (py "/repo/src/db/a.ts") sibling_match
     = match get_alias_for_path (py "src/db/sibling") with
       | Some aliased =>
           if rewrite_wanted (py "./sibling") aliased
           then Ok (py "import s from '" ++ aliased ++ py "'")
           else Ok (Re.m_whole sibling_match)
       | None => Ok (Re.m_whole sibling_match)
       end
  /\ replacer (py "/repo") (py "/repo/src/db/a.ts") alias_match
     = Ok (Re.m_whole alias_match)
  /\ replacer (py "/repo") (py "/repo/app/a/b/c/d/f.ts") friend_match
     = Ok (py "import { Friend } from '@/app/src/db/models/Friend'")
  /\ (rewrite_wanted friend_specifier (py "@/db/models/Friend") = true
      <-> friend_specifier <> py "@/db/models/Friend"
          /\ (Spec.occurs (py "../../") friend_specifier
              \/ Spec.occurs (py "/src/") friend_specifier)).
Proof.
  split; [|split; [|split; [|split; [|split]]]].
  - apply (proj1 (proj2 (proj2 (proj2
      (@rewrite_decision (py "/repo") (py "/repo/src/db/a.ts") sibling_match
         (Some (py "import s from '")) (Some (py "'")) (py "./sibling") [] []
         [] [] []))))).
    reflexivity.
  - apply (proj2 (proj2 (proj2 (proj2 (proj2
      (@rewrite_decision [] [] friend_match
         (Some (py "import { Friend } from '")) (Some (py "'")) [] [] []
         [py "home"; py "repo"] [py "src"; py "modules"; py "billing"; py "ui"]
         (py "Invoice.tsx"))))))); reflexivity.
  - apply (proj1 (proj2
      (@rewrite_decision (py "/repo") (py "/repo/src/db/a.ts") sibling_match
         (Some (py "import s from '")) (Some (py "'")) (py "./sibling")
         (py "src/db/sibling") [] [] [] []))); reflexivity.
  - apply (proj1
      (@rewrite_decision (py "/repo") (py "/repo/src/db/a.ts") alias_match
         (Some (py "import { Friend } from '")) (Some (py "'"))
         (py "@/db/models/Friend") [] [] [] [] [])); reflexivity.
  - etransitivity;
      [apply (proj1 (proj2 (proj2 (proj2 (proj2
         (@rewrite_decision (py "/repo") (py "/repo/app/a/b/c/d/f.ts") friend_match
            (Some (py "import { Friend } from '")) (Some (py "'")) friend_specifier
            (py "app/src/db/models/Friend") [] [] [] []))))));
       [reflexivity|reflexivity|exists [], (py "../../src/db/models/Friend");
                                 reflexivity|vm_compute; reflexivity]
      |vm_compute; reflexivity].
  - apply (proj1 (proj2 (proj2
      (@rewrite_decision [] [] friend_match None None friend_specifier []
         (py "@/db/models/Friend") [] [] [])))).
Defined.

(** C2 fails as stated.  From a file five directories below the root the
    specifier [../../../../src/db/models/Friend] resolves to
    [src/src/db/models/Friend], which no rule maps, and stays as it is;
    from [app/a/b/c/d/f.ts] it resolves to [app/src/db/models/Friend] and
    gets the alias of [app].  The second trigger reads the specifier, not
    the resolved path: from [app/x.ts] the specifier [../src/db/m], with a
    single parent segment, is rewritten, while from [src/modules/x/a.ts]
    the specifier [../y/b], whose target lies under [src/], is not. *)
Lemma friend_not_always_rewritten :
  rewrite_content (py "/repo") (py "/repo/src/modules/a/b/c/f.ts")
    (py "import { Friend } from '../../../../src/db/models/Friend'")
  = Ok (py "import { Friend } from '../../../../src/db/models/Friend'")
  /\ resolve_path (py "/repo") (py "/repo/src/modules/a/b/c/f.ts") friend_specifier
     = Ok (py "src/src/db/models/Friend")
  /\ rewrite_content (py "/repo") (py "/repo/app/a/b/c/d/f.ts")
       (py "import { Friend } from '../../../../src/db/models/Friend'")
     = Ok (py "import { Friend } from '@/app/src/db/models/Friend'")
  /\ rewrite_content (py "/repo") (py "/repo/app/x.ts") (py "import m from '../src/db/m'")
     = Ok (py "import m from '@/db/m'")
  /\ resolve_path (py "/repo") (py "/repo/src/modules/x/a.ts") (py "../y/b")
     = Ok (py "src/modules/y/b")
  /\ rewrite_content (py "/repo") (py "/repo/src/modules/x/a.ts") (py "import b from '../y/b'")
     = Ok (py "import b from '../y/b'").
Proof. repeat split; vm_compute; reflexivity. Qed.

(** C5.  The mapper walks the table in its declared order.  A rule matches
    when the path equals its prefix or begins with the prefix and a
    separator; the result is the alias of the first rule that matches
    followed by the rest of the path, and [None] when no rule matches, in
    which case the occurrence is left as it is.  A rule listed first
    decides, whatever the later rules are. *)
Theorem alias_mapper_first_match (table : list (str * str)) (path : str)
        (ROOT_DIR filepath : str) (m : Re.match_obj)
        (prefix suffix : option str) (spec resolved : str) :
  match alias_in table path with
  | Some result =>
      exists before source alias after,
        table = before ++ (source, alias) :: after
        /\ (forall rule, In rule before -> ~ Spec.prefix_match (fst rule) path)
        /\ Spec.prefix_match source path
        /\ result = alias ++ skipn (length source) path
        /\ replace_char os_sep (py "/") result = result
  | None => forall rule, In rule table -> ~ Spec.prefix_match (fst rule) path
  end
  /\ (forall before source alias after,
        table = before ++ (source, alias) :: after ->
        (forall rule, In rule before -> ~ Spec.prefix_match (fst rule) path) ->
        Spec.prefix_match source path ->
        alias_in table path = Some (alias ++ skipn (length source) path))
  /\ (matched_groups m = Some (prefix, Some spec, suffix) ->
      resolve_path ROOT_DIR filepath spec = Ok resolved ->
      get_alias_for_path resolved = None ->
      replacer ROOT_DIR filepath m = Ok (Re.m_whole m)).
Proof.
  split; [|split].
  - pose proof (alias_in_first table path) as H.
    destruct (alias_in table path) as [result|]; [|exact H].
    destruct H as (before & source & alias & after & H1 & H2 & H3 & H4).
    exists before, source, alias, after; repeat split; try assumption.
    apply replace_char_sep.
  - intros before source alias after -> Hb Hm.
    rewrite alias_in_skip by assumption.
    cbn [alias_in].
    apply rule_matches_iff in Hm as Hr; rewrite Hr.
    now rewrite replace_first_prefix by (now apply rule_matches_prefix).
  - apply replacer_no_alias.
Qed.

Lemma alias_mapper_first_match_witness :
  alias_in [(py "src", py "~"); (py "src/db", py "@/db")] (py "src/db/models/Friend")
  = Some (py "~/db/models/Friend")
  /\ replacer (py "/repo") (py "/repo/src/a.ts") local_match
     = Ok (Re.m_whole local_match).
Proof.
  split.
  - apply (proj1 (proj2
      (@alias_mapper_first_match
         [(py "src", py "~"); (py "src/db", py "@/db")] (py "src/db/models/Friend")
         [] [] local_match None None [] []))
      [] (py "src") (py "~") [(py "src/db", py "@/db")]).
    + reflexivity.
    + intros rule [].
    + right; exists (py "db/models/Friend"); reflexivity.
  - apply (proj2 (proj2
      (@alias_mapper_first_match [] [] (py "/repo") (py "/repo/src/a.ts") local_match
         (Some (py "require('")) (Some (py "'")) (py "./local/zzz")
         (py "src/local/zzz")))); reflexivity.
Defined.

(** C8.  When the specifier of an occurrence is relative and its lexical
    target does not lie at or below the repository root, the resolver
    answers with a path that begins with [..] and the occurrence is
    returned as it stands; nothing is raised. *)
Theorem out_of_bounds_untouched (R fdir : list str) (fname : str)
        (m : Re.match_obj) (prefix suffix : option str) (path : str) :
  names R -> names fdir -> Spec.is_name fname = true ->
  matched_groups m = Some (prefix, Some path, suffix) ->
  startswith (py ".") path = true ->
  Spec.below R (Spec.lexical_normalize (R ++ fdir ++ split "/" path)) = false ->
  replacer (Spec.abs_of R) (Spec.abs_of (R ++ fdir ++ [fname])) m
  = Ok (Re.m_whole m).
Proof.
  intros HR Hd Hf Hm Hp Habove; unfold replacer.
  rewrite Hm, Hp, resolve_path_segments by assumption.
  cbn [negb bind].
  destruct (relative_to_above _ _ Habove) as [rest ->].
  cbn [Spec.render].
  destruct (join_head PosixPath.pardir rest) as [r Hr].
  change (py "/") with PosixPath.sep; rewrite Hr.
  change (py "..") with PosixPath.pardir; now rewrite startswith_app.
Qed.

Lemma out_of_bounds_untouched_witness :
  replacer (py "/repo") (py "/repo/src/a.ts") friend_match = Ok (Re.m_whole friend_match).
Proof.
  apply (@out_of_bounds_untouched [py "repo"] [py "src"] (py "a.ts") friend_match
           (Some (py "import { Friend } from '")) (Some (py "'")) friend_specifier);
    reflexivity.
Defined.

End OccurrenceTheorems.

(** ** The matcher *)

Section MatcherFacts.
Import PyStr Re.

Variable X : Type.

Lemma rep_greedy_reaches (p : ascii -> bool) (s : str) :
  forall (min : nat) (caps : captures) (k : cont X) (x : X),
    rep_greedy p min s caps k = Some x ->
    exists s' caps', k s' caps' = Some x.
Proof.
  induction s as [|c s IH]; intros min caps k x H; cbn [rep_greedy] in H.
  - destruct (min =? 0); [(do 2 eexists; eassumption)|discriminate].
  - destruct (p c).
    + destruct (rep_greedy p (pred min) s caps k) eqn:E.
      * injection H as ->; now apply IH in E.
      * destruct (min =? 0); [(do 2 eexists; eassumption)|discriminate].
    + destruct (min =? 0); [(do 2 eexists; eassumption)|discriminate].
Qed.

Lemma rep_lazy_reaches (p : ascii -> bool) (s : str) :
  forall (min : nat) (caps : captures) (k : cont X) (x : X),
    rep_lazy p min s caps k = Some x ->
    exists s' caps', k s' caps' = Some x.
Proof.
  induction s as [|c s IH]; intros min caps k x H; cbn [rep_lazy] in H.
  - destruct (min =? 0); [|discriminate].
    destruct (k [] caps) eqn:E; [|discriminate].
    injection H as ->; (do 2 eexists; eassumption).
  - destruct (if min =? 0 then k (c :: s) caps else None) eqn:E.
    + injection H as ->. destruct (min =? 0); [|discriminate].
      (do 2 eexists; eassumption).
    + destruct (p c); [now apply IH in H|discriminate].
Qed.

(** A match is an answer of the final continuation. *)
Lemma exec_reaches (r : regex) :
  forall (s : str) (caps : captures) (k : cont X) (x : X),
    exec r s caps k = Some x ->
    exists s' caps', k s' caps' = Some x.
Proof.
  induction r as [l|p|g min p|n r IH|r1 IH1 r2 IH2|r1 IH1 r2 IH2];
    intros s caps k x H; cbn [exec] in H.
  - destruct (startswith l s); [(do 2 eexists; eassumption)|discriminate].
  - destruct s as [|c s]; [discriminate|].
    destruct (p c); [(do 2 eexists; eassumption)|discriminate].
  - destruct g; [now apply rep_greedy_reaches in H|now apply rep_lazy_reaches in H].
  - apply IH in H as (s' & caps' & H); (do 2 eexists; eassumption).
  - apply IH1 in H as (s' & caps' & H); now apply IH2 in H.
  - destruct (exec r1 s caps k) eqn:E.
    + injection H as ->; now apply IH1 in E.
    + now apply IH2 in H.
Qed.

End MatcherFacts.

Section ScanFacts.
Import PyStr Re.

(** The text of a match is a prefix of the input it was found in. *)
Lemma match_at_whole (r : regex) (s : str) (m : match_obj) :
  match_at r s = Some m ->
  exists n, n <= length s /\ m_whole m = firstn n s.
Proof.
  unfold match_at; intros H.
  apply exec_reaches in H as (s' & caps' & H).
  injection H as <-; cbn [m_whole]; unfold consumed.
  exists (length s - length s'); split; [lia|reflexivity].
Qed.

(** A pass that returns every occurrence it finds as it stands returns the
    content as it stands. *)
Lemma sub_aux_stable (r : regex) (repl : match_obj -> result str) (s : str) :
  forall skip,
    skip <= length s ->
    (forall m, In m (scan_aux r s skip) -> repl m = Ok (m_whole m)) ->
    sub_aux r repl s skip = Ok (skipn skip s).
Proof.
  induction s as [|c s IH]; intros skip Hlen Hst.
  - now destruct skip.
  - cbn [sub_aux scan_aux] in *. destruct skip as [|n].
    + destruct (match_at r (c :: s)) as [m|] eqn:E.
      * rewrite (Hst m) by now left.
        cbn [bind].
        destruct (match_at_whole _ _ E) as (k & Hk & Hw).
        rewrite Hw, length_firstn, Nat.min_l by assumption.
        rewrite Hw, length_firstn, Nat.min_l in Hst by assumption.
        destruct k as [|j]; cbn [length] in Hk.
        -- rewrite (IH 0) by (lia || (intros; apply Hst; now right)).
           reflexivity.
        -- rewrite (IH j) by (lia || (intros; apply Hst; now right)).
           cbn [bind firstn app skipn]. now rewrite firstn_skipn.
      * rewrite (IH 0) by (lia || assumption). reflexivity.
    + cbn [length] in Hlen. rewrite (IH n) by (lia || assumption). reflexivity.
Qed.

Lemma sub_stable (r : regex) (repl : match_obj -> result str) (s : str) :
  (forall m, In m (scan r s) -> repl m = Ok (m_whole m)) ->
  sub r repl s = Ok s.
Proof. intros H; apply (sub_aux_stable r repl s (skip := 0)); [lia|exact H]. Qed.

End ScanFacts.

(** ** The two walks *)

Section WalkTheorems.
Import PyStr World.

(** The audit of one file never raises. *)
Lemma audit_file_returns (filepath : str) (w : world) :
  exists found w', AuditScript.audit_file filepath w = (Ok found, w').
Proof.
  unfold AuditScript.audit_file, try_except, mbind, read_text, ret, print.
  destruct (read_file (files w) filepath) as [content|e]; now do 2 eexists.
Qed.

Lemma audit_files_returns (subdir : str) (files : list str) (w : world) :
  exists found w', AuditScript.audit_files subdir files w = (Ok found, w').
Proof.
  revert w; induction files as [|file rest IH]; intros w; [now do 2 eexists|].
  cbn [AuditScript.audit_files]; unfold mbind.
  destruct (RefactorImports.endswith_any RefactorImports.extensions file).
  - destruct (audit_file_returns (PosixPath.join subdir [file]) w) as (f & w1 & ->).
    destruct (IH w1) as (g & w2 & ->). now do 2 eexists.
  - unfold ret at 1. destruct (IH w) as (g & w2 & ->). now do 2 eexists.
Qed.

Lemma audit_walk_returns (entries : list (str * list str)) (w : world) :
  exists found w', AuditScript.audit_walk entries w = (Ok found, w').
Proof.
  revert w; induction entries as [|[subdir files] rest IH]; intros w;
    [now do 2 eexists|].
  cbn [AuditScript.audit_walk]; unfold mbind.
  destruct (contains (py "node_modules") subdir || contains (py ".git") subdir).
  - unfold ret at 1. destruct (IH w) as (g & w2 & ->). now do 2 eexists.
  - destruct (audit_files_returns subdir files w) as (f & w1 & ->).
    destruct (IH w1) as (g & w2 & ->). now do 2 eexists.
Qed.

(** The audit walk runs to its end on every tree, whatever can or cannot be
    read. *)
Lemma audit_codebase_returns (walk : str -> list (str * list str))
      (root_dirs : list str) (w : world) :
  exists found w', AuditScript.audit_codebase walk root_dirs w = (Ok found, w').
Proof.
  revert w; induction root_dirs as [|root_dir rest IH]; intros w;
    [now do 2 eexists|].
  cbn [AuditScript.audit_codebase]; unfold mbind.
  destruct (audit_walk_returns (walk root_dir) w) as (f & w1 & ->).
  destruct (IH w1) as (g & w2 & ->). now do 2 eexists.
Qed.

(** C9 on the code.  The audit walk never raises.  On the sample tree it
    passes over the unreadable [a.ts],
    prints the error and goes on to [b.ts], where it records the deep
    import of line 2.  The rewrite walk stops at [a.ts]: the exception
    leaves [main], nothing is printed and [b.ts] is never rewritten,
    while on the tree with a readable [a.ts] it is. *)
Theorem unreadable_file_stops_rewrite_walk :
  (forall walk root_dirs w,
     exists found w', AuditScript.audit_codebase walk root_dirs w = (Ok found, w'))
  /\ AuditScript.audit_codebase (two_files (py "src")) [py "src"; py "app"]
    (broken_tree (py "src"))
  = (Ok [ {| AuditScript.f_file := py "src/b.ts";
             AuditScript.f_line := 2;
             AuditScript.f_content :=
               py "import { X } from '@/modules/interactions/services/foo'" |} ],
     {| files := files (broken_tree (py "src"));
        stdout := [py "Error reading src/a.ts"] |})
  /\ RefactorImports.main (py "/repo") (two_files (py "/repo/src"))
       (broken_tree (py "/repo/src"))
     = (Raise OSError, broken_tree (py "/repo/src"))
  /\ RefactorImports.main (py "/repo") (two_files (py "/repo/src"))
       (sound_tree (py "/repo/src"))
     = (Ok tt,
        {| files := [ (py "/repo/src/a.ts", Text []);
                      (py "/repo/src/b.ts", Text b_rewritten) ];
           stdout := [py "Updating /repo/src/b.ts"] |}).
Proof.
  split; [exact audit_codebase_returns|].
  repeat split; vm_compute; reflexivity.
Qed.

End WalkTheorems.

(** ** The deep-import pattern *)

Section PatternFacts.
Import PyStr Re.

Variable X : Type.

Lemma exec_lit (l s : str) (caps : captures) (k : cont X) :
  exec (Lit l) (l ++ s) caps k = k s caps.
Proof. cbn [exec]; now rewrite startswith_app, skipn_app_exact. Qed.

Lemma exec_cls (p : ascii -> bool) (c : ascii) (s : str) (caps : captures) (k : cont X) :
  p c = true -> exec (Cls p) (c :: s) caps k = k s caps.
Proof. intros H; cbn [exec]; now rewrite H. Qed.

Lemma exec_cat (r1 r2 : regex) (s : str) (caps : captures) (k : cont X) :
  exec (Cat r1 r2) s caps k = exec r1 s caps (fun s' caps' => exec r2 s' caps' k).
Proof. reflexivity. Qed.

Lemma exec_grp (n : nat) (r : regex) (s : str) (caps : captures) (k : cont X) :
  exec (Grp n r) s caps k
  = exec r s caps (fun s' caps' => k s' ((n, consumed s s') :: caps')).
Proof. reflexivity. Qed.

Lemma exec_greedy (min : nat) (p : ascii -> bool) (s : str) (caps : captures)
      (k : cont X) :
  exec (Rep true min p) s caps k = rep_greedy p min s caps k.
Proof. reflexivity. Qed.

Lemma exec_lit_inv (l s : str) (caps : captures) (k : cont X) (x : X) :
  exec (Lit l) s caps k = Some x ->
  exists s', s = l ++ s' /\ k s' caps = Some x.
Proof.
  cbn [exec]; destruct (startswith l s) eqn:E; [|discriminate].
  intros H; exists (skipn (length l) s); split; [now apply startswith_split|exact H].
Qed.

Lemma exec_cls_inv (p : ascii -> bool) (s : str) (caps : captures) (k : cont X) (x : X) :
  exec (Cls p) s caps k = Some x ->
  exists c s', s = c :: s' /\ p c = true /\ k s' caps = Some x.
Proof.
  cbn [exec]; destruct s as [|c s]; [discriminate|].
  destruct (p c) eqn:E; [|discriminate].
  intros H; now exists c, s.
Qed.

Lemma rep_greedy_inv (p : ascii -> bool) (s : str) :
  forall (min : nat) (caps : captures) (k : cont X) (x : X),
    rep_greedy p min s caps k = Some x ->
    exists run s',
      s = run ++ s' /\ forallb p run = true /\ min <= length run
      /\ k s' caps = Some x.
Proof.
  induction s as [|c s IH]; intros min caps k x H; cbn [rep_greedy] in H.
  - destruct (min =? 0) eqn:E; [|discriminate].
    apply Nat.eqb_eq in E; subst. exists [], []; repeat split; [lia|exact H].
  - assert (Hstop : (if min =? 0 then k (c :: s) caps else None) = Some x ->
                    exists run s',
                      c :: s = run ++ s' /\ forallb p run = true
                      /\ min <= length run /\ k s' caps = Some x).
    { destruct (min =? 0) eqn:E; [|discriminate].
      apply Nat.eqb_eq in E; subst. intros Hk.
      exists [], (c :: s); repeat split; [lia|exact Hk]. }
    destruct (p c) eqn:Ep; [|now apply Hstop].
    destruct (rep_greedy p (pred min) s caps k) eqn:E; [|now apply Hstop].
    injection H as ->.
    apply IH in E as (run & s' & -> & Hrun & Hmin & Hk).
    exists (c :: run), s'; repeat split; [|cbn [length]; lia|exact Hk].
    cbn [forallb]; now rewrite Ep.
Qed.

(** A greedy run followed by something the rest of the pattern cannot
    start inside the run: the run is taken whole. *)
Lemma rep_greedy_commit (p : ascii -> bool) (run s2 : str) :
  forall (min : nat) (caps : captures) (k : cont X),
    forallb p run = true ->
    match s2 with
    | [] => true
    | c :: _ => negb (p c)
    end = true ->
    (forall b1 c b2, run = b1 ++ c :: b2 -> k (c :: b2 ++ s2) caps = None) ->
    rep_greedy p min (run ++ s2) caps k
    = if min <=? length run then k s2 caps else None.
Proof.
  induction run as [|c run IH]; intros min caps k Hrun Hs2 Hk.
  - cbn [app length]. replace (min <=? 0) with (min =? 0) by now destruct min.
    destruct s2 as [|c s2]; [reflexivity|].
    cbn [rep_greedy]. apply negb_true_iff in Hs2; now rewrite Hs2.
  - cbn [forallb] in Hrun; apply andb_true_iff in Hrun as [Hc Hrun].
    cbn [app rep_greedy length]; rewrite Hc.
    rewrite (IH (pred min) caps k Hrun Hs2)
      by (intros b1 d b2 ->; now apply (Hk (c :: b1) d b2)).
    replace (pred min <=? length run) with (min <=? S (length run))
      by (destruct min; reflexivity).
    rewrite (Hk [] c run eq_refl).
    destruct (min <=? S (length run)); [|now destruct (min =? 0)].
    destruct (k s2 caps); [reflexivity|now destruct (min =? 0)].
Qed.

(** A greedy run is given back up to the last place where the rest of the
    pattern matches. *)
Lemma rep_greedy_last (p : ascii -> bool) (run after : str) (q : ascii) (x : X) :
  forall (caps : captures) (k : cont X),
    forallb p run = true -> p q = true -> forallb p after = true ->
    (forall b1 b2, after = b1 ++ b2 -> k b2 caps = None) ->
    k (q :: after) caps = Some x ->
    rep_greedy p 0 (run ++ q :: after) caps k = Some x.
Proof.
  intros caps k Hrun Hq Hafter Hk Hx.
  assert (Hnone : rep_greedy p 0 after caps k = None).
  { clear Hrun q Hq Hx run.
    induction after as [|c after IH].
    - cbn [rep_greedy Nat.eqb]. now apply (Hk [] []).
    - cbn [forallb] in Hafter; apply andb_true_iff in Hafter as [Hc Hafter].
      cbn [rep_greedy Nat.eqb pred]; rewrite Hc.
      rewrite IH by (assumption || (intros b1 b2 ->; now apply (Hk (c :: b1) b2))).
      now apply (Hk [] (c :: after)). }
  induction run as [|c run IH].
  - cbn [app rep_greedy Nat.eqb pred]; now rewrite Hq, Hnone.
  - cbn [forallb] in Hrun; apply andb_true_iff in Hrun as [Hc Hrun].
    cbn [app rep_greedy Nat.eqb pred]; now rewrite Hc, (IH Hrun).
Qed.

End PatternFacts.

Section DeepImportFacts.
Import PyStr Re AuditScript.

Lemma consumed_app (a b : str) : consumed (a ++ b) b = a.
Proof.
  unfold consumed; rewrite length_app.
  replace (length a + length b - length b) with (length a) by lia.
  induction a as [|x a IH]; cbn [length firstn app]; [now destruct b|now rewrite IH].
Qed.

Lemma search_inv (r : regex) (s : str) (m : match_obj) :
  search r s = Some m -> exists b t, s = b ++ t /\ match_at r t = Some m.
Proof.
  induction s as [|c s IH]; cbn [search].
  - destruct (match_at r []) eqn:E; [|discriminate].
    intros H; injection H as ->; now exists [], [].
  - destruct (match_at r (c :: s)) eqn:E.
    + intros H; injection H as ->; now exists [], (c :: s).
    + intros H; apply IH in H as (b & t & -> & H); now exists (c :: b), t.
Qed.

Lemma search_skip (r : regex) (b t : str) :
  (forall b1 c b2, b = b1 ++ c :: b2 -> match_at r (c :: b2 ++ t) = None) ->
  search r (b ++ t) = search r t.
Proof.
  induction b as [|c b IH]; intros H; [reflexivity|].
  cbn [app search]; rewrite (H [] c b eq_refl).
  apply IH; intros b1 d b2 ->; now apply (H (c :: b1) d b2).
Qed.

Lemma search_here (r : regex) (s : str) (m : match_obj) :
  match_at r s = Some m -> search r s = Some m.
Proof. intros H; destruct s; cbn [search]; now rewrite H. Qed.

Lemma match_needs_from (t : str) :
  startswith (py "from ") t = false -> match_at deep_import_pattern t = None.
Proof.
  intros H; unfold match_at, deep_import_pattern; cbn [seq exec]; now rewrite H.
Qed.

Lemma no_early_from (b rest : str) :
  b <> [] -> contains (py "from ") b = false ->
  startswith (py "from ") (b ++ py "from " ++ rest) = false.
Proof.
  intros Hne Hc.
  destruct (startswith (py "from ") (b ++ py "from " ++ rest)) eqn:E; [|reflexivity].
  exfalso; apply startswith_iff in E as [r E].
  destruct b as [|c1 [|c2 [|c3 [|c4 [|c5 b]]]]]; try contradiction;
    cbn in E; injection E; intros; subst; discriminate.
Qed.

Lemma contains_suffix (w b1 s : str) :
  contains w (b1 ++ s) = false -> contains w s = false.
Proof.
  intros H; destruct (contains w s) eqn:E; [|reflexivity].
  apply contains_iff in E as (u & v & ->).
  rewrite <- H; symmetry; apply contains_iff.
  exists (b1 ++ u), v; now rewrite <- app_assoc.
Qed.

Lemma contains_sep (s : str) : contains (py "/") s = has "/" s.
Proof.
  induction s as [|c s IH]; [reflexivity|].
  change (contains (py "/") (c :: s))
    with ((Ascii.eqb "/" c && true) || contains (py "/") s).
  change (has "/" (c :: s)) with (Ascii.eqb "/" c || has "/" s).
  now rewrite IH, andb_true_r.
Qed.

Lemma quote_not_newline (q : ascii) : is_quote q = true -> not_newline q = true.
Proof.
  unfold is_quote; intros H; apply orb_true_iff in H as [H|H];
    apply Ascii.eqb_eq in H; subst; reflexivity.
Qed.

Lemma has_forallb_not (c : ascii) (s : str) :
  has c s = false -> forallb (fun x => negb (Ascii.eqb x c)) s = true.
Proof.
  induction s as [|x s IH]; [reflexivity|].
  cbn -[Ascii.eqb]; intros H; apply orb_false_iff in H as [Hx Hs].
  now rewrite Ascii.eqb_sym, Hx, IH.
Qed.

Lemma forallb_not_has (c : ascii) (s : str) :
  forallb (fun x => negb (Ascii.eqb x c)) s = true -> has c s = false.
Proof.
  unfold has; induction s as [|x s IH]; [reflexivity|].
  cbn -[Ascii.eqb]; intros H; apply andb_true_iff in H as [Hx Hs].
  apply negb_true_iff in Hx; now rewrite Ascii.eqb_sym, Hx, IH.
Qed.

(** The match of the pattern on a text that begins with an import of the
    expected shape: the module is the text up to the next separator, the
    inner path runs to the last quote. *)
Lemma deep_match_at (q1 q2 : ascii) (m r after : str) :
  is_quote q1 = true -> is_quote q2 = true ->
  truthy m = true -> has "/" m = false -> has newline r = false ->
  forallb (fun c => negb (is_quote c)) after = true -> has newline after = false ->
  let t := py "from " ++ q1 :: py "@/modules/" ++ m ++ "/"%char :: r ++ q2 :: after in
  match_at deep_import_pattern t
  = Some {| m_whole := consumed t after; m_groups := [(2, r); (1, m)] |}.
Proof.
  intros Hq1 Hq2 Hm Hms Hr Ha Han t; subst t.
  unfold match_at, deep_import_pattern; cbn [seq].
  rewrite exec_cat, exec_lit, exec_cat, exec_cls by assumption.
  rewrite exec_cat, exec_lit, exec_cat, exec_grp, exec_greedy.
  rewrite rep_greedy_commit.
  - replace (1 <=? length m) with true by (now destruct m).
    rewrite consumed_app, exec_cat.
    change ("/"%char :: r ++ q2 :: after) with (py "/" ++ r ++ q2 :: after).
    rewrite exec_lit, exec_cat, exec_grp, exec_greedy.
    erewrite rep_greedy_last; [reflexivity| | | | |].
    + now apply has_forallb_not.
    + now apply quote_not_newline.
    + now apply has_forallb_not.
    + intros b1 b2 ->; cbn [exec].
      destruct b2 as [|c b2]; [reflexivity|].
      rewrite forallb_app in Ha; apply andb_true_iff in Ha as [_ Ha].
      cbn [forallb] in Ha; apply andb_true_iff in Ha as [Hc _].
      apply negb_true_iff in Hc; now rewrite Hc.
    + rewrite exec_cls by assumption.
      change (r ++ q2 :: after) with (r ++ (q2 :: after)); now rewrite consumed_app.
  - now apply has_forallb_not.
  - reflexivity.
  - intros b1 c b2 ->; rewrite exec_cat.
    apply has_false_iff in Hms.
    assert (Hc : Ascii.eqb "/" c = false).
    { destruct (Ascii.eqb "/" c) eqn:E; [|reflexivity].
      apply Ascii.eqb_eq in E; subst c.
      exfalso; apply Hms, in_or_app; right; now left. }
    cbn [exec]; cbn -[Ascii.eqb]; now rewrite Hc.
Qed.

End DeepImportFacts.

Section DeepImportTheorem.
Import PyStr Re AuditScript.

(** What a match of the pattern says about the text it was found in. *)
Lemma deep_match_at_inv (t : str) (m0 : match_obj) :
  match_at deep_import_pattern t = Some m0 ->
  exists q1 m r q2 after,
    t = py "from " ++ q1 :: py "@/modules/" ++ m ++ "/"%char :: r ++ q2 :: after
    /\ is_quote q1 = true /\ is_quote q2 = true
    /\ truthy m = true /\ has "/" m = false /\ has newline r = false
    /\ group m0 1 = Some m /\ group m0 2 = Some r.
Proof.
  unfold match_at, deep_import_pattern; cbn [seq]; intros H.
  rewrite exec_cat in H; apply exec_lit_inv in H as (s1 & -> & H).
  rewrite exec_cat in H; apply exec_cls_inv in H as (q1 & s2 & -> & Hq1 & H).
  rewrite exec_cat in H; apply exec_lit_inv in H as (s3 & -> & H).
  rewrite exec_cat, exec_grp, exec_greedy in H.
  apply rep_greedy_inv in H as (m & s4 & -> & Hm & Hlen & H).
  rewrite consumed_app, exec_cat in H; apply exec_lit_inv in H as (s5 & -> & H).
  rewrite exec_cat, exec_grp, exec_greedy in H.
  apply rep_greedy_inv in H as (r & s6 & -> & Hr & _ & H).
  rewrite consumed_app in H; apply exec_cls_inv in H as (q2 & after & -> & Hq2 & H).
  injection H as <-.
  exists q1, m, r, q2, after; repeat split; try assumption.
  - destruct m; [cbn [length] in Hlen; lia|reflexivity].
  - now apply forallb_not_has.
  - now apply forallb_not_has.
Qed.

(** X1.  The test behind [module_violations] on a line.  A line is
    recorded only if it holds an import
    [from '@/modules/<m>/<rest>'] whose module [<m>] is not the module of
    the containing file and whose [<rest>] holds a separator.  On a line
    with no earlier [from ] and no quote after the one that closes the
    import, [<m>] is the module named by the import and [<rest>] its inner
    path, and the line is recorded exactly when [<m>] differs from the
    module of the file and [<rest>] holds a separator: an import of the
    file's own module is not recorded, nor is an import of a single
    leaf. *)
Lemma module_violation_plain_line (filepath line before : str) (q1 q2 : ascii)
        (m rest after : str) :
  (module_violation filepath line = true ->
   exists before' q1' m' rest' q2' after',
     line = before' ++ py "from " ++ q1' :: py "@/modules/" ++ m' ++ "/"%char
                    :: rest' ++ q2' :: after'
     /\ is_quote q1' = true /\ is_quote q2' = true
     /\ truthy m' = true /\ has "/" m' = false
     /\ opt_eqb (Some m') (current_module filepath) = false
     /\ has "/" rest' = true)
  /\ (line = before ++ py "from " ++ q1 :: py "@/modules/" ++ m ++ "/"%char
                    :: rest ++ q2 :: after ->
      contains (py "from ") before = false ->
      is_quote q1 = true -> is_quote q2 = true ->
      truthy m = true -> has "/" m = false -> has newline rest = false ->
      forallb (fun c => negb (is_quote c)) after = true ->
      has newline after = false ->
      module_violation filepath line
      = negb (opt_eqb (Some m) (current_module filepath)) && has "/" rest).
Proof.
  split.
  - unfold module_violation.
    destruct (search deep_import_pattern line) as [m0|] eqn:E; [|discriminate].
    apply search_inv in E as (b & t & -> & E).
    apply deep_match_at_inv in E
      as (q1' & m' & r' & q2' & after' & -> & Hq1 & Hq2 & Hm & Hms & Hr & -> & ->).
    rewrite contains_sep; intros H; apply andb_true_iff in H as [H1 H2].
    apply negb_true_iff in H1.
    now exists b, q1', m', r', q2', after'.
  - intros -> Hb Hq1 Hq2 Hm Hms Hr Ha Han; unfold module_violation.
    rewrite search_skip.
    + erewrite search_here by (now apply deep_match_at).
      cbn [group lookup m_groups Nat.eqb].
      now rewrite contains_sep.
    + intros b1 c b2 ->.
      apply match_needs_from.
      apply (@no_early_from (c :: b2)); [discriminate|].
      now apply contains_suffix in Hb.
Qed.

Example module_violation_plain_line_examples :
  module_violation (py "src/modules/billing/Bar.ts")
    (py "import { foo } from '@/modules/interactions/services/foo';")
  = true
  /\ module_violation (py "src/modules/interactions/internal/Bar.ts")
       (py "import { foo } from '@/modules/interactions/services/foo';")
     = false
  /\ module_violation (py "src/modules/billing/Bar.ts")
       (py "import { Leaf } from '@/modules/interactions/leaf';")
     = false
  /\ exists before' q1' m' rest' q2' after',
       py "import { foo } from '@/modules/interactions/services/foo';"
       = before' ++ py "from " ++ q1' :: py "@/modules/" ++ m' ++ "/"%char
                 :: rest' ++ q2' :: after'
       /\ is_quote q1' = true /\ is_quote q2' = true
       /\ truthy m' = true /\ has "/" m' = false
       /\ opt_eqb (Some m') (current_module (py "src/modules/billing/Bar.ts")) = false
       /\ has "/" rest' = true.
Proof.
  split; [|split; [|split]].
  - etransitivity;
      [apply (proj2 (@module_violation_plain_line (py "src/modules/billing/Bar.ts")
                (py "import { foo } from '@/modules/interactions/services/foo';")
                (py "import { foo } ") "'" "'" (py "interactions") (py "services/foo")
                (py ";"))); reflexivity|reflexivity].
  - etransitivity;
      [apply (proj2 (@module_violation_plain_line (py "src/modules/interactions/internal/Bar.ts")
                (py "import { foo } from '@/modules/interactions/services/foo';")
                (py "import { foo } ") "'" "'" (py "interactions") (py "services/foo")
                (py ";"))); reflexivity|reflexivity].
  - etransitivity;
      [apply (proj2 (@module_violation_plain_line (py "src/modules/billing/Bar.ts")
                (py "import { Leaf } from '@/modules/interactions/leaf';")
                (py "import { Leaf } ") "'" "'" (py "interactions") (py "leaf")
                (py ";"))); reflexivity|reflexivity].
  - apply (proj1 (@module_violation_plain_line (py "src/modules/billing/Bar.ts")
             (py "import { foo } from '@/modules/interactions/services/foo';")
             [] "'" "'" [] [] [])); vm_compute; reflexivity.
Defined.

(** C10 on the code.  The inner path is read with a greedy repetition, up
    to the last quote of the line.  The import of the single leaf [a/leaf]
    is therefore recorded, for a file of another module, when the line goes
    on with a second quoted text that holds a separator; the same import
    alone on its line is not. *)
Theorem leaf_import_flagged :
  module_violation (py "src/modules/billing/x.ts")
    (py "import { A } from '@/modules/a/leaf'; import { B } from '@/shared/b';")
  = true
  /\ option_map (fun m0 => group m0 2)
       (search deep_import_pattern
          (py "import { A } from '@/modules/a/leaf'; import { B } from '@/shared/b';"))
     = Some (Some (py "leaf'; import { B } from '@/shared/b"))
  /\ module_violation (py "src/modules/billing/x.ts")
       (py "import { A } from '@/modules/a/leaf';")
     = false.
Proof. repeat split; vm_compute; reflexivity. Qed.

End DeepImportTheorem.

(** ** More on the matcher *)

Section MatcherInversion.
Import PyStr Re.

Variable X : Type.

Lemma rep_lazy_first (p : ascii -> bool) (s : str) :
  forall (min : nat) (caps : captures) (k : cont X) (x : X),
    rep_lazy p min s caps k = Some x ->
    exists run s',
      s = run ++ s' /\ forallb p run = true /\ min <= length run
      /\ k s' caps = Some x
      /\ (forall b1 c b2, run = b1 ++ c :: b2 -> min <= length b1 ->
                          k (c :: b2 ++ s') caps = None).
Proof.
  induction s as [|c s IH]; intros min caps k x H; cbn [rep_lazy] in H.
  - destruct (min =? 0) eqn:E; [|discriminate].
    apply Nat.eqb_eq in E; subst.
    destruct (k [] caps) eqn:Ek; [|discriminate]. injection H as ->.
    exists [], []; repeat split; [lia|exact Ek|].
    intros [|? ?] ? ? ?; discriminate.
  - destruct (if min =? 0 then k (c :: s) caps else None) eqn:Estop.
    + injection H as ->.
      destruct (min =? 0) eqn:E; [|discriminate].
      apply Nat.eqb_eq in E; subst.
      exists [], (c :: s); repeat split; [lia|exact Estop|].
      intros [|? ?] ? ? ?; discriminate.
    + destruct (p c) eqn:Ep; [|discriminate].
      apply IH in H as (run & s' & -> & Hrun & Hmin & Hk & Hearly).
      exists (c :: run), s'; repeat split.
      * cbn [forallb]; now rewrite Ep.
      * cbn [length]; lia.
      * exact Hk.
      * intros [|d b1] c' b2 Heq Hlen; injection Heq as <- Heq.
        -- subst run. cbn [length] in Hlen.
           replace min with 0 in Estop by lia. exact Estop.
        -- apply (Hearly b1 c' b2 Heq). cbn [length] in Hlen; lia.
Qed.

(** A pattern without groups reads a prefix of the input and hands the
    captures on as they were. *)
Lemma exec_groupless (r : regex) :
  groupless r = true ->
  forall (s : str) (caps : captures) (k : cont X) (x : X),
    exec r s caps k = Some x ->
    exists pre s', s = pre ++ s' /\ k s' caps = Some x.
Proof.
  induction r as [l|p|g min p|n r IH|r1 IH1 r2 IH2|r1 IH1 r2 IH2];
    intros Hg s caps k x H; cbn [groupless] in Hg.
  - apply exec_lit_inv in H as (s' & -> & H). now exists l, s'.
  - apply exec_cls_inv in H as (c & s' & -> & _ & H). now exists [c], s'.
  - cbn [exec] in H. destruct g.
    + apply rep_greedy_inv in H as (run & s' & -> & _ & _ & H). now exists run, s'.
    + apply rep_lazy_first in H as (run & s' & -> & _ & _ & H & _). now exists run, s'.
  - discriminate.
  - apply andb_true_iff in Hg as [Hg1 Hg2].
    rewrite exec_cat in H.
    apply (IH1 Hg1) in H as (pre1 & s1 & -> & H).
    apply (IH2 Hg2) in H as (pre2 & s2 & -> & H).
    exists (pre1 ++ pre2), s2; split; [now rewrite app_assoc|exact H].
  - apply andb_true_iff in Hg as [Hg1 Hg2].
    cbn [exec] in H. destruct (exec r1 s caps k) eqn:E.
    + injection H as ->. now apply (IH1 Hg1) in E.
    + now apply (IH2 Hg2) in H.
Qed.

End MatcherInversion.

(** ** The occurrences of the import pattern *)

Section OccurrenceShape.
Import PyStr Re RefactorImports.

Lemma forallb_from_In (p : ascii -> bool) (l : str) :
  (forall b1 c b2, l = b1 ++ c :: b2 -> p c = true) -> forallb p l = true.
Proof.
  induction l as [|c l IH]; intros H; [reflexivity|].
  cbn [forallb]; rewrite (H [] c l eq_refl), IH; [reflexivity|].
  intros b1 d b2 ->; now apply (H (c :: b1) d b2).
Qed.

(** One alternative of the pattern: a clause that begins with a keyword,
    the specifier read lazily, the closing quote. *)
Lemma clause_shape (n : nat) (kw : str) (F : regex) (s : str) (m : match_obj) :
  groupless F = true ->
  exec (seq [Grp n (Cat (Lit kw) F); Grp (S n) (Rep false 0 not_newline);
             Grp (S (S n)) (Cls is_quote)]) s []
       (fun s' caps => Some {| m_whole := consumed s s'; m_groups := caps |})
  = Some m ->
  exists pre path q rest,
    s = (kw ++ pre) ++ path ++ q :: rest
    /\ is_quote q = true
    /\ forallb not_newline path = true
    /\ forallb (fun c => negb (is_quote c)) path = true
    /\ m = {| m_whole := (kw ++ pre) ++ path ++ [q];
              m_groups := [(S (S n), [q]); (S n, path); (n, kw ++ pre)] |}.
Proof.
  intros HF H; cbn [seq] in H.
  rewrite exec_cat, exec_grp, exec_cat in H.
  apply exec_lit_inv in H as (s0 & Hs & H).
  apply (@exec_groupless _ F HF) in H as (pre & s1 & -> & H).
  rewrite exec_cat, exec_grp in H; cbn [exec] in H.
  apply rep_lazy_first in H as (path & s2 & -> & Hpath & _ & H & Hearly).
  cbn beta in H, Hearly.
  destruct s2 as [|q rest]; [discriminate|].
  destruct (is_quote q) eqn:Hq; [|discriminate].
  injection H as <-.
  exists pre, path, q, rest.
  assert (Es : s = (kw ++ pre) ++ path ++ q :: rest)
    by (rewrite Hs; now rewrite <- !app_assoc).
  repeat split; try assumption.
  - apply forallb_from_In; intros b1 c b2 Heq.
    specialize (Hearly b1 c b2 Heq (Nat.le_0_l _)).
    now destruct (is_quote c).
  - assert (C1 : consumed s rest = (kw ++ pre) ++ path ++ [q]).
    { rewrite Es.
      replace ((kw ++ pre) ++ path ++ q :: rest)
        with (((kw ++ pre) ++ path ++ [q]) ++ rest)
        by (now rewrite <- !app_assoc).
      apply consumed_app. }
    assert (C2 : consumed (q :: rest) rest = [q])
      by (apply (consumed_app [q] rest)).
    assert (C3 : consumed (path ++ q :: rest) (q :: rest) = path)
      by apply consumed_app.
    assert (C4 : consumed s (path ++ q :: rest) = kw ++ pre)
      by (rewrite Es; apply consumed_app).
    now rewrite C1, C2, C3, C4.
Qed.

(** Every occurrence the scanner reports: which groups are set, how they
    make up the matched text, and what the specifier cannot hold. *)
Lemma occurrence_shape (s : str) (m : match_obj) :
  match_at IMPORT_REGEX s = Some m ->
  exists prefix path q rest,
    s = prefix ++ path ++ q :: rest
    /\ m_whole m = prefix ++ path ++ [q]
    /\ matched_groups m = Some (Some prefix, Some path, Some [q])
    /\ (startswith (py "import") prefix = true
        \/ startswith (py "export") prefix = true
        \/ startswith (py "require(") prefix = true)
    /\ is_quote q = true
    /\ forallb not_newline path = true
    /\ forallb (fun c => negb (is_quote c)) path = true.
Proof.
  unfold match_at, IMPORT_REGEX; cbv zeta; intros H.
  cbn [exec] in H.
  match type of H with
  | match ?a with Some _ => _ | None => _ end = _ => destruct a eqn:E1
  end.
  - injection H as ->.
    apply clause_shape in E1 as (pre & path & q & rest & -> & Hq & Hn & Hp & ->);
      [|reflexivity].
    exists (py "import" ++ pre), path, q, rest; repeat split; try assumption.
    left; apply startswith_app.
  - match type of H with
    | match ?a with Some _ => _ | None => _ end = _ => destruct a eqn:E2
    end.
    + injection H as ->.
      apply clause_shape in E2 as (pre & path & q & rest & -> & Hq & Hn & Hp & ->);
        [|reflexivity].
      exists (py "export" ++ pre), path, q, rest; repeat split; try assumption.
      right; left; apply startswith_app.
    + apply clause_shape in H as (pre & path & q & rest & -> & Hq & Hn & Hp & ->);
        [|reflexivity].
      exists (py "require(" ++ pre), path, q, rest; repeat split; try assumption.
      right; right; apply startswith_app.
Qed.

End OccurrenceShape.

(** ** The rewrite pass never raises *)

Section PassTotal.
Import PyStr Re RefactorImports.

Lemma sub_aux_ok (r : regex) (repl : match_obj -> result str) :
  (forall t m, match_at r t = Some m -> exists out, repl m = Ok out) ->
  forall s skip, exists out, sub_aux r repl s skip = Ok out.
Proof.
  intros Hrepl; induction s as [|c s IH]; intros skip; [now eexists|].
  cbn [sub_aux]; destruct skip as [|n]; [|apply IH].
  destruct (match_at r (c :: s)) as [m|] eqn:E.
  - destruct (Hrepl _ _ E) as [new ->]; cbn [bind].
    destruct (length (m_whole m)) as [|n].
    + destruct (IH 0) as [rest ->]; now eexists.
    + destruct (IH n) as [rest ->]; now eexists.
  - destruct (IH 0) as [rest ->]; now eexists.
Qed.

(** What [replacer] answers on an occurrence with all three groups set. *)
Lemma replacer_answers (ROOT_DIR filepath : str) (m : match_obj)
      (prefix path suffix : str) :
  matched_groups m = Some (Some prefix, Some path, Some suffix) ->
  replacer ROOT_DIR filepath m = Ok (m_whole m)
  \/ exists aliased,
       replacer ROOT_DIR filepath m = Ok (prefix ++ aliased ++ suffix)
       /\ startswith (py "@/") aliased = true
       /\ startswith (py ".") path = true.
Proof.
  intros Hm; unfold replacer; rewrite Hm.
  destruct (startswith (py ".") path) eqn:Hp; cbn [negb]; [|now left].
  destruct (resolve_path_ok ROOT_DIR filepath path) as [resolved ->]; cbn [bind].
  destruct (startswith (py "..") resolved); [now left|].
  destruct (get_alias_for_path resolved) as [aliased|] eqn:Ea; [|now left].
  apply get_alias_sigil in Ea.
  rewrite replace_char_sep.
  destruct (truthy aliased); [|now left].
  destruct (rewrite_wanted path aliased); [|now left].
  right; exists aliased; now repeat split.
Qed.

(** The rewrite pass returns a new content for every content, every file
    path and every root: the scanner always sets the three groups
    [replacer] reads, and the resolver is never given an empty path. *)
Lemma rewrite_content_returns (ROOT_DIR filepath content : str) :
  exists new_content, rewrite_content ROOT_DIR filepath content = Ok new_content.
Proof.
  unfold rewrite_content, sub; apply sub_aux_ok.
  intros t m Hm.
  apply occurrence_shape in Hm as (prefix & path & q & rest & _ & _ & Hg & _).
  destruct (replacer_answers ROOT_DIR filepath m Hg) as [->|(aliased & -> & _)];
    now eexists.
Qed.

(** X2.  In an occurrence only the specifier can change.  The text of
    every occurrence is a clause that begins with [import], [export] or
    [require(], then the specifier, which holds no quote and no newline,
    then one quote; [replacer] returns either that text or the same clause
    and quote around an alias that begins with [@/]. *)
Theorem only_the_specifier_changes (ROOT_DIR filepath s : str) (m : match_obj) :
  match_at IMPORT_REGEX s = Some m ->
  exists clause specifier q,
    m_whole m = clause ++ specifier ++ [q]
    /\ (startswith (py "import") clause = true
        \/ startswith (py "export") clause = true
        \/ startswith (py "require(") clause = true)
    /\ is_quote q = true
    /\ forallb (fun c => not_newline c && negb (is_quote c)) specifier = true
    /\ (replacer ROOT_DIR filepath m = Ok (clause ++ specifier ++ [q])
        \/ exists aliased,
             replacer ROOT_DIR filepath m = Ok (clause ++ aliased ++ [q])
             /\ startswith (py "@/") aliased = true
             /\ startswith (py ".") specifier = true).
Proof.
  intros Hm.
  apply occurrence_shape in Hm
    as (prefix & path & q & rest & _ & Hw & Hg & Hkw & Hq & Hn & Hp).
  exists prefix, path, q; repeat split; try assumption.
  - rewrite forallb_forall in *; intros c Hc.
    now rewrite (Hn c Hc), (Hp c Hc).
  - rewrite <- Hw. apply (replacer_answers ROOT_DIR filepath m Hg).
Qed.

Lemma only_the_specifier_changes_witness :
  exists clause specifier q,
    py "import { Friend } from '../../../../src/db/models/Friend'"
    = clause ++ specifier ++ [q]
    /\ (startswith (py "import") clause = true
        \/ startswith (py "export") clause = true
        \/ startswith (py "require(") clause = true)
    /\ is_quote q = true
    /\ forallb (fun c => not_newline c && negb (is_quote c)) specifier = true
    /\ (replacer (py "/repo") (py "/repo/src/modules/billing/ui/Invoice.tsx") friend_match
        = Ok (clause ++ specifier ++ [q])
        \/ exists aliased,
             replacer (py "/repo") (py "/repo/src/modules/billing/ui/Invoice.tsx")
               friend_match
             = Ok (clause ++ aliased ++ [q])
             /\ startswith (py "@/") aliased = true
             /\ startswith (py ".") specifier = true).
Proof.
  apply (@only_the_specifier_changes (py "/repo")
           (py "/repo/src/modules/billing/ui/Invoice.tsx")
           (py "import { Friend } from '../../../../src/db/models/Friend'; // x")
           friend_match).
  vm_compute; reflexivity.
Defined.

Lemma scan_aux_none (r : regex) (s : str) :
  (forall b t, s = b ++ t -> match_at r t = None) ->
  forall skip, scan_aux r s skip = [].
Proof.
  induction s as [|c s IH]; intros H skip; [reflexivity|].
  cbn [scan_aux]; destruct skip as [|n].
  - rewrite (H [] (c :: s) eq_refl).
    apply IH; intros b t ->; now apply (H (c :: b) t).
  - apply IH; intros b t ->; now apply (H (c :: b) t).
Qed.

(** X3.  A content that holds none of the texts [import], [export] and
    [require(] comes out of the pass as it went in. *)
Theorem no_keyword_no_change (ROOT_DIR filepath content : str) :
  contains (py "import") content = false ->
  contains (py "export") content = false ->
  contains (py "require(") content = false ->
  rewrite_content ROOT_DIR filepath content = Ok content.
Proof.
  intros Hi He Hr; apply sub_stable.
  unfold scan; rewrite scan_aux_none; [intros m []|].
  intros b t ->.
  destruct (match_at IMPORT_REGEX t) as [m|] eqn:E; [exfalso|reflexivity].
  apply occurrence_shape in E as (prefix & path & q & rest & -> & _ & _ & Hkw & _).
  apply contains_suffix in Hi, He, Hr.
  destruct Hkw as [H|[H|H]]; apply startswith_iff in H as [r ->].
  - enough (contains (py "import") ((py "import" ++ r) ++ path ++ q :: rest) = true)
      by congruence.
    apply contains_iff; exists [], (r ++ path ++ q :: rest); now rewrite <- app_assoc.
  - enough (contains (py "export") ((py "export" ++ r) ++ path ++ q :: rest) = true)
      by congruence.
    apply contains_iff; exists [], (r ++ path ++ q :: rest); now rewrite <- app_assoc.
  - enough (contains (py "require(") ((py "require(" ++ r) ++ path ++ q :: rest) = true)
      by congruence.
    apply contains_iff; exists [], (r ++ path ++ q :: rest); now rewrite <- app_assoc.
Qed.

Lemma no_keyword_no_change_witness :
  rewrite_content (py "/repo") (py "/repo/src/util.ts")
    (py "const path = '../../src/db'; console.log(path);")
  = Ok (py "const path = '../../src/db'; console.log(path);").
Proof.
  apply (@no_keyword_no_change (py "/repo") (py "/repo/src/util.ts")
           (py "const path = '../../src/db'; console.log(path);")); reflexivity.
Defined.

End PassTotal.

(** ** The scanner, read as a function on texts *)

Section ScannerEngine.
Import PyStr Re RefactorImports.

Lemma span_spec (p : ascii -> bool) (s : str) :
  s = fst (span p s) ++ snd (span p s)
  /\ forallb p (fst (span p s)) = true
  /\ match snd (span p s) with
     | [] => true
     | c :: _ => negb (p c)
     end = true.
Proof.
  induction s as [|c s (IH1 & IH2 & IH3)]; [now repeat split|].
  cbn [span]; destruct (p c) eqn:E; cbn [fst snd app forallb].
  - rewrite E; repeat split; [now f_equal|assumption|assumption].
  - repeat split. now rewrite E.
Qed.

Lemma span_app (p : ascii -> bool) (run s : str) :
  forallb p run = true ->
  match s with
  | [] => true
  | c :: _ => negb (p c)
  end = true ->
  span p (run ++ s) = (run, s).
Proof.
  intros Hrun Hs; induction run as [|c run IH]; cbn [app].
  - destruct s as [|c s]; [reflexivity|].
    cbn [span]; apply negb_true_iff in Hs; now rewrite Hs.
  - cbn [forallb] in Hrun; apply andb_true_iff in Hrun as [Hc Hrun].
    cbn [span]; rewrite Hc, (IH Hrun); reflexivity.
Qed.

Lemma space_not_quote (c : ascii) : is_space c = true -> is_quote c = false.
Proof.
  intros H; destruct (is_quote c) eqn:E; [|reflexivity].
  unfold is_quote in E; apply orb_true_iff in E as [E|E];
    apply Ascii.eqb_eq in E; subst c; discriminate.
Qed.

Lemma find_tail_spec (v path rest : str) (q : ascii) :
  find_tail v = Some (path, q, rest) ->
  v = path ++ q :: rest /\ plain path = true /\ is_quote q = true.
Proof.
  revert path; induction v as [|c v IH]; intros path H; [discriminate|].
  cbn [find_tail] in H. destruct (is_quote c) eqn:Eq.
  - injection H as <- <- <-; now repeat split.
  - destruct (not_newline c) eqn:En; [|discriminate].
    destruct (find_tail v) as [[[p q'] r]|]; [|discriminate].
    injection H as <- <- <-.
    destruct (IH p eq_refl) as (-> & Hp & Hq).
    repeat split; [|assumption].
    unfold plain; cbn [forallb]; now rewrite En, Eq.
Qed.

Lemma find_tail_plain (path rest : str) (q : ascii) :
  plain path = true -> is_quote q = true ->
  find_tail (path ++ q :: rest) = Some (path, q, rest).
Proof.
  intros Hp Hq; induction path as [|c path IH]; cbn [app find_tail].
  - now rewrite Hq.
  - unfold plain in Hp; cbn [forallb] in Hp.
    apply andb_true_iff in Hp as [Hc Hp]; apply andb_true_iff in Hc as [Hn Hc].
    apply negb_true_iff in Hc; rewrite Hc, Hn, (IH Hp); reflexivity.
Qed.

(** The lazy specifier and the closing quote, as the matcher reads them. *)
Lemma path_exec (X : Type) (n : nat) (caps : captures)
      (g : str -> captures -> X) :
  forall (t d V : str),
    V = d ++ t ->
    rep_lazy not_newline 0 t caps
      (fun s' caps' =>
         exec (Grp (S (S n)) (Cls is_quote)) s' ((S n, consumed V s') :: caps')
              (fun s'' caps'' => Some (g s'' caps'')))
    = match find_tail t with
      | Some (path, q, rest) =>
          Some (g rest ((S (S n), [q]) :: (S n, d ++ path) :: caps))
      | None => None
      end.
Proof.
  induction t as [|c t IH]; intros d V HV; [reflexivity|].
  cbn [rep_lazy Nat.eqb exec find_tail pred].
  destruct (is_quote c) eqn:Eq.
  - change (consumed (c :: t) t) with (consumed ([c] ++ t) t).
    rewrite (consumed_app [c] t), HV, consumed_app, app_nil_r. reflexivity.
  - destruct (not_newline c); [|reflexivity].
    etransitivity; [exact (IH (d ++ [c]) V ltac:(now rewrite <- app_assoc))|].
    destruct (find_tail t) as [[[path q] rest]|]; [|reflexivity].
    now rewrite <- app_assoc.
Qed.

(** The end of a clause, as the matcher reads it. *)
Lemma from_exec (X : Type) (u : str) (caps : captures) (k : cont X) :
  exec (Cat (Lit (py "from")) (Cat (Rep true 1 is_space) (Cls is_quote))) u caps k
  = match from_here u with
    | Some (clause_end, v) => k v caps
    | None => None
    end.
Proof.
  cbn [exec]; unfold from_here.
  destruct (startswith (py "from") u) eqn:E; [|reflexivity].
  change (length (py "from")) with 4.
  destruct (span_spec is_space (skipn 4 u)) as (Hs & Hrun & Hhead).
  destruct (span is_space (skipn 4 u)) as [W t]; cbn [fst snd] in *.
  rewrite Hs.
  rewrite rep_greedy_commit; try assumption.
  - destruct W as [|w W]; [reflexivity|].
    cbn [length Nat.leb].
    destruct t as [|q1 v]; [reflexivity|].
    now destruct (is_quote q1).
  - intros b1 c b2 ->.
    rewrite forallb_app in Hrun; apply andb_true_iff in Hrun as [_ Hrun].
    cbn [forallb] in Hrun; apply andb_true_iff in Hrun as [Hc _].
    now rewrite (space_not_quote _ Hc).
Qed.

Lemma from_here_spec (u clause_end v : str) :
  from_here u = Some (clause_end, v) ->
  u = clause_end ++ v
  /\ exists W q1,
       clause_end = py "from" ++ W ++ [q1]
       /\ W <> [] /\ forallb is_space W = true /\ is_quote q1 = true.
Proof.
  unfold from_here; destruct (startswith (py "from") u) eqn:E; [|discriminate].
  apply startswith_split in E; change (length (py "from")) with 4 in E.
  destruct (span_spec is_space (skipn 4 u)) as (Hs & Hrun & _).
  destruct (span is_space (skipn 4 u)) as [W t]; cbn [fst snd] in *.
  destruct W as [|w W]; [discriminate|].
  destruct t as [|q1 t]; [discriminate|].
  destruct (is_quote q1) eqn:Hq; [|discriminate].
  intros H; injection H as <- <-.
  split.
  - rewrite E, Hs. cbn [py list_ascii_of_string app].
    do 5 f_equal. now rewrite <- app_assoc.
  - exists (w :: W), q1; repeat split; [discriminate|assumption|assumption].
Qed.

Lemma cand_spec (u clause_end path rest : str) (q : ascii) :
  cand u = Some (clause_end, path, q, rest) ->
  u = clause_end ++ path ++ q :: rest
  /\ plain path = true /\ is_quote q = true
  /\ exists W q1,
       clause_end = py "from" ++ W ++ [q1]
       /\ W <> [] /\ forallb is_space W = true /\ is_quote q1 = true.
Proof.
  unfold cand; destruct (from_here u) as [[ce v]|] eqn:E; [|discriminate].
  destruct (find_tail v) as [[[p q'] r]|] eqn:F; [|discriminate].
  intros H; injection H as <- <- <- <-.
  apply from_here_spec in E as (-> & HW).
  apply find_tail_spec in F as (-> & Hp & Hq).
  now repeat split.
Qed.

Lemma body_scan_spec (t : str) :
  forall b path q rest,
    body_scan t = Some (b, path, q, rest) ->
    t = b ++ path ++ q :: rest
    /\ plain path = true /\ is_quote q = true
    /\ exists b0 q1, b = b0 ++ [q1] /\ is_quote q1 = true.
Proof.
  induction t as [|c t IH]; intros b path q rest H; cbn [body_scan] in H.
  - destruct (cand []) as [[[[ce p] q'] r]|] eqn:E; [|discriminate].
    injection H as <- <- <- <-.
    apply cand_spec in E as (E & Hp & Hq & W & q1 & -> & _ & _ & Hq1).
    repeat split; try assumption.
    exists (py "from" ++ W), q1; split; [now rewrite <- app_assoc|assumption].
  - destruct (cand (c :: t)) as [[[[ce p] q'] r]|] eqn:E.
    + injection H as <- <- <- <-.
      apply cand_spec in E as (E & Hp & Hq & W & q1 & -> & _ & _ & Hq1).
      repeat split; try assumption.
      exists (py "from" ++ W), q1; split; [now rewrite <- app_assoc|assumption].
    + destruct (not_newline c); [|discriminate].
      destruct (body_scan t) as [[[[b' p] q'] r]|]; [|discriminate].
      injection H as <- <- <- <-.
      destruct (IH b' p q' r eq_refl) as (-> & Hp & Hq & b0 & q1 & -> & Hq1).
      repeat split; try assumption.
      now exists (c :: b0), q1.
Qed.

(** The end of a clause and the specifier after it, as the matcher reads
    them; [s] is the text the match began in. *)
Lemma cand_exec (n : nat) (s u : str) :
  exec (Cat (Lit (py "from")) (Cat (Rep true 1 is_space) (Cls is_quote))) u []
    (fun v caps' =>
       exec (Cat (Grp (S n) (Rep false 0 not_newline)) (Grp (S (S n)) (Cls is_quote)))
            v ((n, consumed s v) :: caps')
            (fun s' caps => Some {| m_whole := consumed s s'; m_groups := caps |}))
  = match cand u with
    | Some (clause_end, path, q, rest) =>
        Some {| m_whole := consumed s rest;
                m_groups := [(S (S n), [q]); (S n, path);
                             (n, consumed s (path ++ q :: rest))] |}
    | None => None
    end.
Proof.
  rewrite from_exec; unfold cand.
  destruct (from_here u) as [[ce v]|]; [|reflexivity].
  etransitivity;
    [exact (@path_exec _ n [(n, consumed s v)]
              (fun s' caps => {| m_whole := consumed s s'; m_groups := caps |})
              v [] v eq_refl)|].
  destruct (find_tail v) as [[[path q] rest]|] eqn:F; [|reflexivity].
  apply find_tail_spec in F as (-> & _ & _). reflexivity.
Qed.

(** The lazy body of a clause, as the matcher reads it. *)
Lemma body_exec (n : nat) (s : str) :
  forall t,
    rep_lazy not_newline 0 t []
      (fun u caps0 =>
         exec (Cat (Lit (py "from")) (Cat (Rep true 1 is_space) (Cls is_quote))) u caps0
           (fun v caps' =>
              exec (Cat (Grp (S n) (Rep false 0 not_newline))
                        (Grp (S (S n)) (Cls is_quote)))
                   v ((n, consumed s v) :: caps')
                   (fun s' caps => Some {| m_whole := consumed s s'; m_groups := caps |})))
    = match body_scan t with
      | Some (b, path, q, rest) =>
          Some {| m_whole := consumed s rest;
                  m_groups := [(S (S n), [q]); (S n, path);
                               (n, consumed s (path ++ q :: rest))] |}
      | None => None
      end.
Proof.
  induction t as [|c t IH]; cbn [rep_lazy Nat.eqb pred body_scan]; rewrite cand_exec.
  - destruct (cand []) as [[[[ce p] q] r]|]; reflexivity.
  - destruct (cand (c :: t)) as [[[[ce p] q] r]|]; [reflexivity|].
    destruct (not_newline c); [|reflexivity].
    rewrite IH. now destruct (body_scan t) as [[[[b p] q] r]|].
Qed.

Lemma rep_greedy_max (X : Type) (p : ascii -> bool) (run s2 : str) (caps : captures)
      (k : cont X) (x : X) :
  forall min,
    forallb p run = true ->
    match s2 with
    | [] => true
    | c :: _ => negb (p c)
    end = true ->
    min <= length run ->
    k s2 caps = Some x ->
    rep_greedy p min (run ++ s2) caps k = Some x.
Proof.
  induction run as [|c run IH]; intros min Hrun Hs2 Hmin Hk.
  - cbn [length] in Hmin; assert (min = 0) by lia; subst min; cbn [app].
    destruct s2 as [|c s']; cbn [rep_greedy Nat.eqb]; [exact Hk|].
    apply negb_true_iff in Hs2; now rewrite Hs2.
  - cbn [forallb] in Hrun; apply andb_true_iff in Hrun as [Hc Hrun].
    cbn [app rep_greedy]; rewrite Hc.
    rewrite (IH (pred min)); [reflexivity|assumption|assumption| |assumption].
    cbn [length] in Hmin; lia.
Qed.

(** White space in front of a line gives no clause end a place. *)
Lemma body_scan_spaces (run t : str) :
  forallb is_space run = true -> body_scan t = None -> body_scan (run ++ t) = None.
Proof.
  intros Hrun Ht; induction run as [|c run IH]; [exact Ht|].
  cbn [forallb] in Hrun; apply andb_true_iff in Hrun as [Hc Hrun].
  cbn [app body_scan].
  replace (cand (c :: run ++ t)) with (@None (str * str * ascii * str)).
  - rewrite (IH Hrun). now destruct (not_newline c).
  - unfold cand, from_here.
    replace (startswith (py "from") (c :: run ++ t)) with false; [reflexivity|].
    cbn -[Ascii.eqb]. destruct (Ascii.eqb "f" c) eqn:E; [|reflexivity].
    apply Ascii.eqb_eq in E; subst c; discriminate.
Qed.

Lemma exec_lit_if (X : Type) (l s : str) (caps : captures) (k : cont X) :
  exec (Lit l) s caps k = if startswith l s then k (skipn (length l) s) caps else None.
Proof. reflexivity. Qed.

Lemma exec_cls_if (X : Type) (p : ascii -> bool) (c : ascii) (s : str)
      (caps : captures) (k : cont X) :
  exec (Cls p) (c :: s) caps k = if p c then k s caps else None.
Proof. reflexivity. Qed.

(** An alternative with a [from] clause, as the matcher reads it. *)
Lemma from_alt_exec (n : nat) (kw s : str) :
  exec (seq [ Grp n (seq [ Lit kw; Rep true 1 is_space; Rep false 0 not_newline;
                           Lit (py "from"); Rep true 1 is_space; Cls is_quote ]);
              Grp (S n) (Rep false 0 not_newline);
              Grp (S (S n)) (Cls is_quote) ])
       s [] (fun s' caps => Some {| m_whole := consumed s s'; m_groups := caps |})
  = match from_alt kw s with
    | Some (prefix, path, q, rest) => Some (occurrence n prefix path q)
    | None => None
    end.
Proof.
  change (exec _ s [] _)
    with (exec (Lit kw) s []
            (fun s0 caps0 =>
               rep_greedy is_space 1 s0 caps0
                 (fun s1 caps1 =>
                    rep_lazy not_newline 0 s1 caps1
                      (fun u caps2 =>
                         exec (Cat (Lit (py "from"))
                                   (Cat (Rep true 1 is_space) (Cls is_quote))) u caps2
                           (fun v caps' =>
                              exec (Cat (Grp (S n) (Rep false 0 not_newline))
                                        (Grp (S (S n)) (Cls is_quote)))
                                   v ((n, consumed s v) :: caps')
                                   (fun s' caps =>
                                      Some {| m_whole := consumed s s';
                                              m_groups := caps |})))))).
  rewrite exec_lit_if; cbn beta; unfold from_alt.
  destruct (startswith kw s) eqn:E; [|reflexivity].
  apply startswith_split in E.
  destruct (span_spec is_space (skipn (length kw) s)) as (Hs & Hrun & Hhead).
  destruct (span is_space (skipn (length kw) s)) as [ws s1]; cbn [fst snd] in *.
  rewrite Hs.
  pose proof (body_exec n s s1) as Hbody.
  destruct (body_scan s1) as [[[[b path] q] rest]|] eqn:Eb.
  - destruct ws as [|w ws].
    + cbn [app]. destruct s1 as [|c s1]; [reflexivity|].
      cbn [rep_greedy Nat.eqb]. apply negb_true_iff in Hhead; now rewrite Hhead.
    + erewrite rep_greedy_max;
        [|exact Hrun|exact Hhead|cbn [length]; lia|exact Hbody].
      apply body_scan_spec in Eb as (Hs1 & _).
      assert (Es : s = (kw ++ (w :: ws) ++ b) ++ path ++ q :: rest)
        by (rewrite E, Hs, Hs1; now rewrite <- !app_assoc).
      unfold occurrence; f_equal; f_equal.
      * rewrite Es at 1.
        replace ((kw ++ (w :: ws) ++ b) ++ path ++ q :: rest)
          with (((kw ++ (w :: ws) ++ b) ++ path ++ [q]) ++ rest)
          by (now rewrite <- !app_assoc).
        apply consumed_app.
      * rewrite Es at 1. now rewrite consumed_app.
  - rewrite rep_greedy_commit; [| exact Hrun | exact Hhead |].
    + rewrite Hbody. now destruct ws; destruct (1 <=? _).
    + intros b1 c b2 ->.
      rewrite forallb_app in Hrun; apply andb_true_iff in Hrun as [_ Hrun].
      rewrite (body_exec n s (c :: b2 ++ s1)).
      change (c :: b2 ++ s1) with ((c :: b2) ++ s1).
      now rewrite body_scan_spaces.
Qed.

(** The alternative for [require], as the matcher reads it. *)
Lemma require_alt_exec (s : str) :
  exec (seq [ Grp 7 (seq [ Lit (py "require("); Cls is_quote ]);
              Grp 8 (Rep false 0 not_newline);
              Grp 9 (Cls is_quote) ])
       s [] (fun s' caps => Some {| m_whole := consumed s s'; m_groups := caps |})
  = match require_alt s with
    | Some (prefix, path, q, rest) => Some (occurrence 7 prefix path q)
    | None => None
    end.
Proof.
  change (exec _ s [] _)
    with (exec (Lit (py "require(")) s []
            (fun s0 caps0 =>
               exec (Cls is_quote) s0 caps0
                 (fun v caps' =>
                    rep_lazy not_newline 0 v ((7, consumed s v) :: caps')
                      (fun s' caps1 =>
                         exec (Grp 9 (Cls is_quote)) s' ((8, consumed v s') :: caps1)
                           (fun s'' caps =>
                              Some {| m_whole := consumed s s''; m_groups := caps |}))))).
  rewrite exec_lit_if; cbn beta; unfold require_alt.
  destruct (startswith (py "require(") s) eqn:E; [|reflexivity].
  apply startswith_split in E; change (length (py "require(")) with 8 in *.
  destruct (skipn 8 s) as [|q1 v]; [reflexivity|].
  rewrite exec_cls_if; cbn beta.
  destruct (is_quote q1); [|reflexivity].
  etransitivity;
    [exact (@path_exec _ 7 [(7, consumed s v)]
              (fun s' caps => {| m_whole := consumed s s'; m_groups := caps |})
              v [] v eq_refl)|].
  destruct (find_tail v) as [[[path q] rest]|] eqn:F; [|reflexivity].
  apply find_tail_spec in F as (-> & _ & _).
  unfold occurrence; cbn [app]; f_equal; f_equal.
  - rewrite E at 1.
    replace (py "require(" ++ q1 :: path ++ q :: rest)
      with (((py "require(" ++ [q1]) ++ path ++ [q]) ++ rest)
      by (now rewrite <- !app_assoc).
    apply consumed_app.
  - rewrite E at 1.
    replace (py "require(" ++ q1 :: path ++ q :: rest)
      with ((py "require(" ++ [q1]) ++ path ++ q :: rest)
      by (now rewrite <- !app_assoc).
    now rewrite consumed_app.
Qed.

(** The scanner at the head of a text. *)
Lemma match_at_parts (s : str) :
  match_at IMPORT_REGEX s
  = match parts_at s with
    | Some (n, (prefix, path, q, rest)) => Some (occurrence n prefix path q)
    | None => None
    end.
Proof.
  unfold match_at, IMPORT_REGEX, parts_at; cbv zeta.
  cbn [exec].
  rewrite (from_alt_exec 1 (py "import") s).
  destruct (from_alt (py "import") s) as [[[[prefix path] q] rest]|]; [reflexivity|].
  rewrite (from_alt_exec 4 (py "export") s).
  destruct (from_alt (py "export") s) as [[[[prefix path] q] rest]|]; [reflexivity|].
  rewrite (require_alt_exec s).
  now destruct (require_alt s) as [[[[prefix path] q] rest]|].
Qed.

End ScannerEngine.

Section Respelling.
Import PyStr Re RefactorImports.

Lemma quote_not_space (c : ascii) : is_quote c = true -> is_space c = false.
Proof.
  intros H; destruct (is_space c) eqn:E; [|reflexivity].
  apply space_not_quote in E; congruence.
Qed.

Lemma respelled_refl (s : str) : respelled s s.
Proof. induction s; constructor; assumption. Qed.

Lemma respelled_app_same (a s o : str) : respelled s o -> respelled (a ++ s) (a ++ o).
Proof. intros H; induction a; [exact H|now constructor]. Qed.

Lemma respelled_cons_inv (s o : str) (c : ascii) :
  respelled s (c :: o) ->
  (exists s1, s = c :: s1 /\ respelled s1 o)
  \/ (is_quote c = true
      /\ exists path new q s1 o1,
           o = new ++ q :: o1 /\ s = c :: path ++ q :: s1
           /\ is_quote q = true /\ plain path = true /\ tidy new = true
           /\ respelled s1 o1).
Proof.
  intros H; inversion H; subst.
  - left; eauto.
  - right; split; [assumption|]. now exists path, new, q, s0, o0.
Qed.

(** A text without quotes is spelled as it was. *)
Lemma respelled_app_inv (a : str) :
  forallb (fun c => negb (is_quote c)) a = true ->
  forall s o, respelled s (a ++ o) -> exists s0, s = a ++ s0 /\ respelled s0 o.
Proof.
  induction a as [|c a IH]; intros Ha s o H; [now exists s|].
  cbn [forallb] in Ha; apply andb_true_iff in Ha as [Hc Ha].
  apply negb_true_iff in Hc.
  cbn [app] in H; apply respelled_cons_inv in H as [(s1 & -> & H)|(Hq & _)];
    [|congruence].
  destruct (IH Ha s1 o H) as (s0 & -> & H0). now exists s0.
Qed.

Lemma respelled_head (s o : str) :
  respelled s o ->
  match o with
  | [] => true
  | c :: _ => negb (is_space c)
  end = true ->
  match s with
  | [] => true
  | c :: _ => negb (is_space c)
  end = true.
Proof.
  intros H; inversion H; subst; auto.
Qed.

Lemma spaces_no_quote (W : str) :
  forallb is_space W = true -> forallb (fun c => negb (is_quote c)) W = true.
Proof.
  intros H; rewrite forallb_forall in *; intros c Hc.
  now rewrite space_not_quote by auto.
Qed.

Lemma find_tail_respelled (s o : str) :
  respelled s o ->
  forall x, find_tail o = Some x -> exists y, find_tail s = Some y.
Proof.
  induction 1 as [|c s o H IH|q1 q path new s o Hq1 Hq Hp Hn H IH]; intros x Hx.
  - discriminate.
  - cbn [find_tail] in *. destruct (is_quote c); [now eexists|].
    destruct (not_newline c); [|discriminate].
    destruct (find_tail o) as [[[p q] r]|]; [|discriminate].
    destruct (IH _ eq_refl) as [[[p' q'] r'] ->]. now eexists.
  - cbn [find_tail]; rewrite Hq1. now eexists.
Qed.

Lemma cand_intro (W v path rest : str) (q1 q : ascii) :
  W <> [] -> forallb is_space W = true -> is_quote q1 = true ->
  find_tail v = Some (path, q, rest) ->
  cand (py "from" ++ W ++ q1 :: v) = Some (py "from" ++ W ++ [q1], path, q, rest).
Proof.
  intros HW Hsp Hq1 Hv; unfold cand, from_here.
  rewrite startswith_app.
  change 4 with (length (py "from")); rewrite skipn_app_exact.
  rewrite span_app; [|assumption|now rewrite quote_not_space].
  destruct W as [|w W]; [contradiction|].
  now rewrite Hq1, Hv.
Qed.

Lemma from_no_quote : forallb (fun c => negb (is_quote c)) (py "from") = true.
Proof. reflexivity. Qed.

(** The end of a clause before a specifier is there before the specifier
    was spelled anew. *)
Lemma cand_respelled (s o : str) :
  respelled s o ->
  forall x, cand o = Some x -> exists y, cand s = Some y.
Proof.
  intros H [[[ce p] q] r] Hx.
  apply cand_spec in Hx as (Ho & Hp & Hq & W & q1 & -> & HW & Hsp & Hq1).
  assert (Ho' : o = (py "from" ++ W) ++ q1 :: p ++ q :: r)
    by (rewrite Ho; now rewrite <- !app_assoc).
  rewrite Ho' in H.
  apply respelled_app_inv in H as (s0 & -> & H);
    [|rewrite forallb_app, from_no_quote; now apply spaces_no_quote].
  rewrite <- app_assoc.
  apply respelled_cons_inv in H
    as [(s1 & -> & H)|(_ & path & new & q' & s1 & o1 & _ & -> & Hq' & Hpath & _ & _)].
  - destruct (@find_tail_respelled _ _ H (p, q, r)) as [[[p' q''] r'] Hy];
      [now apply find_tail_plain|].
    eexists; apply cand_intro; eassumption.
  - eexists; apply cand_intro; try eassumption.
    now apply find_tail_plain.
Qed.

Lemma quote_not_from (q : ascii) (l : str) :
  is_quote q = true -> In q (py "from") -> False.
Proof.
  intros Hq Hin; cbn in Hin.
  repeat (destruct Hin as [<-|Hin]; [discriminate|]). contradiction.
Qed.

(** No clause ends inside a text without quotes and white space that a
    quote follows. *)
Lemma from_here_tidy (new o : str) (q : ascii) :
  tidy new = true -> is_quote q = true -> from_here (new ++ q :: o) = None.
Proof.
  intros Hn Hq; unfold from_here.
  destruct (startswith (py "from") (new ++ q :: o)) eqn:E; [|reflexivity].
  apply startswith_iff in E as [r E].
  assert (Hq' : forall c, In c (py "from") -> q <> c)
    by (intros c Hc ->; now apply (@quote_not_from c [])).
  destruct new as [|c1 [|c2 [|c3 [|c4 new]]]]; cbn in E; injection E; intros;
    try (exfalso; subst; cbn in Hq; discriminate).
  subst. cbn [skipn app].
  unfold tidy in Hn; cbn [forallb] in Hn.
  repeat (apply andb_true_iff in Hn as [_ Hn]).
  destruct new as [|c5 new]; cbn [app span].
  - now rewrite quote_not_space.
  - cbn [forallb] in Hn; apply andb_true_iff in Hn as [Hc _].
    apply andb_true_iff in Hc as [Hc _]; apply negb_true_iff in Hc.
    now rewrite Hc.
Qed.

Lemma tidy_plain (s : str) : tidy s = true -> plain s = true.
Proof.
  unfold tidy, plain; rewrite !forallb_forall; intros H c Hc.
  specialize (H c Hc); apply andb_true_iff in H as [Hs Hq].
  rewrite Hq, andb_true_r. unfold not_newline.
  destruct (Ascii.eqb c newline) eqn:E; [|reflexivity].
  apply Ascii.eqb_eq in E; subst c; discriminate.
Qed.

Lemma plain_not_newline (s : str) : plain s = true -> forallb not_newline s = true.
Proof.
  unfold plain; rewrite !forallb_forall; intros H c Hc.
  specialize (H c Hc); now apply andb_true_iff in H as [Hs _].
Qed.

(** A clause end found behind a rewritten specifier lies behind its
    closing quote. *)
Lemma body_scan_skip (new o : str) (q : ascii) :
  tidy new = true -> is_quote q = true ->
  forall x, body_scan (new ++ q :: o) = Some x -> exists y, body_scan o = Some y.
Proof.
  intros Hn Hq; induction new as [|c new IH]; intros x Hx.
  - cbn [app body_scan] in Hx.
    replace (cand (q :: o)) with (@None (str * str * ascii * str)) in Hx.
    + destruct (not_newline q); [|discriminate].
      destruct (body_scan o) as [y|]; [now exists y|discriminate].
    + pose proof (@from_here_tidy [] o q eq_refl Hq) as F; cbn [app] in F.
      unfold cand; now rewrite F.
  - cbn [app body_scan] in Hx.
    replace (cand (c :: new ++ q :: o)) with (@None (str * str * ascii * str)) in Hx.
    + destruct (not_newline c); [|discriminate].
      destruct (body_scan (new ++ q :: o)) as [y|] eqn:E; [|discriminate].
      apply (IH ltac:(unfold tidy in *; cbn [forallb] in Hn;
                      now apply andb_true_iff in Hn as [_ Hn]) y eq_refl).
    + pose proof (@from_here_tidy (c :: new) o q Hn Hq) as F; cbn [app] in F.
      unfold cand; now rewrite F.
Qed.

Lemma body_scan_prepend (a t : str) :
  forallb not_newline a = true ->
  forall x, body_scan t = Some x -> exists y, body_scan (a ++ t) = Some y.
Proof.
  intros Ha x Hx; induction a as [|c a IH]; [now exists x|].
  cbn [forallb] in Ha; apply andb_true_iff in Ha as [Hc Ha].
  destruct (IH Ha) as [[[[b p] q] r] Hy].
  cbn [app body_scan]. destruct (cand (c :: a ++ t)); [now eexists|].
  rewrite Hc, Hy. now eexists.
Qed.

Lemma body_scan_respelled (s o : str) :
  respelled s o ->
  forall x, body_scan o = Some x -> exists y, body_scan s = Some y.
Proof.
  induction 1 as [|c s o H IH|q1 q path new s o Hq1 Hq Hp Hn H IH]; intros x Hx.
  - now exists x.
  - cbn [body_scan] in Hx.
    destruct (cand (c :: o)) as [z|] eqn:E.
    + destruct (@cand_respelled (c :: s) (c :: o) (respelled_same c H) z E) as [y Hy].
      exists y; cbn [body_scan]; now rewrite Hy.
    + destruct (not_newline c) eqn:Hc; [|discriminate].
      destruct (body_scan o) as [z|]; [|discriminate].
      destruct (IH z eq_refl) as [[[[b p] q] r] Hy].
      cbn [body_scan]. destruct (cand (c :: s)); [now eexists|].
      rewrite Hc, Hy. now eexists.
  - cbn [body_scan] in Hx.
    replace (cand (q1 :: new ++ q :: o)) with (@None (str * str * ascii * str)) in Hx
      by (unfold cand, from_here; destruct q1 as [[] [] [] [] [] [] [] []];
          try discriminate Hq1; reflexivity).
    destruct (not_newline q1); [|discriminate].
    destruct (body_scan (new ++ q :: o)) as [z|] eqn:E; [|discriminate].
    destruct (@body_scan_skip new o q Hn Hq z E) as [z' Hz'].
    destruct (IH z' Hz') as [y Hy].
    replace (q1 :: path ++ q :: s) with ((q1 :: path ++ [q]) ++ s)
      by (cbn [app]; now rewrite <- app_assoc).
    apply (@body_scan_prepend (q1 :: path ++ [q]) s) with (x := y); [|exact Hy].
    cbn [forallb]; rewrite forallb_app, (plain_not_newline _ Hp); cbn [forallb].
    now rewrite !quote_not_newline.
Qed.

Lemma from_alt_respelled (kw s o : str) :
  forallb (fun c => negb (is_quote c)) kw = true ->
  respelled s o ->
  forall x, from_alt kw o = Some x -> exists y, from_alt kw s = Some y.
Proof.
  intros Hkw H x Hx; unfold from_alt in Hx.
  destruct (startswith kw o) eqn:E; [|discriminate].
  apply startswith_split in E.
  destruct (span_spec is_space (skipn (length kw) o)) as (Hs & Hrun & Hhead).
  destruct (span is_space (skipn (length kw) o)) as [ws o1]; cbn [fst snd] in *.
  destruct ws as [|w ws]; [discriminate|].
  destruct (body_scan o1) as [z|] eqn:Eb; [|discriminate].
  rewrite E, Hs in H.
  apply respelled_app_inv in H as (s0 & -> & H); [|assumption].
  apply respelled_app_inv in H as (s1 & -> & H); [|now apply spaces_no_quote].
  destruct (@body_scan_respelled _ _ H z Eb) as [[[[b p] q] r] Hy].
  unfold from_alt.
  rewrite startswith_app, skipn_app_exact.
  rewrite span_app; [|assumption|now apply (respelled_head H)].
  rewrite Hy. now eexists.
Qed.

Lemma require_alt_respelled (s o : str) :
  respelled s o ->
  forall x, require_alt o = Some x -> exists y, require_alt s = Some y.
Proof.
  intros H x Hx; unfold require_alt in Hx.
  destruct (startswith (py "require(") o) eqn:E; [|discriminate].
  apply startswith_split in E; change (length (py "require(")) with 8 in E.
  destruct (skipn 8 o) as [|q1 v]; [discriminate|].
  destruct (is_quote q1) eqn:Hq1; [|discriminate].
  destruct (find_tail v) as [z|] eqn:Ev; [|discriminate].
  rewrite E in H.
  apply respelled_app_inv in H as (s0 & -> & H); [|reflexivity].
  unfold require_alt; rewrite startswith_app.
  change 8 with (length (py "require(")); rewrite skipn_app_exact.
  apply respelled_cons_inv in H
    as [(s1 & -> & H)|(_ & path & new & q' & s1 & o1 & _ & -> & Hq' & Hpath & _ & _)];
    rewrite Hq1.
  - destruct (@find_tail_respelled _ _ H z Ev) as [[[p q] r] ->]. now eexists.
  - rewrite find_tail_plain by assumption. now eexists.
Qed.

(** Where the scanner finds nothing, it finds nothing after specifiers
    were spelled anew. *)
Lemma parts_at_respelled (s o : str) :
  respelled s o -> parts_at s = None -> parts_at o = None.
Proof.
  intros H Hs; unfold parts_at in *.
  destruct (from_alt (py "import") s) eqn:E1; [discriminate|].
  destruct (from_alt (py "export") s) eqn:E2; [discriminate|].
  destruct (require_alt s) eqn:E3; [discriminate|].
  destruct (from_alt (py "import") o) as [x|] eqn:F1.
  { destruct (@from_alt_respelled (py "import") _ _ eq_refl H x F1); congruence. }
  destruct (from_alt (py "export") o) as [x|] eqn:F2.
  { destruct (@from_alt_respelled (py "export") _ _ eq_refl H x F2); congruence. }
  destruct (require_alt o) as [x|] eqn:F3; [|reflexivity].
  destruct (@require_alt_respelled _ _ H x F3); congruence.
Qed.

(** Two texts that agree up to a first quote. *)
Lemma quote_split (a : str) :
  forallb (fun c => negb (is_quote c)) a = true ->
  forall (b y z : str) (qa qb : ascii),
    is_quote qb = true ->
    a ++ qa :: y = b ++ qb :: z ->
    (b = a /\ qa = qb /\ y = z)
    \/ exists b', b = a ++ qa :: b' /\ y = b' ++ qb :: z.
Proof.
  induction a as [|c a IH]; intros Ha b y z qa qb Hqb E.
  - destruct b as [|c b]; cbn [app] in E; injection E as -> ->.
    + now left.
    + right; now exists b.
  - cbn [forallb] in Ha; apply andb_true_iff in Ha as [Hc Ha].
    apply negb_true_iff in Hc.
    destruct b as [|c' b]; cbn [app] in E; injection E as -> E.
    + congruence.
    + destruct (IH Ha _ _ _ _ _ Hqb E) as [(-> & -> & ->)|(b' & -> & ->)].
      * now left.
      * right; now exists b'.
Qed.

Lemma plain_no_quote (s : str) :
  plain s = true -> forallb (fun c => negb (is_quote c)) s = true.
Proof.
  unfold plain; rewrite !forallb_forall; intros H c Hc.
  specialize (H c Hc); now apply andb_true_iff in H as [_ Hq].
Qed.

(** Whether a clause ends at the head of a text that runs up to a quote
    and a specifier does not depend on the specifier. *)
Lemma cand_local (x0 p new r r' : str) (q1 q : ascii) :
  is_quote q1 = true -> is_quote q = true ->
  plain p = true -> plain new = true ->
  cand ((x0 ++ [q1]) ++ p ++ q :: r) = None ->
  cand ((x0 ++ [q1]) ++ new ++ q :: r') = None.
Proof.
  intros Hq1 Hq Hp Hn Hnone.
  destruct (cand ((x0 ++ [q1]) ++ new ++ q :: r')) as [[[[ce p'] q'] r'']|] eqn:E;
    [exfalso|reflexivity].
  apply cand_spec in E as (E & Hp' & Hq' & W & qa & -> & HW & Hsp & Hqa).
  assert (E' : (py "from" ++ W) ++ qa :: p' ++ q' :: r''
               = x0 ++ q1 :: new ++ q :: r')
    by (rewrite <- !app_assoc in *; cbn [app] in *; now rewrite <- E).
  assert (Hfw : forallb (fun c => negb (is_quote c)) (py "from" ++ W) = true)
    by (rewrite forallb_app, from_no_quote; now apply spaces_no_quote).
  destruct (quote_split _ Hfw x0 _ _ qa q1 Hq1 E') as [(-> & -> & E2)|(b' & -> & E2)].
  - (* the clause ends with the quote before the specifier *)
    rewrite <- !app_assoc in Hnone; cbn [app] in Hnone.
    rewrite (@cand_intro W (p ++ q :: r) p r _ q) in Hnone; try assumption;
      [discriminate|now apply find_tail_plain].
  - (* the clause ends earlier *)
    assert (E3 : p' ++ q' :: r'' = b' ++ q1 :: new ++ q :: r') by exact E2.
    destruct (quote_split _ (plain_no_quote _ Hp') b' _ _ q' q1 Hq1 E3)
      as [(-> & -> & E4)|(b'' & -> & E4)].
    + replace ((((py "from" ++ W) ++ qa :: p') ++ [q1]) ++ p ++ q :: r)
        with (py "from" ++ W ++ qa :: (p' ++ q1 :: p ++ q :: r)) in Hnone
        by (repeat first [rewrite <- app_assoc | progress cbn [app]]; reflexivity).
      rewrite (@cand_intro W _ p' (p ++ q :: r) _ q1) in Hnone; try assumption;
        [discriminate|now apply find_tail_plain].
    + replace ((((py "from" ++ W) ++ qa :: p' ++ q' :: b'') ++ [q1]) ++ p ++ q :: r)
        with (py "from" ++ W ++ qa :: (p' ++ q' :: b'' ++ q1 :: p ++ q :: r)) in Hnone
        by (repeat first [rewrite <- app_assoc | progress cbn [app]]; reflexivity).
      rewrite (@cand_intro W _ p' (b'' ++ q1 :: p ++ q :: r) _ q') in Hnone;
        try assumption; [discriminate|now apply find_tail_plain].
Qed.

(** The body of a clause is read the same way before another specifier. *)
Lemma body_scan_local (new rest' : str) :
  plain new = true ->
  forall t b path q rest,
    body_scan t = Some (b, path, q, rest) ->
    body_scan (b ++ new ++ q :: rest') = Some (b, new, q, rest').
Proof.
  intros Hn; induction t as [|c t IH]; intros b path q rest H.
  - discriminate H.
  - pose proof (body_scan_spec _ H) as (Ht & Hp & Hq & b0 & q1 & Hb & Hq1).
    cbn [body_scan] in H.
    destruct (cand (c :: t)) as [[[[ce p] q'] r]|] eqn:E.
    + injection H as -> -> -> ->.
      apply cand_spec in E as (E & _ & _ & W & qa & HW' & HW & Hsp & Hqa).
      assert (Hc : cand (b ++ new ++ q :: rest') = Some (b, new, q, rest')).
      { rewrite HW', <- !app_assoc; cbn [app].
        apply cand_intro; try assumption. now apply find_tail_plain. }
      destruct b as [|d l]; [destruct b0; discriminate|].
      cbn [app body_scan] in *. now rewrite Hc.
    + destruct (not_newline c) eqn:Hc; [|discriminate].
      destruct (body_scan t) as [[[[b' p] q'] r]|] eqn:Eb; [|discriminate].
      injection H as <- -> -> ->.
      cbn [app body_scan].
      replace (cand (c :: b' ++ new ++ q :: rest'))
        with (@None (str * str * ascii * str)).
      * now rewrite Hc, (IH _ _ _ _ eq_refl).
      * symmetry.
        change (c :: b' ++ new ++ q :: rest') with ((c :: b') ++ new ++ q :: rest').
        rewrite Hb.
        apply cand_local with (p := path) (r := rest); try assumption.
        now rewrite <- Hb, <- Ht.
Qed.

End Respelling.

Section TwoPasses.
Import PyStr Re RefactorImports.

Ltac flatten := repeat first [rewrite <- app_assoc | progress cbn [app]].

Lemma from_alt_spec (kw s prefix path rest : str) (q : ascii) :
  from_alt kw s = Some (prefix, path, q, rest) ->
  s = prefix ++ path ++ q :: rest
  /\ plain path = true /\ is_quote q = true
  /\ startswith kw prefix = true
  /\ exists b0 q1, prefix = b0 ++ [q1] /\ is_quote q1 = true.
Proof.
  unfold from_alt; intros H.
  destruct (startswith kw s) eqn:E; [|discriminate].
  apply startswith_split in E.
  destruct (span_spec is_space (skipn (length kw) s)) as (Hs & _ & _).
  destruct (span is_space (skipn (length kw) s)) as [ws s1]; cbn [fst snd] in *.
  destruct ws as [|w ws]; [discriminate|].
  destruct (body_scan s1) as [[[[b p] q'] r]|] eqn:Eb; [|discriminate].
  injection H as <- <- <- <-.
  apply body_scan_spec in Eb as (-> & Hp & Hq & b0 & q1 & -> & Hq1).
  repeat split; try assumption.
  - rewrite E, Hs. now flatten.
  - apply startswith_app.
  - exists (kw ++ (w :: ws) ++ b0), q1.
    split; [now flatten|assumption].
Qed.

Lemma from_alt_local (kw new rest' s prefix path rest : str) (q : ascii) :
  plain new = true ->
  from_alt kw s = Some (prefix, path, q, rest) ->
  from_alt kw (prefix ++ new ++ q :: rest') = Some (prefix, new, q, rest').
Proof.
  unfold from_alt at 1; intros Hn H.
  destruct (startswith kw s) eqn:E; [|discriminate].
  destruct (span_spec is_space (skipn (length kw) s)) as (Hs & Hrun & Hhead).
  destruct (span is_space (skipn (length kw) s)) as [ws s1]; cbn [fst snd] in *.
  destruct ws as [|w ws]; [discriminate|].
  destruct (body_scan s1) as [[[[b p] q'] r]|] eqn:Eb; [|discriminate].
  injection H as <- <- <- <-.
  pose proof (@body_scan_local new rest' Hn _ _ _ _ _ Eb) as Hl.
  pose proof (body_scan_spec _ Eb) as (Es1 & _ & _ & b0 & q1 & Hb & _).
  unfold from_alt. rewrite <- !app_assoc, startswith_app, skipn_app_exact.
  change ((w :: ws ++ b) ++ new ++ q' :: rest')
    with (((w :: ws) ++ b) ++ new ++ q' :: rest').
  rewrite <- (app_assoc (w :: ws)).
  rewrite span_app; [now rewrite Hl|assumption|].
  rewrite Es1 in Hhead. destruct b; [destruct b0; discriminate|exact Hhead].
Qed.

Lemma require_alt_spec (s prefix path rest : str) (q : ascii) :
  require_alt s = Some (prefix, path, q, rest) ->
  s = prefix ++ path ++ q :: rest
  /\ plain path = true /\ is_quote q = true
  /\ startswith (py "require(") prefix = true
  /\ exists b0 q1, prefix = b0 ++ [q1] /\ is_quote q1 = true.
Proof.
  unfold require_alt; intros H.
  destruct (startswith (py "require(") s) eqn:E; [|discriminate].
  apply startswith_split in E; change (length (py "require(")) with 8 in E.
  destruct (skipn 8 s) as [|q1 v]; [discriminate|].
  destruct (is_quote q1) eqn:Hq1; [|discriminate].
  destruct (find_tail v) as [[[p q'] r]|] eqn:Ev; [|discriminate].
  injection H as <- <- <- <-.
  apply find_tail_spec in Ev as (-> & Hp & Hq).
  split; [exact E|]. do 3 (split; [assumption || reflexivity|]).
  now exists (py "require("), q1.
Qed.

Lemma require_alt_local (new rest' s prefix path rest : str) (q : ascii) :
  plain new = true ->
  require_alt s = Some (prefix, path, q, rest) ->
  require_alt (prefix ++ new ++ q :: rest') = Some (prefix, new, q, rest').
Proof.
  intros Hn H.
  pose proof (@require_alt_spec _ _ _ _ _ H) as (_ & _ & Hq & _).
  unfold require_alt in H.
  destruct (startswith (py "require(") s) eqn:E; [|discriminate].
  destruct (skipn 8 s) as [|q1 v]; [discriminate|].
  destruct (is_quote q1) eqn:Hq1; [|discriminate].
  destruct (find_tail v) as [[[p q'] r]|] eqn:Ev; [|discriminate].
  injection H as <- <- <- <-.
  change (require_alt (py "require(" ++ q1 :: new ++ q' :: rest')
          = Some (py "require(" ++ [q1], new, q', rest')).
  unfold require_alt. rewrite startswith_app.
  change 8 with (length (py "require(")); rewrite skipn_app_exact.
  now rewrite Hq1, find_tail_plain.
Qed.

Lemma from_alt_other (kw s : str) : startswith kw s = false -> from_alt kw s = None.
Proof. intros H; unfold from_alt; now rewrite H. Qed.

(** What an occurrence at the head of a text is made of. *)
Lemma parts_at_spec (s prefix path rest : str) (q : ascii) (n : nat) :
  parts_at s = Some (n, (prefix, path, q, rest)) ->
  s = prefix ++ path ++ q :: rest
  /\ plain path = true /\ is_quote q = true
  /\ (exists b0 q1, prefix = b0 ++ [q1] /\ is_quote q1 = true)
  /\ (n = 1 \/ n = 4 \/ n = 7).
Proof.
  unfold parts_at; intros H.
  destruct (from_alt (py "import") s) as [x|] eqn:E1.
  { injection H as <- ->.
    apply from_alt_spec in E1 as (Hs & Hp & Hq & _ & Hb); tauto. }
  destruct (from_alt (py "export") s) as [x|] eqn:E2.
  { injection H as <- ->.
    apply from_alt_spec in E2 as (Hs & Hp & Hq & _ & Hb); tauto. }
  destruct (require_alt s) as [x|] eqn:E3; [|discriminate].
  injection H as <- ->.
  apply require_alt_spec in E3 as (Hs & Hp & Hq & _ & Hb); tauto.
Qed.

(** An occurrence stays an occurrence, with the same clause, when another
    specifier takes the place of its own. *)
Lemma parts_at_local (new rest' s prefix path rest : str) (q : ascii) (n : nat) :
  plain new = true ->
  parts_at s = Some (n, (prefix, path, q, rest)) ->
  parts_at (prefix ++ new ++ q :: rest') = Some (n, (prefix, new, q, rest')).
Proof.
  unfold parts_at at 1; intros Hn H.
  destruct (from_alt (py "import") s) as [x|] eqn:E1.
  { injection H as <- ->.
    unfold parts_at; now rewrite (@from_alt_local _ new rest' _ _ _ _ _ Hn E1). }
  destruct (from_alt (py "export") s) as [x|] eqn:E2.
  { injection H as <- ->.
    pose proof (@from_alt_spec _ _ _ _ _ _ E2) as (_ & _ & _ & Hk & _).
    apply startswith_iff in Hk as [r Hk].
    unfold parts_at; rewrite (@from_alt_local _ new rest' _ _ _ _ _ Hn E2).
    rewrite from_alt_other; [reflexivity|].
    rewrite Hk, <- app_assoc; reflexivity. }
  destruct (require_alt s) as [x|] eqn:E3; [|discriminate].
  injection H as <- ->.
  pose proof (@require_alt_spec _ _ _ _ _ E3) as (_ & _ & _ & Hk & _).
  apply startswith_iff in Hk as [r Hk].
  unfold parts_at; rewrite (@require_alt_local new rest' _ _ _ _ _ Hn E3).
  rewrite !from_alt_other; [reflexivity| |];
    rewrite Hk, <- app_assoc; reflexivity.
Qed.

Lemma sub_aux_skip (r : regex) (repl : match_obj -> result str) (a rest : str) :
  sub_aux r repl (a ++ rest) (length a) = sub_aux r repl rest 0.
Proof. induction a as [|c a IH]; [reflexivity|exact IH]. Qed.

Lemma scan_aux_skip (r : regex) (a rest : str) :
  scan_aux r (a ++ rest) (length a) = scan_aux r rest 0.
Proof. induction a as [|c a IH]; [reflexivity|exact IH]. Qed.

(** One step of the pass at an occurrence. *)
Lemma sub_aux_match (repl : match_obj -> result str) (s prefix path rest new : str)
      (q : ascii) (n : nat) :
  parts_at s = Some (n, (prefix, path, q, rest)) ->
  repl (occurrence n prefix path q) = Ok new ->
  sub_aux IMPORT_REGEX repl s 0
  = (out <- sub_aux IMPORT_REGEX repl rest 0 ;; Ok (new ++ out)).
Proof.
  intros H Hr.
  pose proof (@parts_at_spec _ _ _ _ _ _ H) as (Hs & _ & _ & (b0 & q1 & Hb & _) & _).
  assert (Hw : s = (prefix ++ path ++ [q]) ++ rest)
    by (rewrite Hs; now rewrite <- !app_assoc).
  destruct (prefix ++ path ++ [q]) as [|c a] eqn:Ew.
  { rewrite Hb in Ew; destruct b0; discriminate. }
  rewrite Hw; cbn [app sub_aux].
  change (c :: a ++ rest) with ((c :: a) ++ rest).
  rewrite <- Hw, match_at_parts, H, Hr; cbn [bind occurrence m_whole].
  rewrite Ew; cbn [length]. now rewrite sub_aux_skip.
Qed.

Lemma scan_aux_match (s prefix path rest : str) (q : ascii) (n : nat) :
  parts_at s = Some (n, (prefix, path, q, rest)) ->
  scan_aux IMPORT_REGEX s 0
  = occurrence n prefix path q :: scan_aux IMPORT_REGEX rest 0.
Proof.
  intros H.
  pose proof (@parts_at_spec _ _ _ _ _ _ H) as (Hs & _ & _ & (b0 & q1 & Hb & _) & _).
  assert (Hw : s = (prefix ++ path ++ [q]) ++ rest)
    by (rewrite Hs; now rewrite <- !app_assoc).
  destruct (prefix ++ path ++ [q]) as [|c a] eqn:Ew.
  { rewrite Hb in Ew; destruct b0; discriminate. }
  rewrite Hw; cbn [app scan_aux].
  change (c :: a ++ rest) with ((c :: a) ++ rest).
  rewrite <- Hw, match_at_parts, H; cbn [occurrence m_whole].
  rewrite Ew; cbn [length pred]. now rewrite scan_aux_skip.
Qed.

(** Two passes with a replacement that spells specifiers anew and keeps
    what it has spelled: the second pass returns what the first one
    did. *)
Lemma pass_twice (repl : match_obj -> result str) (good : match_obj -> Prop) :
  (forall s n prefix path q rest,
      parts_at s = Some (n, (prefix, path, q, rest)) ->
      good (occurrence n prefix path q) ->
      exists new,
        repl (occurrence n prefix path q) = Ok (prefix ++ new ++ [q])
        /\ repl (occurrence n prefix new q) = Ok (prefix ++ new ++ [q])
        /\ (new = path \/ tidy new = true)) ->
  forall k s,
    length s <= k ->
    (forall m, In m (scan_aux IMPORT_REGEX s 0) -> good m) ->
    exists o,
      sub_aux IMPORT_REGEX repl s 0 = Ok o
      /\ respelled s o
      /\ sub_aux IMPORT_REGEX repl o 0 = Ok o.
Proof.
  intros Hrepl; induction k as [|k IH]; intros s Hk Hgood.
  { destruct s; [|cbn [length] in Hk; lia].
    exists []; repeat split; constructor. }
  destruct (parts_at s) as [[n [[[prefix path] q] rest]]|] eqn:E.
  - pose proof (@parts_at_spec _ _ _ _ _ _ E) as (Hs & Hp & Hq & (b0 & q1 & Hb & Hq1) & _).
    rewrite (@scan_aux_match _ _ _ _ _ _ E) in Hgood.
    destruct (Hrepl _ _ _ _ _ _ E (Hgood _ (or_introl eq_refl)))
      as (new & Hr1 & Hr2 & Hnew).
    destruct (IH rest) as (o & Ho1 & Hresp & Ho2).
    { rewrite Hs, Hb, !length_app in Hk; cbn [length] in Hk; lia. }
    { intros m Hm; apply Hgood; now right. }
    assert (Hpl : plain new = true)
      by (destruct Hnew as [->|Hn]; [assumption|now apply tidy_plain]).
    exists (prefix ++ new ++ q :: o); repeat split.
    + rewrite (@sub_aux_match repl _ _ _ _ _ _ _ E Hr1), Ho1; cbn [bind].
      now rewrite <- !app_assoc.
    + rewrite Hs, Hb, <- !app_assoc; cbn [app].
      apply respelled_app_same.
      destruct Hnew as [->|Hn].
      * constructor. apply respelled_app_same. now constructor.
      * now constructor.
    + rewrite (@sub_aux_match repl _ _ _ _ _ _ _ (@parts_at_local new o _ _ _ _ _ _ Hpl E) Hr2), Ho2; cbn [bind].
      now rewrite <- !app_assoc.
  - destruct s as [|c s]; [exists []; repeat split; constructor|].
    cbn [scan_aux] in Hgood; rewrite match_at_parts, E in Hgood.
    destruct (IH s) as (o & Ho1 & Hresp & Ho2);
      [cbn [length] in Hk; lia|assumption|].
    assert (Hresp' : respelled (c :: s) (c :: o)) by now constructor.
    exists (c :: o); repeat split; [|assumption|].
    + cbn [sub_aux]; now rewrite match_at_parts, E, Ho1.
    + cbn [sub_aux].
      now rewrite match_at_parts, (@parts_at_respelled _ _ Hresp' E), Ho2.
Qed.

End TwoPasses.

Section TidyAlias.
Import PyStr Re RefactorImports.

Lemma tidy_app (a b : str) : tidy (a ++ b) = tidy a && tidy b.
Proof. apply forallb_app. Qed.

Lemma tidy_join (l : list str) :
  forallb tidy l = true -> tidy (join (py "/") l) = true.
Proof.
  induction l as [|x l IH]; intros H; [reflexivity|].
  cbn [forallb] in H; apply andb_true_iff in H as [Hx Hl].
  destruct l as [|y l]; [exact Hx|].
  change (join (py "/") (x :: y :: l)) with (x ++ py "/" ++ join (py "/") (y :: l)).
  rewrite !tidy_app, Hx, (IH Hl); reflexivity.
Qed.

Lemma tidy_split (s : str) : tidy s = true -> forallb tidy (split "/" s) = true.
Proof.
  induction s as [|c s IH]; intros H; [reflexivity|].
  unfold tidy in H; cbn [forallb] in H; apply andb_true_iff in H as [Hc Hs].
  specialize (IH Hs). cbn [split].
  destruct (Ascii.eqb c "/"); [exact IH|].
  destruct (split "/" s) as [|h t]; cbn [cons_head forallb] in *.
  - unfold tidy; cbn [forallb]; now rewrite Hc.
  - apply andb_true_iff in IH as [Hh Ht].
    unfold tidy in *; cbn [forallb]; now rewrite Hc, Hh, Ht.
Qed.

Lemma tidy_render (l : list str) :
  forallb tidy l = true -> tidy (Spec.render l) = true.
Proof.
  intros H; destruct l as [|x l]; [reflexivity|].
  now apply (@tidy_join (x :: l)).
Qed.

Lemma tidy_skipn (n : nat) (s : str) : tidy s = true -> tidy (skipn n s) = true.
Proof.
  unfold tidy; rewrite !forallb_forall; intros H c Hc.
  apply H. rewrite <- (firstn_skipn n s); apply in_or_app; now right.
Qed.

(** The alias of a path without quotes and white space has none. *)
Lemma alias_tidy (path aliased : str) :
  tidy path = true -> get_alias_for_path path = Some aliased -> tidy aliased = true.
Proof.
  unfold get_alias_for_path; intros Hp H.
  pose proof (alias_in_first ALIASES path) as Hf; rewrite H in Hf.
  destruct Hf as (before & prefix & alias & after & Ht & _ & _ & ->).
  assert (Hin : In (prefix, alias) ALIASES)
    by (rewrite Ht; apply in_or_app; right; now left).
  assert (Ha : tidy alias = true).
  { revert Hin; clear; unfold ALIASES; simpl; intros H.
    repeat (destruct H as [H|H]; [inversion H; reflexivity|]); contradiction. }
  now rewrite tidy_app, Ha, tidy_skipn.
Qed.

(** The stack after a walk over tidy segments: tidy segments on top of a
    part of the stack it began with. *)
Lemma fold_lex_over (segs st : list str) :
  forallb tidy segs = true ->
  exists top j,
    fold_left Spec.lex_step segs st = top ++ skipn j st
    /\ forallb tidy top = true.
Proof.
  revert st; induction segs as [|seg segs IH]; intros st H.
  { exists [], 0; now split. }
  cbn [forallb] in H; apply andb_true_iff in H as [Hseg Hsegs].
  cbn [fold_left].
  destruct (IH (Spec.lex_step st seg) Hsegs) as (top & j & E & Htop).
  rewrite E; unfold Spec.lex_step.
  destruct (eqb seg [] || eqb seg (py ".")); [now exists top, j|].
  destruct (eqb seg (py "..")).
  - exists top, (S j); split; [|assumption].
    destruct st as [|x st]; [now destruct j|reflexivity].
  - destruct j as [|j].
    + exists (top ++ [seg]), 0; split; [now rewrite <- app_assoc|].
      rewrite forallb_app, Htop; cbn [forallb]; now rewrite Hseg.
    + now exists top, j.
Qed.

Lemma in_firstn (A : Type) (x : A) (k : nat) (l : list A) :
  In x (firstn k l) -> In x l.
Proof.
  intros H; rewrite <- (firstn_skipn k l); apply in_or_app; now left.
Qed.

Lemma in_skipn (A : Type) (x : A) (k : nat) (l : list A) :
  In x (skipn k l) -> In x l.
Proof.
  intros H; rewrite <- (firstn_skipn k l); apply in_or_app; now right.
Qed.

(** What lies behind the root in a path made of a part of the root and
    the directories, and further segments. *)
Lemma in_behind_root (x : str) (R F Y : list str) :
  forall k,
    In x (skipn (length R) (firstn k (R ++ F) ++ Y)) -> In x F \/ In x Y.
Proof.
  induction R as [|r R IH]; intros k H.
  - cbn [length skipn app] in H; apply in_app_or in H as [H|H]; [left|now right].
    now apply in_firstn in H.
  - destruct k as [|k].
    + cbn [firstn app] in H; right; now apply in_skipn in H.
    + exact (IH k H).
Qed.

Lemma below_split (R T : list str) :
  Spec.below R T = true -> exists X, T = R ++ X.
Proof.
  revert T; induction R as [|r R IH]; intros T H; [now exists T|].
  destruct T as [|t T]; [discriminate|].
  cbn [Spec.below] in H; apply andb_true_iff in H as [Hrt H].
  apply eqb_eq in Hrt; subst t.
  destruct (IH T H) as [X ->]. now exists X.
Qed.

(** The path a specifier without quote and white space resolves to, from
    a file whose directories below the root hold none: it leaves the root,
    or it holds none. *)
Lemma resolved_tidy (R fdir : list str) (spec : str) :
  names R -> names fdir ->
  forallb tidy fdir = true -> tidy spec = true ->
  let resolved :=
    Spec.render
      (Spec.relative_to R (Spec.lexical_normalize (R ++ fdir ++ split "/" spec))) in
  startswith (py "..") resolved = false -> tidy resolved = true.
Proof.
  intros HR Hd Ht Hs; cbv zeta.
  rewrite app_assoc, lexical_normalize_names by (now apply names_app).
  destruct (@fold_lex_over (split "/" spec) (rev (R ++ fdir)) (tidy_split _ Hs))
    as (top & j & -> & Htop).
  rewrite rev_app_distr, skipn_rev, rev_involutive.
  set (k := length (R ++ fdir) - j).
  destruct (Spec.below R (firstn k (R ++ fdir) ++ rev top)) eqn:Eb.
  - destruct (below_split _ _ Eb) as [X EX].
    assert (HX : X = skipn (length R) (firstn k (R ++ fdir) ++ rev top))
      by (rewrite EX, skipn_app, skipn_all, Nat.sub_diag; reflexivity).
    rewrite EX, relative_to_app; intros _.
    apply tidy_render; rewrite forallb_forall in *; intros x Hx.
    rewrite HX in Hx; apply in_behind_root in Hx as [Hx|Hx]; [now apply Ht|].
    apply Htop; now apply in_rev.
  - destruct (relative_to_above _ _ Eb) as [rest ->].
    intros H; exfalso.
    destruct rest; cbn in H; discriminate.
Qed.

Lemma matched_groups_occurrence (n : nat) (prefix path : str) (q : ascii) :
  n = 1 \/ n = 4 \/ n = 7 -> truthy prefix = true ->
  matched_groups (occurrence n prefix path q)
  = Some (Some prefix, Some path, Some [q]).
Proof.
  intros [ -> | [ -> | -> ] ] Hp; unfold matched_groups, occurrence, group;
    cbn [m_groups lookup Nat.eqb truthy_opt]; now rewrite Hp.
Qed.

(** What [replacer] writes for a file under the root whose directories
    below the root hold no quote and no white space. *)
Lemma replacer_writes (R fdir : list str) (fname : str) (m : match_obj)
      (prefix path suffix : str) :
  names R -> names fdir -> Spec.is_name fname = true ->
  forallb tidy fdir = true ->
  matched_groups m = Some (Some prefix, Some path, Some suffix) ->
  (startswith (py ".") path = true -> tidy path = true) ->
  replacer (Spec.abs_of R) (Spec.abs_of (R ++ fdir ++ [fname])) m = Ok (m_whole m)
  \/ exists aliased,
       replacer (Spec.abs_of R) (Spec.abs_of (R ++ fdir ++ [fname])) m
       = Ok (prefix ++ aliased ++ suffix)
       /\ startswith (py "@/") aliased = true
       /\ tidy aliased = true.
Proof.
  intros HR Hd Hf Ht Hm Hp; unfold replacer; rewrite Hm.
  destruct (startswith (py ".") path) eqn:Es; cbn [negb]; [|now left].
  rewrite resolve_path_segments by assumption; cbn [bind].
  pose proof (@resolved_tidy R fdir path HR Hd Ht (Hp eq_refl)) as Hr;
    cbv zeta in Hr.
  match goal with
  | |- context [get_alias_for_path ?r] =>
      destruct (startswith (py "..") r); [now left|];
      specialize (Hr eq_refl);
      destruct (get_alias_for_path r) as [aliased|] eqn:Ea; [|now left]
  end.
  rewrite replace_char_sep.
  destruct (truthy aliased); [|now left].
  destruct (rewrite_wanted path aliased); [|now left].
  right; exists aliased; repeat split.
  - now apply get_alias_sigil in Ea.
  - now apply alias_tidy in Ea.
Qed.

Lemma tidy_of_plain (s : str) :
  plain s = true -> forallb (fun c => negb (is_space c)) s = true -> tidy s = true.
Proof.
  unfold plain, tidy; rewrite !forallb_forall; intros Hp Hs c Hc.
  specialize (Hp c Hc); apply andb_true_iff in Hp as [_ Hq].
  now rewrite (Hs c Hc), Hq.
Qed.

(** Two passes over a content whose relative specifiers hold no white
    space, for a file under the root whose directories below the root hold
    no quote and no white space: the first pass spells some specifiers
    anew and the second returns what the first did. *)
Lemma rewrite_twice (R fdir : list str) (fname content : str) :
  names R -> names fdir -> Spec.is_name fname = true ->
  forallb tidy fdir = true ->
  specifiers_tidy content = true ->
  exists once,
    rewrite_content (Spec.abs_of R) (Spec.abs_of (R ++ fdir ++ [fname])) content
    = Ok once
    /\ respelled content once
    /\ rewrite_content (Spec.abs_of R) (Spec.abs_of (R ++ fdir ++ [fname])) once
       = Ok once.
Proof.
  intros HR Hd Hf Ht Hspec; unfold rewrite_content, sub.
  apply (@pass_twice
           (replacer (Spec.abs_of R) (Spec.abs_of (R ++ fdir ++ [fname])))
           (fun m =>
              match matched_groups m with
              | Some (_, Some path, _) =>
                  negb (startswith (py ".") path)
                  || forallb (fun c => negb (is_space c)) path
              | _ => true
              end = true))
    with (k := length content); [|lia|].
  - intros s n prefix path q rest E Hg.
    pose proof (@parts_at_spec _ _ _ _ _ _ E)
      as (Hs & Hp & Hq & (b0 & q1 & Hb & Hq1) & Hn).
    assert (Htr : truthy prefix = true) by (rewrite Hb; now destruct b0).
    pose proof (@matched_groups_occurrence n prefix path q Hn Htr) as Hm.
    rewrite Hm in Hg.
    destruct (@replacer_writes R fdir fname _ _ _ _ HR Hd Hf Ht Hm)
      as [Hw|(aliased & Hw & Hsig & Hta)].
    { intros Es; rewrite Es in Hg; now apply tidy_of_plain. }
    + exists path; repeat split; [exact Hw|exact Hw|now left].
    + exists aliased; repeat split; [exact Hw| |now right].
      unfold replacer.
      rewrite (@matched_groups_occurrence n prefix aliased q Hn Htr).
      apply startswith_iff in Hsig as [r ->]; reflexivity.
  - intros m Hm; unfold specifiers_tidy in Hspec.
    rewrite forallb_forall in Hspec; now apply Hspec.
Qed.

End TidyAlias.

(** ** The rewrite pass over a file *)

Section PassTheorems.
Import PyStr RefactorImports.

(** C3, as the code has it.  An occurrence whose specifier does not begin
    with a dot is returned as it stands, before any decision is taken.  A
    specifier the pass writes is an alias that begins with [@/].  And the
    pass is idempotent on these contents: for a file under the repository
    root whose directories below the root hold no quote and no white
    space, and a content in which no relative specifier the scanner finds
    holds white space, the pass returns a content, and the pass over that
    content returns it as it is. *)
Theorem rewrite_pass_stable (ROOT_DIR filepath : str) (m : Re.match_obj)
        (prefix suffix : option str) (path new_text : str)
        (R fdir : list str) (fname content : str) :
  (matched_groups m = Some (prefix, Some path, suffix) ->
   startswith (py ".") path = false ->
   replacer ROOT_DIR filepath m = Ok (Re.m_whole m))
  /\ (matched_groups m = Some (prefix, Some path, suffix) ->
      replacer ROOT_DIR filepath m = Ok new_text ->
      new_text <> Re.m_whole m ->
      exists aliased,
        new_text = fmt prefix ++ aliased ++ fmt suffix
        /\ startswith (py "@/") aliased = true
        /\ startswith (py ".") aliased = false)
  /\ (names R -> names fdir -> Spec.is_name fname = true ->
      forallb tidy fdir = true ->
      specifiers_tidy content = true ->
      exists once,
        rewrite_content (Spec.abs_of R) (Spec.abs_of (R ++ fdir ++ [fname])) content
        = Ok once
        /\ rewrite_content (Spec.abs_of R) (Spec.abs_of (R ++ fdir ++ [fname])) once
           = Ok once).
Proof.
  split; [|split].
  - intros Hm Hp; unfold replacer; now rewrite Hm, Hp.
  - intros Hm Hr Hne; unfold replacer in Hr; rewrite Hm in Hr.
    destruct (negb (startswith (py ".") path)); [congruence|].
    destruct (resolve_path ROOT_DIR filepath path) as [resolved|e]; [|discriminate].
    cbn [bind] in Hr.
    destruct (startswith (py "..") resolved); [congruence|].
    destruct (get_alias_for_path resolved) as [aliased|] eqn:Ea; [|congruence].
    apply get_alias_sigil in Ea.
    rewrite replace_char_sep in Hr.
    destruct (truthy aliased); [|congruence].
    destruct (rewrite_wanted path aliased); [|congruence].
    exists aliased; repeat split; [congruence|assumption|].
    apply startswith_iff in Ea as [r ->]; reflexivity.
  - intros HR Hd Hf Ht Hs.
    destruct (@rewrite_twice R fdir fname content HR Hd Hf Ht Hs)
      as (once & H1 & _ & H2).
    now exists once.
Qed.

Lemma rewrite_pass_stable_witness :
  replacer (py "/repo") (py "/repo/src/modules/billing/ui/Invoice.tsx") alias_match
  = Ok (Re.m_whole alias_match)
  /\ (exists aliased,
        py "import { Friend } from '@/db/models/Friend'"
        = py "import { Friend } from '" ++ aliased ++ py "'"
        /\ startswith (py "@/") aliased = true
        /\ startswith (py ".") aliased = false)
  /\ (exists once,
        rewrite_content (py "/repo") (py "/repo/src/modules/billing/ui/Invoice.tsx")
          (py "import { Friend } from '../../../../src/db/models/Friend'; import s from './sibling'")
        = Ok once
        /\ rewrite_content (py "/repo") (py "/repo/src/modules/billing/ui/Invoice.tsx")
             once
           = Ok once).
Proof.
  split; [|split].
  - apply (proj1
      (@rewrite_pass_stable (py "/repo") (py "/repo/src/modules/billing/ui/Invoice.tsx")
         alias_match (Some (py "import { Friend } from '")) (Some (py "'"))
         (py "@/db/models/Friend") [] [] [] [] [])); reflexivity.
  - apply (proj1 (proj2
      (@rewrite_pass_stable (py "/repo") (py "/repo/src/modules/billing/ui/Invoice.tsx")
         friend_match (Some (py "import { Friend } from '")) (Some (py "'"))
         friend_specifier (py "import { Friend } from '@/db/models/Friend'")
         [] [] [] [])));
      [reflexivity|vm_compute; reflexivity|vm_compute; discriminate].
  - apply (proj2 (proj2
      (@rewrite_pass_stable [] [] alias_match None None [] []
         [py "repo"] [py "src"; py "modules"; py "billing"; py "ui"]
         (py "Invoice.tsx")
         (py "import { Friend } from '../../../../src/db/models/Friend'; import s from './sibling'"))));
      vm_compute; reflexivity.
Defined.

(** C3 fails as stated: the second pass changes what the first pass
    produced, when a relative specifier holds white space, when a
    directory of the file does, and when a directory of the file holds a
    quote. *)
Lemma rewrite_pass_not_idempotent :
  rewrite_content (py "/repo") (py "/repo/src/db/f.ts") unstable_content
  = Ok (py "import y require('@/db/from './../../src/db/z'")
  /\ rewrite_content (py "/repo") (py "/repo/src/db/f.ts")
       (py "import y require('@/db/from './../../src/db/z'")
     = Ok (py "import y require('@/db/from '@/db/z'")
  /\ py "import y require('@/db/from './../../src/db/z'"
     <> py "import y require('@/db/from '@/db/z'"
  /\ rewrite_content (py "/repo") (py "/repo/src/db/from /f.ts")
       (py "import y require('./x/y/../../.'./../../db/z'")
     = Ok (py "import y require('@/db/from './../../db/z'")
  /\ rewrite_content (py "/repo") (py "/repo/src/db/from /f.ts")
       (py "import y require('@/db/from './../../db/z'")
     = Ok (py "import y require('@/db/from '@/db/z'")
  /\ rewrite_content (py "/repo") (py "/repo/src/db/x'require('./src/f.ts")
       (py "require('./a/b/../../q'")
     = Ok (py "require('@/db/x'require('./src/q'")
  /\ rewrite_content (py "/repo") (py "/repo/src/db/x'require('./src/f.ts")
       (py "require('@/db/x'require('./src/q'")
     = Ok (py "require('@/db/x'require('@/db/x'require('./src/src/q'").
Proof. repeat split; try (vm_compute; reflexivity). vm_compute; discriminate. Qed.

End PassTheorems.

(** ** What the rewrite script does to the files *)

Section RewriteWorld.
Import PyStr World RefactorImports.

Lemma find_store_other (path q : str) (f : file) (fs : list (str * file)) :
  eqb path q = false ->
  find_file q (store_file path f fs) = find_file q fs.
Proof.
  intros Hq; induction fs as [|[p g] fs IH]; cbn [store_file find_file].
  - now rewrite Hq.
  - destruct (eqb p path) eqn:E; cbn [find_file].
    + apply eqb_eq in E; subst p; now rewrite Hq.
    + now rewrite IH.
Qed.

Lemma find_store_same (path : str) (f : file) (fs : list (str * file)) :
  find_file path (store_file path f fs) = Some f.
Proof.
  induction fs as [|[p g] fs IH]; cbn [store_file find_file].
  - now rewrite eqb_refl.
  - destruct (eqb p path) eqn:E; cbn [find_file]; now rewrite E.
Qed.

Lemma store_file_keys (path : str) (f : file) (fs : list (str * file)) :
  find_file path fs <> None ->
  map fst (store_file path f fs) = map fst fs.
Proof.
  induction fs as [|[p g] fs IH]; cbn [store_file find_file map fst]; intros H.
  - contradiction.
  - destruct (eqb p path); cbn [map fst]; [reflexivity|].
    now rewrite IH.
Qed.

(** A text stored in the place of a text leaves every link as it is. *)
Lemma locate_store (path p content new_content : str) (fs : list (str * file)) :
  find_file path fs = Some (Text content) ->
  locate (store_file path (Text new_content) fs) p = locate fs p.
Proof.
  intros Hf; unfold locate.
  destruct (eqb path p) eqn:E.
  - apply eqb_eq in E; subst p; now rewrite find_store_same, Hf.
  - now rewrite find_store_other.
Qed.

(** The cases of [process_file], by the file that the path names. *)
Lemma process_file_cases (ROOT_DIR filepath : str) (w : world) :
  let target := locate (files w) filepath in
  let updating :=
    {| files := files w; stdout := stdout w ++ [py "Updating " ++ filepath] |} in
  match find_file target (files w) with
  | Some (Text content) =>
      exists new_content,
        rewrite_content ROOT_DIR filepath content = Ok new_content
        /\ process_file ROOT_DIR filepath w
           = (Ok tt,
              if eqb new_content content then w
              else {| files := store_file target (Text new_content) (files w);
                      stdout := stdout updating |})
  | Some (Locked (Ok content) e) =>
      exists new_content,
        rewrite_content ROOT_DIR filepath content = Ok new_content
        /\ process_file ROOT_DIR filepath w
           = if eqb new_content content then (Ok tt, w) else (Raise e, updating)
  | Some (Locked (Raise e) _) | Some (Unreadable e) =>
      process_file ROOT_DIR filepath w = (Raise e, w)
  | Some (Link _) | None => process_file ROOT_DIR filepath w = (Raise OSError, w)
  end.
Proof.
  cbv zeta; unfold process_file, mbind, read_text, read_file.
  destruct (find_file (locate (files w) filepath) (files w))
    as [[content|e|[content|e'] e|t]|] eqn:Ef; try reflexivity.
  - destruct (rewrite_content_returns ROOT_DIR filepath content) as [new Hnew].
    exists new; split; [assumption|].
    unfold lift; rewrite Hnew.
    destruct (eqb new content); cbn [negb]; [reflexivity|].
    unfold print, write_text; cbn [files stdout]. now rewrite Ef.
  - destruct (rewrite_content_returns ROOT_DIR filepath content) as [new Hnew].
    exists new; split; [assumption|].
    unfold lift; rewrite Hnew.
    destruct (eqb new content); cbn [negb]; [reflexivity|].
    unfold print, write_text; cbn [files stdout]. now rewrite Ef.
Qed.

(** X4.  [process_file] in full, by the file that the path names, through
    a link if the path is one.  A file that cannot be read, or is not
    there, makes it raise and leaves the world as it was.  A file that can
    be read is written, and the path printed, only when the pass changed
    its content; if it cannot be opened for writing, the exception comes
    after the line is printed and the file stays as it is.  The one file
    that can change is the file the path names: every other path holds
    what it held. *)
Theorem process_file_effect (ROOT_DIR filepath : str) (w : world) :
  let target := locate (files w) filepath in
  let updating :=
    {| files := files w; stdout := stdout w ++ [py "Updating " ++ filepath] |} in
  match find_file target (files w) with
  | Some (Text content) =>
      exists new_content,
        rewrite_content ROOT_DIR filepath content = Ok new_content
        /\ process_file ROOT_DIR filepath w
           = (Ok tt,
              if eqb new_content content then w
              else {| files := store_file target (Text new_content) (files w);
                      stdout := stdout updating |})
  | Some (Locked (Ok content) e) =>
      exists new_content,
        rewrite_content ROOT_DIR filepath content = Ok new_content
        /\ process_file ROOT_DIR filepath w
           = if eqb new_content content then (Ok tt, w) else (Raise e, updating)
  | Some (Locked (Raise e) _) | Some (Unreadable e) =>
      process_file ROOT_DIR filepath w = (Raise e, w)
  | Some (Link _) | None => process_file ROOT_DIR filepath w = (Raise OSError, w)
  end
  /\ forall other,
       eqb target other = false ->
       find_file other (files (snd (process_file ROOT_DIR filepath w)))
       = find_file other (files w).
Proof.
  pose proof (process_file_cases ROOT_DIR filepath w) as H; cbv zeta in *.
  split; [exact H|].
  intros other Hother.
  destruct (find_file (locate (files w) filepath) (files w))
    as [[content|e|[content|e'] e|t]|]; try (now rewrite H).
  - destruct H as (new & _ & ->); cbn [snd].
    destruct (eqb new content); [reflexivity|].
    cbn [files]; now apply find_store_other.
  - destruct H as (new & _ & ->).
    now destruct (eqb new content).
Qed.

(** Through the link [x.ts] the notes are rewritten and [ro.ts] stays as
    it is; the file that cannot be written stops the script after the line
    is printed. *)
Lemma process_file_effect_witness :
  find_file (py "/repo/src/ro.ts")
    (files (snd (process_file (py "/repo") (py "/repo/src/x.ts") linked_tree)))
  = Some (Locked (Ok b_content) OSError)
  /\ process_file (py "/repo") (py "/repo/src/x.ts") linked_tree
     = (Ok tt,
        {| files := [ (py "/repo/src/x.ts", Link (py "/repo/notes.md"));
                      (py "/repo/notes.md", Text b_rewritten);
                      (py "/repo/src/ro.ts", Locked (Ok b_content) OSError) ];
           stdout := [py "Updating /repo/src/x.ts"] |})
  /\ process_file (py "/repo") (py "/repo/src/ro.ts") linked_tree
     = (Raise OSError,
        {| files := files linked_tree;
           stdout := [py "Updating /repo/src/ro.ts"] |}).
Proof.
  split; [|split].
  - exact (proj2 (process_file_effect (py "/repo") (py "/repo/src/x.ts") linked_tree)
                 (py "/repo/src/ro.ts") eq_refl).
  - destruct (proj1 (process_file_effect (py "/repo") (py "/repo/src/x.ts") linked_tree))
      as (new & Hnew & Hrun).
    vm_compute in Hnew; injection Hnew as <-. exact Hrun.
  - destruct (proj1 (process_file_effect (py "/repo") (py "/repo/src/ro.ts") linked_tree))
      as (new & Hnew & Hrun).
    vm_compute in Hnew; injection Hnew as <-. exact Hrun.
Defined.

Lemma keeps_refl (w : world) : keeps w w.
Proof.
  repeat split; auto. exists []; now rewrite app_nil_r.
Qed.

Lemma keeps_trans (w1 w2 w3 : world) : keeps w1 w2 -> keeps w2 w3 -> keeps w1 w3.
Proof.
  intros (K1 & L1 & C1 & R1 & [p1 S1]) (K2 & L2 & C2 & R2 & [p2 S2]); repeat split.
  - congruence.
  - intros p; now rewrite L2.
  - intros p Hp; rewrite C2; [now apply C1|].
    intros q Hq; rewrite L1; now apply Hp.
  - auto.
  - exists (p1 ++ p2); now rewrite S2, S1, app_assoc.
Qed.

Lemma for_each_keeps (A : Type) (body : A -> M unit) (l : list A) :
  (forall x w, keeps w (snd (body x w))) ->
  forall w, keeps w (snd (for_each l body w)).
Proof.
  intros Hbody; induction l as [|x l IH]; intros w; [apply keeps_refl|].
  cbn [for_each]; unfold mbind.
  pose proof (Hbody x w) as H1.
  destruct (body x w) as [[[]|e] w1]; cbn [snd] in *; [|exact H1].
  eapply keeps_trans; [exact H1|apply IH].
Qed.

Lemma endswith_app (e x s : str) : endswith e s = true -> endswith e (x ++ s) = true.
Proof.
  unfold endswith; rewrite rev_app_distr; intros H.
  apply startswith_iff in H as [r ->]; rewrite <- app_assoc; apply startswith_app.
Qed.

Lemma join_keeps_extension (root file : str) :
  endswith_any extensions file = true ->
  endswith_any extensions (PosixPath.join root [file]) = true.
Proof.
  unfold endswith_any; rewrite !existsb_exists.
  intros (e & He & H); exists e; split; [assumption|].
  unfold PosixPath.join; cbn [fold_left]; unfold PosixPath.join_step.
  destruct (startswith PosixPath.sep file); [assumption|].
  destruct (negb (truthy root) || endswith PosixPath.sep root).
  - now apply endswith_app.
  - rewrite app_assoc; now apply endswith_app.
Qed.

(** A line printed changes nothing on disk. *)
Lemma keeps_printed (w : world) (line : str) :
  keeps w {| files := files w; stdout := stdout w ++ [line] |}.
Proof.
  unfold keeps, rewritable; cbn [files stdout]; repeat split; auto.
  now eexists.
Qed.

Lemma process_file_keeps (ROOT_DIR filepath : str) (w : world) :
  endswith_any extensions filepath = true ->
  keeps w (snd (process_file ROOT_DIR filepath w)).
Proof.
  intros Hext; pose proof (process_file_cases ROOT_DIR filepath w) as H.
  cbv zeta in H.
  destruct (find_file (locate (files w) filepath) (files w))
    as [[content|e|[content|e'] e|t]|] eqn:Ef;
    try (rewrite H; apply keeps_refl).
  - destruct H as (new & _ & ->); cbn [snd].
    destruct (eqb new content); [apply keeps_refl|].
    unfold keeps, rewritable; cbn [files stdout]; repeat split.
    + apply store_file_keys; congruence.
    + intros p; now apply (@locate_store _ _ content).
    + intros p Hp; apply find_store_other. now apply Hp.
    + intros p. rewrite (@locate_store _ _ content) by assumption.
      destruct (eqb (locate (files w) filepath) (locate (files w) p)) eqn:E.
      * apply eqb_eq in E; rewrite <- E; now rewrite find_store_same.
      * now rewrite find_store_other.
    + now eexists.
  - destruct H as (new & _ & ->).
    destruct (eqb new content); cbn [snd]; [apply keeps_refl|apply keeps_printed].
Qed.

Lemma main_keeps (ROOT_DIR : str) (walk : str -> list (str * list str)) (w : world) :
  keeps w (snd (main ROOT_DIR walk w)).
Proof.
  unfold main; apply for_each_keeps; intros root_dir w1.
  apply for_each_keeps; intros [root files] w2.
  apply for_each_keeps; intros file w3.
  destruct (endswith_any extensions file) eqn:E; [|apply keeps_refl].
  now apply process_file_keeps, join_keeps_extension.
Qed.

Lemma find_file_In (path : str) (f : file) (fs : list (str * file)) :
  find_file path fs = Some f -> In (path, f) fs.
Proof.
  induction fs as [|[p g] fs IH]; cbn [find_file]; [discriminate|].
  destruct (eqb p path) eqn:E.
  - apply eqb_eq in E; subst p; intros H; injection H as ->; now left.
  - intros H; right; now apply IH.
Qed.

(** A path that is no source path and that no link leads to is named by no
    source path. *)
Lemma not_named (fs : list (str * file)) (p q : str) :
  endswith_any extensions p = false -> no_link_to fs p = true ->
  endswith_any extensions q = true ->
  eqb (locate fs q) p = false.
Proof.
  intros Hp Hl Hq; unfold locate.
  assert (Hqp : eqb q p = false) by (apply eqb_neq; intros ->; congruence).
  destruct (find_file q fs) as [[c|e|r e|t]|] eqn:Ef; try exact Hqp.
  apply find_file_In in Ef.
  unfold no_link_to in Hl; rewrite forallb_forall in Hl.
  specialize (Hl _ Ef); cbn [snd] in Hl.
  now apply negb_true_iff in Hl.
Qed.

(** X5.  Whatever the tree and the contents, and whether the run ends or
    stops on a file it cannot read or write, the rewrite script creates no
    file and removes none, and it changes no file other than those its
    source paths name: a file whose path does not end in [.ts], [.tsx],
    [.js] or [.jsx] and that no link leads to stays as it was.  (Through a
    link with a source name the script does rewrite a file of any name.) *)
Theorem main_touches_only_source_files (ROOT_DIR : str)
        (walk : str -> list (str * list str)) (w : world) (p : str) :
  map fst (files (snd (main ROOT_DIR walk w))) = map fst (files w)
  /\ (endswith_any extensions p = false ->
      no_link_to (files w) p = true ->
      find_file p (files (snd (main ROOT_DIR walk w))) = find_file p (files w)).
Proof.
  destruct (main_keeps ROOT_DIR walk w) as (K & _ & C & _ & _).
  split; [exact K|].
  intros Hp Hl; apply C; intros q Hq; now apply not_named.
Qed.

Lemma main_touches_only_source_files_witness :
  map fst (files (snd (main (py "/repo") (two_files (py "/repo/src"))
                         (sound_tree (py "/repo/src")))))
  = [py "/repo/src/a.ts"; py "/repo/src/b.ts"]
  /\ find_file (py "/repo/README.md")
       (files (snd (main (py "/repo") (two_files (py "/repo/src"))
                      (sound_tree (py "/repo/src")))))
     = None.
Proof.
  split.
  - apply (proj1 (main_touches_only_source_files (py "/repo")
                    (two_files (py "/repo/src")) (sound_tree (py "/repo/src")) [])).
  - apply (proj2 (main_touches_only_source_files (py "/repo")
                    (two_files (py "/repo/src")) (sound_tree (py "/repo/src"))
                    (py "/repo/README.md"))); reflexivity.
Defined.

End RewriteWorld.

Section RewriteCompletes.
Import PyStr World RefactorImports.

Lemma for_each_ok (A : Type) (Inv : world -> Prop) (body : A -> M unit) (l : list A) :
  (forall x, In x l -> forall w, Inv w ->
             exists w', body x w = (Ok tt, w') /\ Inv w') ->
  forall w, Inv w -> exists w', for_each l body w = (Ok tt, w') /\ Inv w'.
Proof.
  induction l as [|x l IH]; intros Hbody w Hw; [now exists w|].
  cbn [for_each]; unfold mbind.
  destruct (Hbody x (or_introl eq_refl) w Hw) as (w1 & -> & Hw1).
  apply IH; [|exact Hw1].
  intros y Hy; apply Hbody; now right.
Qed.

Lemma process_file_ok (ROOT_DIR filepath : str) (w : world) :
  endswith_any extensions filepath = true ->
  rewritable w filepath = true ->
  exists w', process_file ROOT_DIR filepath w = (Ok tt, w') /\ keeps w w'.
Proof.
  intros Hext Hr.
  pose proof (@process_file_keeps ROOT_DIR filepath w Hext) as Hk.
  pose proof (process_file_cases ROOT_DIR filepath w) as H; cbv zeta in H.
  unfold rewritable in Hr.
  destruct (find_file (locate (files w) filepath) (files w))
    as [[content|e|r e|t]|]; try discriminate.
  destruct H as (new & _ & H); rewrite H in *.
  eexists; split; [reflexivity|exact Hk].
Qed.

(** X6.  On a tree in which every source file the walk meets can be read
    as text and opened for writing, the rewrite script runs to its end,
    whatever the files hold. *)
Theorem main_completes (ROOT_DIR : str) (walk : str -> list (str * list str))
        (w : world) :
  all_rewritable ROOT_DIR walk w = true ->
  fst (main ROOT_DIR walk w) = Ok tt.
Proof.
  intros Hall; unfold all_rewritable in Hall; rewrite forallb_forall in Hall.
  set (Inv := fun w' : world =>
                forall p, rewritable w p = true -> rewritable w' p = true).
  enough (H : exists w', main ROOT_DIR walk w = (Ok tt, w') /\ Inv w')
    by (destruct H as (w' & -> & _); reflexivity).
  unfold main; apply for_each_ok; [|now intros p].
  intros root_dir Hroot w1 Hw1; specialize (Hall root_dir Hroot).
  rewrite forallb_forall in Hall.
  apply for_each_ok; [|exact Hw1].
  intros [root files] Hentry w2 Hw2; specialize (Hall _ Hentry).
  cbn [fst snd] in Hall; rewrite forallb_forall in Hall.
  apply for_each_ok; [|exact Hw2].
  intros file Hfile w3 Hw3; specialize (Hall _ Hfile).
  destruct (endswith_any extensions file) eqn:E; [|now exists w3].
  cbn [negb orb] in Hall.
  destruct (@process_file_ok ROOT_DIR (PosixPath.join root [file]) w3)
    as (w4 & -> & (_ & _ & _ & Hr & _)).
  - now apply join_keeps_extension.
  - now apply Hw3.
  - exists w4; split; [reflexivity|].
    intros p Hp; apply Hr, Hw3, Hp.
Qed.

Lemma main_completes_witness :
  fst (main (py "/repo") (two_files (py "/repo/src")) (sound_tree (py "/repo/src")))
  = Ok tt.
Proof.
  apply (@main_completes (py "/repo") (two_files (py "/repo/src"))
           (sound_tree (py "/repo/src"))).
  reflexivity.
Defined.

End RewriteCompletes.

(** ** The alias table read both ways *)

Section AliasRoundTrip.
Import PyStr RefactorImports.

(** X7.  The alias mapping can be undone and is never applied twice: the
    alias of a path, looked up in the table read from alias to prefix,
    gives the path back, so two paths never share an alias; and an alias
    is itself mapped to nothing. *)
Theorem alias_round_trip (path aliased : str) :
  get_alias_for_path path = Some aliased ->
  alias_in ALIASES_back aliased = Some path
  /\ get_alias_for_path aliased = None.
Proof.
  unfold get_alias_for_path, ALIASES; cbn [alias_in]; intros H.
  repeat
    match type of H with
    | (if rule_matches ?source path then _ else _) = _ =>
        let E := fresh "E" in
        destruct (rule_matches source path) eqn:E;
        [ apply rule_matches_iff in E; destruct E as [->|[rest ->]];
          injection H as <-; split; reflexivity
        | ]
    end.
  discriminate.
Qed.

Lemma alias_round_trip_witness :
  alias_in ALIASES_back (py "@/db/models/Friend") = Some (py "src/db/models/Friend")
  /\ get_alias_for_path (py "@/db/models/Friend") = None.
Proof.
  apply (@alias_round_trip (py "src/db/models/Friend") (py "@/db/models/Friend")).
  reflexivity.
Defined.

End AliasRoundTrip.

(** ** The form of a resolved path *)

Section ResolvedForm.
Import PyStr PosixPath RefactorImports.

Lemma names_skipn (n : nat) (l : list str) : names l -> names (skipn n l).
Proof.
  unfold names; rewrite !forallb_forall; intros H x Hx; apply H.
  rewrite <- (firstn_skipn n l); apply in_or_app; now right.
Qed.

Lemma common_len_le (a b : list str) : common_len a b <= length a.
Proof.
  revert b; induction a as [|x a IH]; intros [|y b]; cbn [common_len length]; try lia.
  destruct (eqb x y); [specialize (IH b)|]; lia.
Qed.

(** X8.  The path the resolver returns for a relative specifier in a file
    under the root is in canonical form: it is [.], or a run of at most as
    many [..] as the root has segments followed by names only.  No empty
    segment and no [.] is left, and no [..] follows a name. *)
Theorem resolve_path_canonical (R fdir : list str) (fname spec : str) :
  names R -> names fdir -> Spec.is_name fname = true ->
  startswith (py ".") spec = true ->
  exists ups below_root,
    ups <= length R
    /\ names below_root
    /\ resolve_path (Spec.abs_of R) (Spec.abs_of (R ++ fdir ++ [fname])) spec
       = Ok (Spec.render (repeat pardir ups ++ below_root)).
Proof.
  intros HR Hd Hf Hs.
  rewrite resolve_path_segments by assumption.
  set (target := Spec.lexical_normalize (R ++ fdir ++ split "/" spec)).
  assert (Ht : names target).
  { unfold target. rewrite app_assoc, lexical_normalize_names by (now apply names_app).
    apply names_rev, fold_lex_keeps_names; [apply split_no_sep|].
    apply names_rev; now apply names_app. }
  exists (length R - common_len R target), (skipn (common_len R target) target).
  repeat split.
  - pose proof (common_len_le R target); lia.
  - now apply names_skipn.
  - now rewrite relative_to_common.
Qed.

Lemma resolve_path_canonical_witness :
  exists ups below_root,
    ups <= 1
    /\ names below_root
    /\ resolve_path (py "/repo") (py "/repo/src/a.ts") (py "./x/.././../../lib//y")
       = Ok (Spec.render (repeat pardir ups ++ below_root)).
Proof.
  apply (@resolve_path_canonical [py "repo"] [py "src"] (py "a.ts")
           (py "./x/.././../../lib//y")); reflexivity.
Defined.

End ResolvedForm.

(** ** The report script as a whole *)

Section ReportFacts.
Import PyStr AnalyzeReport AnalyzeReportMain.

Lemma append_select (b : buckets) (v : violation) (rest : list violation) :
  let b' := append_info b (classify (v_file v) (i_import (info_of v))) (info_of v) in
  cross_module b' ++ select CrossModule rest
  = cross_module b ++ select CrossModule (v :: rest)
  /\ same_module b' ++ select SameModule rest
     = same_module b ++ select SameModule (v :: rest)
  /\ other_to_module b' ++ select Other rest
     = other_to_module b ++ select Other (v :: rest).
Proof.
  unfold select; cbn [filter].
  destruct (classify (v_file v) (i_import (info_of v)));
    cbn [append_info same_class cross_module same_module other_to_module map];
    repeat split; now rewrite <- ?app_assoc.
Qed.

(** The loop over the violations, from any starting buckets. *)
Lemma classify_all_from (violations : list violation) :
  forall b,
    classify_all violations b =
    if forallb quoted violations
    then Ok {| cross_module := cross_module b ++ select CrossModule violations;
               same_module := same_module b ++ select SameModule violations;
               other_to_module := other_to_module b ++ select Other violations |}
    else Raise IndexError.
Proof.
  induction violations as [|v rest IH]; intros b.
  - cbn [classify_all forallb select filter map]; rewrite !app_nil_r; now destruct b.
  - cbn [classify_all forallb]; rewrite import_path_quoted; unfold quoted at 1.
    destruct (has "'" (v_message v)); cbn [bind andb]; [|reflexivity].
    rewrite IH.
    destruct (forallb quoted rest); [|reflexivity].
    destruct (append_select b v rest) as (E1 & E2 & E3).
    unfold info_of in E1, E2, E3; cbn [i_import] in E1, E2, E3.
    now rewrite E1, E2, E3.
Qed.

Lemma select_count (violations : list violation) :
  length (select CrossModule violations) + length (select SameModule violations)
  + length (select Other violations)
  = length violations.
Proof.
  unfold select; rewrite !length_map.
  induction violations as [|v rest IH]; [reflexivity|].
  cbn [filter length].
  destruct (classify (v_file v) (i_import (info_of v)));
    cbn [same_class length]; lia.
Qed.

(** The loop of lines 24-50 from the empty buckets of lines 18-22. *)
Lemma classify_all_empty (violations : list violation) :
  classify_all violations empty_buckets =
  if forallb quoted violations
  then Ok {| cross_module := select CrossModule violations;
             same_module := select SameModule violations;
             other_to_module := select Other violations |}
  else Raise IndexError.
Proof. now rewrite classify_all_from. Qed.

(** X9.  The loop of lines 24-50 sorts the violations without losing or
    repeating one.  When every message holds a single quote, each bucket
    receives, in the order of the report, the entries of the violations of
    its class, so the three bucket sizes add up to the number of
    violations; when some message holds none, the loop raises
    [IndexError]. *)
Theorem classify_all_partition (violations : list violation) :
  classify_all violations empty_buckets =
  (if forallb quoted violations
   then Ok {| cross_module := select CrossModule violations;
              same_module := select SameModule violations;
              other_to_module := select Other violations |}
   else Raise IndexError)
  /\ length (select CrossModule violations) + length (select SameModule violations)
     + length (select Other violations)
     = length violations.
Proof.
  split; [apply classify_all_empty|apply select_count].
Qed.

(** X10.  What a run prints, call by call.  Without a report file it
    prints one line and ends normally.  With a report whose messages all
    hold a quote it prints the total, then the header of the cross-module
    bucket with its size and the entries of the violations of that class in
    report order, then the same for the same-module bucket and for the
    other bucket: four prints and one for each violation.  With a message
    that holds no quote it ends in [IndexError] after the line with the
    total. *)
Theorem run_output (cwd : str) (data : list file_result) :
  let violations := collect_violations cwd data in
  let total :=
    py "Total 'no-restricted-imports' violations: " ++ str_of_int (length violations) in
  let cross := select CrossModule violations in
  let same := select SameModule violations in
  let other := select Other violations in
  let printed :=
    total
    :: header (py "Cross-Module Violations") cross :: map listing cross
    ++ header (py "Same-Module Violations") same :: map listing same
    ++ header (py "Other (e.g. root->module) Violations") other :: map listing other in
  run cwd None = (Ok tt, [py "eslint_report.json not found"])
  /\ run cwd (Some data)
     = (if forallb quoted violations
        then (Ok tt, printed)
        else (Raise IndexError, [total]))
  /\ length printed = 4 + length violations.
Proof.
  cbv zeta; split; [reflexivity|split].
  - unfold run; rewrite classify_all_empty.
    destruct (forallb quoted (collect_violations cwd data)); reflexivity.
  - repeat (progress (cbn [length]; rewrite ?length_app, ?length_map)).
    pose proof (select_count (collect_violations cwd data)); lia.
Qed.

End ReportFacts.

Section ReportPaths.
Import PyStr AnalyzeReport AnalyzeReportMain.








End ReportPaths.

(** ** The line checks of the audit *)

Section AuditLines.
Import PyStr AuditScript AuditFull.

Lemma append_lines_nil (f : findings) : append_lines [] [] [] [] f = f.
Proof. destruct f; unfold append_lines; cbn; now rewrite !app_nil_r. Qed.

Lemma append_lines_twice (a b c d a' b' c' d' : list finding) (f : findings) :
  append_lines a' b' c' d' (append_lines a b c d f)
  = append_lines (a ++ a') (b ++ b') (c ++ c') (d ++ d') f.
Proof. unfold append_lines; cbn; now rewrite !app_assoc. Qed.

(** The loop over the lines appends to each of its four buckets the entries
    of the lines that pass the test of the bucket. *)
Lemma check_lines_hits (filepath : str) (lines : list str) :
  forall i f,
    check_lines filepath lines i f
    = append_lines (hits (module_violation filepath) filepath lines i)
                   (hits (found hex_color_pattern) filepath lines i)
                   (hits (found_then any_pattern at_word_end) filepath lines i)
                   (hits (found console_log_pattern) filepath lines i)
                   f.
Proof.
  induction lines as [|line rest IH]; intros i f.
  - cbn [check_lines hits]; now rewrite append_lines_nil.
  - cbn [check_lines hits]; rewrite IH; unfold check_line.
    now rewrite append_lines_twice.
Qed.

Lemma hits_In (test : str -> bool) (filepath : str) (lines : list str) (e : finding) :
  forall i,
    In e (hits test filepath lines i) <->
    exists j line,
      nth_error lines j = Some line /\ test line = true
      /\ e = {| f_file := filepath; f_line := S (i + j); f_content := strip line |}.
Proof.
  induction lines as [|line rest IH]; intros i; cbn [hits].
  - split; [intros []|intros (j & l & H & _)]. now destruct j.
  - rewrite in_app_iff, IH; split.
    + intros [H|(j & l & Hn & Ht & ->)].
      * unfold when in H; destruct (test line) eqn:E; [|contradiction].
        destruct H as [<-|[]]. exists 0, line; repeat split; [assumption|].
        now rewrite Nat.add_0_r, Nat.add_1_r.
      * exists (S j), l; repeat split; try assumption.
        now rewrite Nat.add_succ_r.
    + intros ([|j] & l & Hn & Ht & ->).
      * injection Hn as ->; left; unfold when; rewrite Ht; left.
        now rewrite Nat.add_0_r, Nat.add_1_r.
      * right; exists j, l; repeat split; try assumption.
        now rewrite Nat.add_succ_r.
Qed.

Lemma splitlines_aux_clean_upto (n : nat) :
  forall s cur,
    length s <= n ->
    forallb (fun c => negb (is_linebreak c)) cur = true ->
    Forall (fun line => forallb (fun c => negb (is_linebreak c)) line = true)
           (splitlines_aux s cur).
Proof.
  induction n as [|n IH]; intros s cur Hn Hcur;
    assert (Hrev : forallb (fun c => negb (is_linebreak c)) (rev cur) = true)
      by (rewrite forallb_forall in *; intros x Hx; apply Hcur; now apply in_rev).
  - destruct s; [|cbn in Hn; lia]; cbn [splitlines_aux].
    destruct cur; constructor; [exact Hrev|constructor].
  - destruct s as [|c s]; cbn [splitlines_aux].
    + destruct cur; constructor; [exact Hrev|constructor].
    + cbn [length] in Hn; destruct (is_linebreak c) eqn:Ec.
      * constructor; [exact Hrev|].
        destruct s as [|d s]; [apply IH; [cbn; lia|reflexivity]|].
        cbn [length] in Hn.
        destruct ((nat_of_ascii c =? 13) && (nat_of_ascii d =? 10));
          apply IH; (cbn [length]; lia) || reflexivity.
      * apply IH; [lia|].
        cbn [forallb]; now rewrite Ec.
Qed.

Lemma splitlines_aux_clean (s cur : str) :
  forallb (fun c => negb (is_linebreak c)) cur = true ->
  Forall (fun line => forallb (fun c => negb (is_linebreak c)) line = true)
         (splitlines_aux s cur).
Proof. apply (@splitlines_aux_clean_upto (length s)); lia. Qed.

(** What the checks on one file add to each bucket. *)
Lemma check_file_buckets (filepath content : str) (f : findings) :
  let g := check_file filepath content f in
  let lines := splitlines content in
  module_violations g
  = module_violations f ++ hits (module_violation filepath) filepath lines 0
  /\ hardcoded_colors g
     = hardcoded_colors f ++ hits (found hex_color_pattern) filepath lines 0
  /\ any_usage g
     = any_usage f ++ hits (found_then any_pattern at_word_end) filepath lines 0
  /\ AuditFull.console_log g
     = AuditFull.console_log f ++ hits (found console_log_pattern) filepath lines 0
  /\ zustand_usage g
     = zustand_usage f ++ when (found zustand_pattern content) filepath
  /\ stylesheet_create g
     = stylesheet_create f ++ when (found stylesheet_pattern content) filepath
  /\ flashlist_missing_size g
     = flashlist_missing_size f
       ++ when (found flashlist_pattern content
                && negb (found estimated_size_pattern content)) filepath
  /\ deep_imports g = deep_imports f
  /\ todo_comments g = todo_comments f
  /\ potential_n_plus_one g = potential_n_plus_one f
  /\ database_write g = database_write f.
Proof.
  cbv zeta; unfold check_file; rewrite check_lines_hits.
  unfold append_lines, append_files; cbn.
  repeat split.
Qed.

(** The entries of the lines that pass the test are the recorded ones. *)
Lemma hits_recorded (test : str -> bool) (filepath content : str) (e : finding) :
  In e (hits test filepath (splitlines content) 0)
  <-> recorded test filepath content e.
Proof.
  assert (Hclean := @splitlines_aux_clean content [] eq_refl).
  fold (splitlines content) in Hclean; rewrite Forall_forall in Hclean.
  rewrite hits_In; unfold recorded; split.
  - intros (j & line & Hn & Ht & ->); exists j, line; repeat split; try assumption.
    apply Hclean; eapply nth_error_In; eassumption.
  - intros (j & line & Hn & Ht & _ & ->); now exists j, line.
Qed.

End AuditLines.

(** ** The audit walk *)

Section AuditWalk.
Import PyStr World AuditFull.

Lemma audit_file_fold (fs : list (str * file)) (p : str) (f : findings) (out : list str) :
  audit_file p f {| files := fs; stdout := out |}
  = (Ok (check_path fs f p),
     {| files := fs; stdout := out ++ error_lines fs [p] |}).
Proof.
  unfold audit_file, try_except, mbind, read_text, check_path, error_lines;
    cbn [files flat_map].
  destruct (read_file fs p) as [content|e]; cbn [app];
    rewrite ?app_nil_r; reflexivity.
Qed.

Lemma error_lines_app (fs : list (str * file)) (a b : list str) :
  error_lines fs (a ++ b) = error_lines fs a ++ error_lines fs b.
Proof. apply flat_map_app. Qed.

Lemma audit_files_fold (fs : list (str * file)) (subdir : str) (names : list str) :
  forall (f : findings) (out : list str),
    let paths :=
      map (fun file => PosixPath.join subdir [file])
          (filter (RefactorImports.endswith_any RefactorImports.extensions) names) in
    audit_files subdir names f {| files := fs; stdout := out |}
    = (Ok (fold_left (check_path fs) paths f),
       {| files := fs; stdout := out ++ error_lines fs paths |}).
Proof.
  induction names as [|file rest IH]; intros f out; cbv zeta.
  - cbn; now rewrite app_nil_r.
  - cbn [audit_files filter]; unfold mbind.
    destruct (RefactorImports.endswith_any RefactorImports.extensions file).
    + rewrite audit_file_fold, IH; cbn [map fold_left].
      rewrite <- app_assoc, <- error_lines_app; reflexivity.
    + unfold ret at 1; now rewrite IH.
Qed.

Lemma audit_walk_fold (fs : list (str * file)) (entries : list (str * list str)) :
  forall (f : findings) (out : list str),
    let paths := visited (fun _ => entries) [[]] in
    audit_walk entries f {| files := fs; stdout := out |}
    = (Ok (fold_left (check_path fs) paths f),
       {| files := fs; stdout := out ++ error_lines fs paths |}).
Proof.
  unfold visited; cbn [flat_map]; rewrite app_nil_r.
  induction entries as [|[subdir names] rest IH]; intros f out.
  - cbn; now rewrite app_nil_r.
  - cbn [audit_walk flat_map fst snd]; unfold mbind.
    destruct (contains (py "node_modules") subdir || contains (py ".git") subdir).
    + unfold ret at 1; now rewrite IH.
    + rewrite audit_files_fold, IH, fold_left_app, error_lines_app, app_assoc.
      reflexivity.
Qed.

Lemma audit_roots_fold (fs : list (str * file)) (walk : str -> list (str * list str))
      (root_dirs : list str) :
  forall (f : findings) (out : list str),
    audit_roots walk root_dirs f {| files := fs; stdout := out |}
    = (Ok (fold_left (check_path fs) (visited walk root_dirs) f),
       {| files := fs; stdout := out ++ error_lines fs (visited walk root_dirs) |}).
Proof.
  induction root_dirs as [|root_dir rest IH]; intros f out.
  - cbn; now rewrite app_nil_r.
  - cbn [audit_roots]; unfold mbind.
    rewrite audit_walk_fold, IH.
    unfold visited; cbn [flat_map]; rewrite !app_nil_r.
    now rewrite fold_left_app, error_lines_app, app_assoc.
Qed.

(** X13.  The audit as a whole.  It never raises and never writes: the
    files are as before.  Its findings are those of the checks on the
    readable source files outside [node_modules] and [.git], in the order
    of the walk, and what it printed on the way is one line for each
    source file it could not read. *)
Theorem audit_codebase_walk (walk : str -> list (str * list str))
        (root_dirs : list str) (w : world) :
  let paths := visited walk root_dirs in
  audit_codebase walk root_dirs w
  = (Ok (fold_left (check_path (files w)) paths empty_findings),
     {| files := files w;
        stdout := stdout w ++ error_lines (files w) paths |}).
Proof.
  destruct w as [fs out]; unfold audit_codebase; cbv zeta; cbn [files stdout].
  apply audit_roots_fold.
Qed.

End AuditWalk.

(** ** The buckets of the audit report *)

Section AuditBuckets.
Import PyStr World AuditScript AuditFull.

Lemma fold_gathered (A : Type) (bucket : findings -> list A)
      (part : str -> str -> list A) (fs : list (str * file)) :
  (forall p content f, bucket (check_file p content f) = bucket f ++ part p content) ->
  forall paths f,
    bucket (fold_left (check_path fs) paths f) = bucket f ++ gathered fs part paths.
Proof.
  intros Hpart; induction paths as [|p paths IH]; intros f.
  - cbn; now rewrite app_nil_r.
  - cbn [fold_left]; rewrite IH; unfold gathered; cbn [flat_map].
    unfold check_path.
    destruct (read_file fs p) as [content|e];
      rewrite ?Hpart, <- ?app_assoc; reflexivity.
Qed.

Lemma gathered_In (A : Type) (part : str -> str -> list A) (fs : list (str * file))
      (paths : list str) (x : A) :
  In x (gathered fs part paths)
  <-> exists p content,
        In p paths /\ read_file fs p = Ok content /\ In x (part p content).
Proof.
  unfold gathered; rewrite in_flat_map; split.
  - intros (p & Hp & Hx).
    destruct (read_file fs p) as [content|e] eqn:E; try contradiction.
    now exists p, content.
  - intros (p & content & Hp & E & Hx); exists p; split; [assumption|].
    now rewrite E.
Qed.

Lemma gathered_nil (A : Type) (fs : list (str * file)) (paths : list str) :
  gathered fs (fun _ _ => @nil A) paths = [].
Proof.
  unfold gathered; induction paths as [|p paths IH]; [reflexivity|].
  cbn [flat_map]; rewrite IH.
  now destruct (read_file fs p) as [content|e].
Qed.

Lemma when_In (A : Type) (test : bool) (x y : A) :
  In y (when test x) <-> test = true /\ y = x.
Proof.
  unfold when; destruct test; cbn; split; intuition congruence.
Qed.

(** A pattern that is one literal text is found exactly in the texts
    that contain it. *)
Lemma found_lit (l s : str) : found (Re.Lit l) s = contains l s.
Proof.
  unfold found; induction s as [|c s IH]; cbn [found_then contains Re.exec].
  - destruct (startswith l []); reflexivity.
  - destruct (startswith l (c :: s)); [reflexivity|exact IH].
Qed.

Lemma audit_lines_hits (filepath : str) (lines : list str) :
  forall i,
    audit_lines filepath lines i = hits (module_violation filepath) filepath lines i.
Proof.
  induction lines as [|line rest IH]; intros i; [reflexivity|].
  cbn [audit_lines hits]; now rewrite IH.
Qed.

Lemma gathered_app (A : Type) (part : str -> str -> list A) (fs : list (str * file))
      (a b : list str) :
  gathered fs part (a ++ b) = gathered fs part a ++ gathered fs part b.
Proof. apply flat_map_app. Qed.

(** The walk that keeps the [module_violations] bucket alone returns the
    bucket of the full audit, in the same world. *)
Lemma audit_codebase_agrees (walk : str -> list (str * list str))
      (root_dirs : list str) (w : world) :
  exists f w',
    AuditFull.audit_codebase walk root_dirs w = (Ok f, w')
    /\ AuditScript.audit_codebase walk root_dirs w = (Ok (module_violations f), w').
Proof.
  destruct w as [fs out]; unfold AuditFull.audit_codebase; rewrite audit_roots_fold.
  do 2 eexists; split; [reflexivity|].
  rewrite (@fold_gathered _ module_violations
             (fun p content => audit_lines p (splitlines content) 0) fs)
    by (intros; rewrite audit_lines_hits; apply check_file_buckets).
  cbn [empty_findings module_violations app].
  set (part := fun p content => audit_lines p (splitlines content) 0).
  assert (Hfile : forall p o,
             AuditScript.audit_file p {| files := fs; stdout := o |}
             = (Ok (gathered fs part [p]),
                {| files := fs; stdout := o ++ error_lines fs [p] |})).
  { intros p o.
    unfold AuditScript.audit_file, try_except, mbind, read_text, gathered,
      error_lines; cbn [files flat_map].
    destruct (read_file fs p) as [content|e]; cbn [app];
      rewrite ?app_nil_r; reflexivity. }
  assert (Hfiles : forall subdir names o,
             AuditScript.audit_files subdir names {| files := fs; stdout := o |}
             = (Ok (gathered fs part
                      (map (fun file => PosixPath.join subdir [file])
                           (filter (RefactorImports.endswith_any
                                      RefactorImports.extensions) names))),
                {| files := fs;
                   stdout := o ++ error_lines fs
                      (map (fun file => PosixPath.join subdir [file])
                           (filter (RefactorImports.endswith_any
                                      RefactorImports.extensions) names)) |})).
  { intros subdir names; induction names as [|file rest IH]; intros o.
    - cbn; now rewrite app_nil_r.
    - cbn [AuditScript.audit_files filter]; unfold mbind.
      destruct (RefactorImports.endswith_any RefactorImports.extensions file).
      + rewrite Hfile, IH; unfold ret; cbn [map].
        rewrite <- gathered_app, <- app_assoc, <- error_lines_app; reflexivity.
      + unfold ret at 1; rewrite IH; reflexivity. }
  assert (Hwalk : forall entries o,
             AuditScript.audit_walk entries {| files := fs; stdout := o |}
             = (Ok (gathered fs part (visited (fun _ => entries) [[]])),
                {| files := fs;
                   stdout := o ++ error_lines fs (visited (fun _ => entries) [[]]) |})).
  { unfold visited; cbn [flat_map]; intros entries.
    rewrite app_nil_r.
    induction entries as [|[subdir names] rest IH]; intros o.
    - cbn; now rewrite app_nil_r.
    - cbn [AuditScript.audit_walk flat_map fst snd]; unfold mbind.
      destruct (contains (py "node_modules") subdir || contains (py ".git") subdir).
      + unfold ret at 1; rewrite IH; reflexivity.
      + rewrite Hfiles, IH; unfold ret.
        now rewrite gathered_app, error_lines_app, app_assoc. }
  generalize out; clear out.
  induction root_dirs as [|root_dir rest IH]; intros out.
  - cbn; now rewrite app_nil_r.
  - cbn [AuditScript.audit_codebase]; unfold mbind.
    rewrite Hwalk, IH; unfold ret.
    unfold visited; cbn [flat_map]; rewrite !app_nil_r.
    now rewrite gathered_app, error_lines_app, app_assoc.
Qed.

(** X12.  The line buckets of a run.  An entry is in [module_violations],
    [hardcoded_colors], [any_usage] or [console_log] exactly when it
    stands for a line, of a readable source file the walk opens, that
    passes the test of the bucket: the entry names the file, numbers the
    line from one and holds the line without the white space around it;
    the test of [console_log] is that the line contains the text
    [console.log(]. *)
Theorem line_buckets (walk : str -> list (str * list str)) (root_dirs : list str)
        (w : world) (e : finding) :
  exists f w',
    audit_codebase walk root_dirs w = (Ok f, w')
    /\ let from (test : str -> str -> bool) :=
         exists p content,
           In p (visited walk root_dirs)
           /\ read_file (files w) p = Ok content
           /\ recorded (test p) p content e in
       (In e (module_violations f) <-> from module_violation)
       /\ (In e (hardcoded_colors f) <-> from (fun _ => found hex_color_pattern))
       /\ (In e (any_usage f)
           <-> from (fun _ => found_then any_pattern at_word_end))
       /\ (In e (AuditFull.console_log f)
           <-> from (fun _ => contains (py "console.log("))).
Proof.
  destruct w as [fs out]; unfold audit_codebase; rewrite audit_roots_fold.
  do 2 eexists; split; [reflexivity|]; cbv zeta; cbn [files].
  assert (H : forall (bucket : findings -> list finding) (test : str -> str -> bool),
             bucket empty_findings = [] ->
             (forall p content f,
                 bucket (check_file p content f)
                 = bucket f ++ hits (test p) p (splitlines content) 0) ->
             In e (bucket (fold_left (check_path fs) (visited walk root_dirs)
                                     empty_findings))
             <-> exists p content,
                 In p (visited walk root_dirs)
                 /\ read_file fs p = Ok content
                 /\ recorded (test p) p content e).
  { intros bucket test H0 Hb.
    rewrite (@fold_gathered _ bucket
               (fun p content => hits (test p) p (splitlines content) 0) fs Hb).
    rewrite H0; cbn [app]; rewrite gathered_In.
    split; intros (p & content & Hp & E & Hx); exists p, content;
      repeat split; try assumption; now apply hits_recorded. }
  repeat split.
  - apply (H module_violations module_violation eq_refl);
      intros; apply check_file_buckets.
  - apply (H module_violations module_violation eq_refl);
      intros; apply check_file_buckets.
  - apply (H hardcoded_colors (fun _ => found hex_color_pattern) eq_refl);
      intros; apply check_file_buckets.
  - apply (H hardcoded_colors (fun _ => found hex_color_pattern) eq_refl);
      intros; apply check_file_buckets.
  - apply (H any_usage (fun _ => found_then any_pattern at_word_end) eq_refl);
      intros; apply check_file_buckets.
  - apply (H any_usage (fun _ => found_then any_pattern at_word_end) eq_refl);
      intros; apply check_file_buckets.
  - apply (H AuditFull.console_log (fun _ => contains (py "console.log(")) eq_refl).
    intros p content f.
    replace (hits (contains (py "console.log(")) p (splitlines content) 0)
      with (hits (found console_log_pattern) p (splitlines content) 0);
      [apply check_file_buckets|].
    generalize 0; induction (splitlines content) as [|l ls IH]; intros i;
      [reflexivity|].
    cbn [hits]; unfold console_log_pattern at 1; now rewrite found_lit, IH.
  - apply (H AuditFull.console_log (fun _ => contains (py "console.log(")) eq_refl).
    intros p content f.
    replace (hits (contains (py "console.log(")) p (splitlines content) 0)
      with (hits (found console_log_pattern) p (splitlines content) 0);
      [apply check_file_buckets|].
    generalize 0; induction (splitlines content) as [|l ls IH]; intros i;
      [reflexivity|].
    cbn [hits]; unfold console_log_pattern at 1; now rewrite found_lit, IH.
Qed.

(** X14.  The file buckets of a run, and the buckets that stay empty.  A
    path is listed under [zustand_usage], [stylesheet_create] or
    [flashlist_missing_size] exactly when it is a readable source file the
    walk opens whose content passes the test: for [stylesheet_create] that
    it contains [StyleSheet.create], for [flashlist_missing_size] that it
    contains [<FlashList] and nowhere [estimatedItemSize={].  The buckets
    [deep_imports], [todo_comments], [potential_n_plus_one] and
    [database_write] are empty after every run. *)
Theorem file_buckets (walk : str -> list (str * list str)) (root_dirs : list str)
        (w : world) (p : str) :
  exists f w',
    audit_codebase walk root_dirs w = (Ok f, w')
    /\ idle_buckets f
    /\ let from (test : str -> bool) :=
         In p (visited walk root_dirs)
         /\ exists content,
              read_file (files w) p = Ok content /\ test content = true in
       (In p (zustand_usage f) <-> from (found zustand_pattern))
       /\ (In p (stylesheet_create f) <-> from (contains (py "StyleSheet.create")))
       /\ (In p (flashlist_missing_size f)
           <-> from (fun content =>
                       contains (py "<FlashList") content
                       && negb (contains (py "estimatedItemSize={") content))).
Proof.
  destruct w as [fs out]; unfold audit_codebase; rewrite audit_roots_fold.
  do 2 eexists; split; [reflexivity|]; cbv zeta; cbn [files].
  split.
  - unfold idle_buckets; repeat split.
    + rewrite (@fold_gathered _ deep_imports (fun _ _ => []) fs);
        [now rewrite gathered_nil|].
      intros; rewrite app_nil_r; apply check_file_buckets.
    + rewrite (@fold_gathered _ todo_comments (fun _ _ => []) fs);
        [now rewrite gathered_nil|].
      intros; rewrite app_nil_r; apply check_file_buckets.
    + rewrite (@fold_gathered _ potential_n_plus_one (fun _ _ => []) fs);
        [now rewrite gathered_nil|].
      intros; rewrite app_nil_r; apply check_file_buckets.
    + rewrite (@fold_gathered _ database_write (fun _ _ => []) fs);
        [now rewrite gathered_nil|].
      intros; rewrite app_nil_r; apply check_file_buckets.
  - assert (H : forall (bucket : findings -> list str) (test : str -> bool),
               bucket empty_findings = [] ->
               (forall q content f,
                   bucket (check_file q content f)
                   = bucket f ++ when (test content) q) ->
               In p (bucket (fold_left (check_path fs) (visited walk root_dirs)
                                       empty_findings))
               <-> In p (visited walk root_dirs)
                   /\ exists content,
                        read_file fs p = Ok content /\ test content = true).
    { intros bucket test H0 Hb.
      rewrite (@fold_gathered _ bucket (fun q content => when (test content) q) fs Hb).
      rewrite H0; cbn [app]; rewrite gathered_In; split.
      - intros (q & content & Hq & E & Hx).
        apply when_In in Hx as [Ht ->]. split; [assumption|now exists content].
      - intros (Hp & content & E & Ht); exists p, content; repeat split;
          try assumption.
        now apply when_In. }
    split; [|split].
    + apply (H zustand_usage (found zustand_pattern) eq_refl).
      intros; apply check_file_buckets.
    + apply (H stylesheet_create (contains (py "StyleSheet.create")) eq_refl).
      intros q content f.
      rewrite <- (found_lit (py "StyleSheet.create") content).
      apply check_file_buckets.
    + apply (H flashlist_missing_size
               (fun content => contains (py "<FlashList") content
                               && negb (contains (py "estimatedItemSize={") content))
               eq_refl).
      intros q content f.
      rewrite <- (found_lit (py "<FlashList") content),
              <- (found_lit (py "estimatedItemSize={") content).
      apply check_file_buckets.
Qed.

End AuditBuckets.

(** ** The patterns of the audit *)

Section AuditPatterns.
Import PyStr Re AuditFull.

(** A search succeeds exactly when the pattern matches at the head of some
    tail of the text, with the closing test passed. *)
Lemma found_then_iff (r : regex) (ok : str -> bool) (s : str) :
  found_then r ok s = true
  <-> exists b t,
        s = b ++ t
        /\ exec r t [] (fun s' _ => if ok s' then Some tt else None) = Some tt.
Proof.
  induction s as [|c s IH]; cbn [found_then].
  - destruct (exec r [] [] (fun s' _ => if ok s' then Some tt else None))
      as [[]|] eqn:E; split; try discriminate.
    + intros _; now exists [], [].
    + reflexivity.
    + intros (b & t & Hs & H). symmetry in Hs; apply app_eq_nil in Hs as [-> ->].
      congruence.
  - destruct (exec r (c :: s) [] (fun s' _ => if ok s' then Some tt else None))
      as [[]|] eqn:E; split.
    + intros _; now exists [], (c :: s).
    + reflexivity.
    + intros H; apply IH in H as (b & t & -> & H). now exists (c :: b), t.
    + intros (b & t & Hs & H). apply IH. destruct b as [|c' b].
      * cbn [app] in Hs; subst t; congruence.
      * injection Hs as -> ->. now exists b, t.
Qed.

(** A greedy run gives a match whenever stopping somewhere in the run
    does. *)
Lemma rep_greedy_some (p : ascii -> bool) (run s2 : str) (caps : captures)
      (k : cont unit) :
  forall min,
    forallb p run = true -> min <= length run ->
    k s2 caps = Some tt ->
    rep_greedy p min (run ++ s2) caps k = Some tt.
Proof.
  induction run as [|c run IH]; intros min Hrun Hmin Hk.
  - cbn [length] in Hmin; assert (min = 0) by lia; subst min; cbn [app].
    destruct s2 as [|c s']; cbn [rep_greedy Nat.eqb]; [exact Hk|].
    destruct (p c); [|exact Hk].
    now destruct (rep_greedy p (pred 0) s' caps k) as [[]|].
  - cbn [forallb] in Hrun; apply andb_true_iff in Hrun as [Hc Hrun].
    cbn [app rep_greedy]; rewrite Hc.
    rewrite (IH (pred min)); [reflexivity|assumption| |assumption].
    cbn [length] in Hmin; lia.
Qed.

Lemma space_not_a (c : ascii) : is_space c = true -> Ascii.eqb "a" c = false.
Proof.
  intros H; destruct (Ascii.eqb "a" c) eqn:E; [|reflexivity].
  apply Ascii.eqb_eq in E; subst c; discriminate.
Qed.

(** X15.  The pattern behind [hardcoded_colors] is found in a line exactly
    when the line holds a quote, a hash sign, six hexadecimal digits and a
    quote in a row: a colour of three or of eight digits is not found. *)
Theorem hex_color_found (line : str) :
  found hex_color_pattern line = true
  <-> exists before q1 digits q2 after,
        line = before ++ q1 :: "#"%char :: digits ++ q2 :: after
        /\ is_quote q1 = true /\ is_quote q2 = true
        /\ length digits = 6 /\ forallb is_hex digits = true.
Proof.
  unfold found; rewrite found_then_iff; unfold hex_color_pattern; cbn [seq].
  split.
  - intros (b & t & -> & H).
    rewrite exec_cat in H; apply exec_cls_inv in H as (q1 & s1 & -> & Hq1 & H).
    rewrite exec_cat in H; apply exec_lit_inv in H as (s2 & -> & H).
    rewrite exec_cat in H; apply exec_cls_inv in H as (h1 & s3 & -> & H1 & H).
    rewrite exec_cat in H; apply exec_cls_inv in H as (h2 & s4 & -> & H2 & H).
    rewrite exec_cat in H; apply exec_cls_inv in H as (h3 & s5 & -> & H3 & H).
    rewrite exec_cat in H; apply exec_cls_inv in H as (h4 & s6 & -> & H4 & H).
    rewrite exec_cat in H; apply exec_cls_inv in H as (h5 & s7 & -> & H5 & H).
    rewrite exec_cat in H; apply exec_cls_inv in H as (h6 & s8 & -> & H6 & H).
    apply exec_cls_inv in H as (q2 & after & -> & Hq2 & _).
    exists b, q1, [h1; h2; h3; h4; h5; h6], q2, after.
    repeat split; try assumption.
    cbn [forallb]; now rewrite H1, H2, H3, H4, H5, H6.
  - intros (before & q1 & digits & q2 & after & -> & Hq1 & Hq2 & Hlen & Hhex).
    destruct digits as [|h1 [|h2 [|h3 [|h4 [|h5 [|h6 [|h7 digits]]]]]]];
      try discriminate.
    cbn [forallb] in Hhex.
    repeat (apply andb_true_iff in Hhex as [? Hhex]).
    exists before; eexists; split; [reflexivity|].
    rewrite exec_cat, exec_cls by assumption.
    change ("#"%char :: ?s) with (py "#" ++ s) at 1.
    rewrite exec_cat.
    change ("#"%char :: [h1; h2; h3; h4; h5; h6] ++ q2 :: after)
      with (py "#" ++ h1 :: h2 :: h3 :: h4 :: h5 :: h6 :: q2 :: after).
    rewrite exec_lit; cbn [app].
    repeat (rewrite exec_cat, exec_cls by assumption).
    now rewrite exec_cls by assumption.
Qed.

Lemma hex_color_found_witness :
  found hex_color_pattern (py "color: '#1A2b3C',") = true.
Proof.
  apply (proj2 (hex_color_found (py "color: '#1A2b3C',"))).
  exists (py "color: "), "'"%char, (py "1A2b3C"), "'"%char, (py ",").
  repeat split.
Defined.

(** X16.  The pattern behind [any_usage] is found in a line exactly when
    the line holds a colon, then white space or nothing, then [any], and
    what follows [any] does not begin with a letter, a digit or an
    underscore: a type such as [anyway] is not found. *)
Theorem any_found (line : str) :
  found_then any_pattern at_word_end line = true
  <-> exists before ws after,
        line = before ++ ":"%char :: ws ++ py "any" ++ after
        /\ forallb is_space ws = true
        /\ at_word_end after = true.
Proof.
  rewrite found_then_iff; unfold any_pattern; cbn [seq].
  split.
  - intros (b & t & -> & H).
    rewrite exec_cat in H; apply exec_lit_inv in H as (s1 & -> & H).
    rewrite exec_cat, exec_greedy in H.
    apply rep_greedy_inv in H as (ws & s2 & -> & Hws & _ & H).
    apply exec_lit_inv in H as (after & -> & H).
    exists b, ws, after; repeat split; try assumption.
    now destruct (at_word_end after).
  - intros (before & ws & after & -> & Hws & Hafter).
    exists before; eexists; split; [reflexivity|].
    change (":"%char :: ws ++ py "any" ++ after)
      with (py ":" ++ ws ++ py "any" ++ after).
    rewrite exec_cat, exec_lit, exec_cat, exec_greedy.
    rewrite rep_greedy_commit.
    + cbn [Nat.leb]; rewrite exec_lit; now rewrite Hafter.
    + assumption.
    + reflexivity.
    + intros b1 c b2 ->.
      rewrite forallb_app in Hws; apply andb_true_iff in Hws as [_ Hws].
      cbn [forallb] in Hws; apply andb_true_iff in Hws as [Hc _].
      cbn [exec startswith py list_ascii_of_string].
      now rewrite (space_not_a _ Hc).
Qed.

Lemma any_found_witness :
  found_then any_pattern at_word_end (py "const x:  any = 1") = true.
Proof.
  apply (proj2 (any_found (py "const x:  any = 1"))).
  exists (py "const x"), (py "  "), (py " = 1").
  repeat split.
Defined.

(** X17.  The pattern behind [zustand_usage] is found in a content exactly
    when the content holds [import], then any text without a newline,
    then [from], one space and [zustand] between two quotes: an import
    whose [from] stands on a later line is not found. *)
Theorem zustand_found (content : str) :
  found zustand_pattern content = true
  <-> exists before mid q1 q2 after,
        content = before ++ py "import" ++ mid ++ py "from "
                         ++ q1 :: py "zustand" ++ q2 :: after
        /\ forallb not_newline mid = true
        /\ is_quote q1 = true /\ is_quote q2 = true.
Proof.
  unfold found; rewrite found_then_iff; unfold zustand_pattern; cbn [seq].
  split.
  - intros (b & t & -> & H).
    rewrite exec_cat in H; apply exec_lit_inv in H as (s1 & -> & H).
    rewrite exec_cat, exec_greedy in H.
    apply rep_greedy_inv in H as (mid & s2 & -> & Hmid & _ & H).
    rewrite exec_cat in H; apply exec_lit_inv in H as (s3 & -> & H).
    rewrite exec_cat in H; apply exec_cls_inv in H as (q1 & s4 & -> & Hq1 & H).
    rewrite exec_cat in H; apply exec_lit_inv in H as (s5 & -> & H).
    apply exec_cls_inv in H as (q2 & after & -> & Hq2 & _).
    now exists b, mid, q1, q2, after.
  - intros (before & mid & q1 & q2 & after & -> & Hmid & Hq1 & Hq2).
    exists before; eexists; split; [reflexivity|].
    rewrite exec_cat, exec_lit, exec_cat, exec_greedy.
    apply rep_greedy_some; [assumption|lia|].
    rewrite exec_cat, exec_lit, exec_cat, exec_cls by assumption.
    rewrite exec_cat, exec_lit.
    now rewrite exec_cls by assumption.
Qed.

Lemma zustand_found_witness :
  found zustand_pattern (py "import { create } from 'zustand';") = true.
Proof.
  apply (proj2 (zustand_found (py "import { create } from 'zustand';"))).
  exists [], (py " { create } "), "'"%char, "'"%char, (py ";").
  repeat split.
Defined.

End AuditPatterns.

(** ** The module of a file, in the audit and in the report *)

Section ModuleOfFile.
Import PyStr AuditScript.

Lemma split_str_aux_none (sep s : str) :
  contains sep s = false ->
  forall cur, split_str_aux sep s 0 cur = [rev cur ++ s].
Proof.
  induction s as [|c s IH]; intros Hc cur.
  - cbn [split_str_aux]; now rewrite app_nil_r.
  - cbn [contains] in Hc; apply orb_false_iff in Hc as [Hs Hc].
    cbn [split_str_aux]; rewrite Hs, (IH Hc); cbn [rev].
    now rewrite <- app_assoc.
Qed.

Lemma split_str_aux_skip (sep a t cur : str) :
  split_str_aux sep (a ++ t) (length a) cur = split_str_aux sep t 0 cur.
Proof.
  induction a as [|c a IH]; [reflexivity|].
  cbn [app length split_str_aux]; exact IH.
Qed.

Lemma split_str_aux_first (sep pre tail : str) :
  sep <> [] ->
  (forall b1 b2, pre = b1 ++ b2 -> b2 <> [] ->
                 startswith sep (b2 ++ sep ++ tail) = false) ->
  forall cur,
    split_str_aux sep (pre ++ sep ++ tail) 0 cur
    = (rev cur ++ pre) :: split_str_aux sep tail 0 [].
Proof.
  intros Hsep; induction pre as [|c pre IH]; intros Hpre cur.
  - destruct sep as [|x sep']; [contradiction|].
    cbn [app]; rewrite app_nil_r.
    change (split_str_aux (x :: sep') (x :: sep' ++ tail) 0 cur)
      with (if startswith (x :: sep') ((x :: sep') ++ tail)
            then rev cur :: split_str_aux (x :: sep') (sep' ++ tail)
                                          (length (x :: sep') - 1) []
            else split_str_aux (x :: sep') (sep' ++ tail) 0 (x :: cur)).
    rewrite startswith_app.
    replace (length (x :: sep') - 1) with (length sep') by (cbn [length]; lia).
    now rewrite split_str_aux_skip.
  - assert (H0 : startswith sep ((c :: pre) ++ sep ++ tail) = false)
      by (apply (Hpre [] (c :: pre) eq_refl); discriminate).
    cbn [app] in H0 |- *; cbn [split_str_aux]; rewrite H0.
    rewrite IH.
    + cbn [rev]; now rewrite <- app_assoc.
    + intros b1 b2 -> Hb2; now apply (Hpre (c :: b1) b2).
Qed.

(** No occurrence of [src/modules/] begins in a text that holds none and
    runs on into the occurrence behind it. *)
Lemma no_early_modules (b rest : str) :
  b <> [] -> contains (py "src/modules/") b = false ->
  startswith (py "src/modules/") (b ++ py "src/modules/" ++ rest) = false.
Proof.
  intros Hne Hc.
  destruct (startswith (py "src/modules/") (b ++ py "src/modules/" ++ rest)) eqn:E;
    [|reflexivity].
  exfalso; apply startswith_iff in E as [r E].
  destruct b as [|c1 [|c2 [|c3 [|c4 [|c5 [|c6 [|c7 [|c8 [|c9 [|c10 [|c11 [|c12 b]]]]]]]]]]]];
    try contradiction;
    cbn in E; injection E; intros; subst; discriminate.
Qed.

(** X18.  The module of a file.  For a path that holds [src/modules/] once,
    the audit takes as the module of the file the text between that
    occurrence and the next separator, whatever stands before the
    occurrence; on a path that begins with [src/modules/] the report
    script takes the same module. *)
Theorem current_module_segment (pre tail : str) :
  contains (py "src/modules/") pre = false ->
  contains (py "src/modules/") tail = false ->
  current_module (pre ++ py "src/modules/" ++ tail) = Some (Spec.first_segment tail)
  /\ AnalyzeReport.source_module (py "src/modules/" ++ tail)
     = Some (Spec.first_segment tail).
Proof.
  intros Hpre Htail; split.
  - unfold current_module.
    replace (contains (py "src/modules/") (pre ++ py "src/modules/" ++ tail))
      with true by (symmetry; apply contains_iff; now exists pre, tail).
    unfold split_str.
    rewrite split_str_aux_first, split_str_aux_none by
      (assumption || discriminate
       || (intros b1 b2 -> Hb2; apply no_early_modules;
           [assumption|now apply contains_suffix in Hpre])).
    cbn [length Nat.ltb Nat.leb nth rev app].
    destruct (split_hd tail) as [t ->]; reflexivity.
  - unfold AnalyzeReport.source_module; rewrite startswith_app.
    destruct (split_hd tail) as [t Ht].
    cbn -[Nat.ltb]; rewrite Ht; reflexivity.
Qed.

Lemma current_module_segment_witness :
  current_module (py "/repo/src/modules/billing/Bar.ts") = Some (py "billing")
  /\ AnalyzeReport.source_module (py "src/modules/billing/Bar.ts")
     = Some (py "billing").
Proof.
  apply (@current_module_segment (py "/repo/") (py "billing/Bar.ts"));
    reflexivity.
Defined.

End ModuleOfFile.
